(** * http_client: request lifecycle orchestrator and retry engine

    A shallow embedding of the TypeScript sources
    - [src/utils/index.ts]          (status predicates and classifier),
    - [src/core/FetchResponse.ts]   (response wrapper and body parsing),
    - [src/events/index.ts]         (the lifecycle event classes),
    - the module of [src/core] that defines [FetchRequest], [safeFetch]
      and [HttpFetchError],
    followed by the properties established about them.

    Conventions.  A JavaScript [number] holding a status code, an attempt
    index, a timeout or a retry budget is a [Z].  Strings are [string]s whose
    characters are code units below 256 (header values are byte strings).
    An [async] function is a function returning a [Completion]: the promise
    is fulfilled, rejected, or never settles.  Mutable objects are threaded
    explicitly as state. *)

From Stdlib Require Import ZArith Bool List String Ascii Lia.
From Stdlib Require Import DecimalString.
Import ListNotations.
Open Scope string_scope.
Open Scope Z_scope.

(* ================================================================== *)
(** ** JavaScript string primitives used by the sources *)

(** [s.startsWith(p)] *)
Definition startsWith (s p : string) : bool := String.prefix p s.

(** [s.includes(needle)] *)
Fixpoint includes (s needle : string) : bool :=
  String.prefix needle s ||
  match s with
  | EmptyString => false
  | String _ s' => includes s' needle
  end.

(** [s.endsWith(suffix)] *)
Fixpoint endsWith (s suffix : string) : bool :=
  String.eqb s suffix ||
  match s with
  | EmptyString => false
  | String _ s' => endsWith s' suffix
  end.

(** White space in the sense of [\s] and of [trim()], restricted to code
    units below 256: TAB, LF, VT, FF, CR, SPACE and NBSP. *)
Definition isWhiteSpace (c : ascii) : bool :=
  let n := N_of_ascii c in
  (((9 <=? n) && (n <=? 13)) || (n =? 32) || (n =? 160))%N.

Fixpoint trimStart (s : string) : string :=
  match s with
  | EmptyString => EmptyString
  | String c s' => if isWhiteSpace c then trimStart s' else s
  end.

Fixpoint trimEnd (s : string) : string :=
  match s with
  | EmptyString => EmptyString
  | String c s' =>
      match trimEnd s' with
      | EmptyString => if isWhiteSpace c then EmptyString else String c EmptyString
      | t => String c t
      end
  end.

(** [s.trim()] *)
Definition trim (s : string) : string := trimEnd (trimStart s).

Definition lowerChar (c : ascii) : ascii :=
  let n := N_of_ascii c in
  if (((65 <=? n) && (n <=? 90))
      || ((192 <=? n) && (n <=? 222) && negb (n =? 215)))%N
  then ascii_of_N (n + 32) else c.

(** [s.toLowerCase()] *)
Fixpoint toLowerCase (s : string) : string :=
  match s with
  | EmptyString => EmptyString
  | String c s' => String (lowerChar c) (toLowerCase s')
  end.

Fixpoint skip (n : nat) (s : string) : string :=
  match n, s with
  | O, _ => s
  | S _, EmptyString => EmptyString
  | S n', String _ s' => skip n' s'
  end.

(** [String(n)] for an integer [n]. *)
Definition numberToString (n : Z) : string :=
  match n with
  | Z0 => "0"
  | Zpos p => NilEmpty.string_of_uint (Pos.to_uint p)
  | Zneg p => "-" ++ NilEmpty.string_of_uint (Pos.to_uint p)
  end.

(** A finite JavaScript [number] where the sources do not force it to be
    whole (the retry count): a whole number, or a number that is not
    whole, given by its floor (it lies strictly between [floor] and
    [floor + 1]) and by the text [String()] prints for it.  [NaN], under
    which the loop body never runs, and the infinities, under which the
    loop need not end, are not covered. *)
Inductive JsNumber : Type :=
| Whole (n : Z)
| Fractional (floor : Z) (text : string).

(** [x < n] for a whole [n]. *)
Definition lessThan (x : JsNumber) (n : Z) : bool :=
  match x with
  | Whole m => m <? n
  | Fractional floor _ => floor <? n
  end.

(** [attempt === x - 1] for a whole [attempt]. *)
Definition isOneBelow (attempt : Z) (x : JsNumber) : bool :=
  match x with
  | Whole n => attempt =? n - 1
  | Fractional _ _ => false
  end.

(** How often the body of [for (let i = 0; i < x; ++i)] runs. *)
Definition iterations (x : JsNumber) : nat :=
  match x with
  | Whole n => Z.to_nat n
  | Fractional floor _ => Z.to_nat (floor + 1)
  end.

(** [String(x)], as a template literal prints [x]. *)
Definition printNumber (x : JsNumber) : string :=
  match x with
  | Whole n => numberToString n
  | Fractional _ text => text
  end.

(* ================================================================== *)
(** ** [src/utils/index.ts] *)

Definition isClientError (statusCode : Z) : bool :=
  (400 <=? statusCode) && (statusCode <? 500).

Definition isServerError (statusCode : Z) : bool :=
  (500 <=? statusCode) && (statusCode <? 600).

(** A word character [\w]. *)
Definition isWordChar (c : ascii) : bool :=
  let n := N_of_ascii c in
  (((48 <=? n) && (n <=? 57)) || ((65 <=? n) && (n <=? 90))
   || ((97 <=? n) && (n <=? 122)) || (n =? 95))%N.

(** A word boundary [\b] right after a word character: the rest of the
    subject is empty or starts with a non-word character. *)
Definition boundaryAfterWord (rest : string) : bool :=
  match rest with
  | EmptyString => true
  | String c _ => negb (isWordChar c)
  end.

(** The literal [lit] (ending in a word character) followed by [\b]. *)
Definition literalThenBoundary (lit s : string) : bool :=
  String.prefix lit s && boundaryAfterWord (skip (String.length lit) s).

(** A character outside the class [[^\s;,]]. *)
Definition outsideMediaSubtype (c : ascii) : bool :=
  isWhiteSpace c || Ascii.eqb c ";" || Ascii.eqb c ",".

(** The tail of [([^\s;,]+\b)?html\b] once a non-empty run of the class has
    been consumed; [lastNonWord] tells whether the run so far ends in a
    non-word character, which is what [\b] in front of [html] requires. *)
Fixpoint htmlAfterRun (lastNonWord : bool) (s : string) : bool :=
  (lastNonWord && literalThenBoundary "html" s) ||
  match s with
  | EmptyString => false
  | String c s' =>
      if outsideMediaSubtype c then false
      else htmlAfterRun (negb (isWordChar c)) s'
  end.

(** [/^(?:text\/([^\s;,]+\b)?html|application\/xhtml\+xml)\b/] *)
Definition matchesHtmlMediaType (s : string) : bool :=
  (String.prefix "text/" s &&
   let r := skip 5 s in
   (literalThenBoundary "html" r ||
    match r with
    | EmptyString => false
    | String c r' =>
        if outsideMediaSubtype c then false
        else htmlAfterRun (negb (isWordChar c)) r'
    end))
  || literalThenBoundary "application/xhtml+xml" s.

Definition isHTMLResponse (contentTypeResponse : string) : bool :=
  negb (String.eqb contentTypeResponse "")
  && matchesHtmlMediaType contentTypeResponse.

Inductive MappedHttpStatus : Type :=
| success | info | warning | error | redirect.

Definition MappedHttpStatus_eqb (a b : MappedHttpStatus) : bool :=
  match a, b with
  | success, success | info, info | warning, warning
  | error, error | redirect, redirect => true
  | _, _ => false
  end.

Definition mapStatusToResponseType (statusCode : Z) : MappedHttpStatus :=
  if (200 <=? statusCode) && (statusCode <? 300) then success
  else if (100 <=? statusCode) && (statusCode <? 200) then info
  else if (300 <=? statusCode) && (statusCode <? 400) then redirect
  else error.

(* ================================================================== *)
(** ** Errors and promise completions *)

(** A native exception value: [error.name] and [error.message]. *)
Record JsError : Type := mkJsError {
  err_name : string;
  err_message : string
}.

(** A thrown value: a native error or the repository's [HttpFetchError]
    (message, url, [options.cause]); the options [attempt],
    [responseStatus] and [responseBody] are never passed by the sources. *)
#[warnings="-register-all"]
Inductive Thrown : Type :=
| Native (e : JsError)
| HttpFetchError (message : string) (url : string) (cause : option Thrown).

Definition thrownName (t : Thrown) : string :=
  match t with
  | Native e => err_name e
  | HttpFetchError _ _ _ => "HttpFetchError"
  end.

Definition thrownMessage (t : Thrown) : string :=
  match t with
  | Native e => err_message e
  | HttpFetchError m _ _ => m
  end.

(** How the promise returned by an [async] function ends. *)
Inductive Completion (A : Type) : Type :=
| Fulfilled (a : A)
| Rejected (t : Thrown)
| NeverSettles.
Arguments Fulfilled {A} a.
Arguments Rejected {A} t.
Arguments NeverSettles {A}.

(* ================================================================== *)
(** ** [src/core/FetchResponse.ts] *)

Inductive HttpResponseType : Type :=
| json | text | blob | arrayBuffer | formData | stream
| unsupportedType (name : string).

(** The body readers of a wire response. *)
Inductive BodyReader : Type :=
| ReadJson | ReadText | ReadBlob | ReadArrayBuffer | ReadFormData.

(** The wire [Response] of the fetch primitive.  [readBody] gives what
    [response.json()], [response.text()], ... settle with: the decoded
    payload, or the exception the reader rejects with (a [SyntaxError]
    for a body that is not JSON).  [headers] is keyed by lower-case
    header name. *)
Record Response : Type := mkResponse {
  status : Z;
  statusText : string;
  redirected : bool;
  headers : list (string * string);
  rawBody : string;
  readBody : BodyReader -> JsError + string
}.

(** [response.headers.get(name)] *)
Fixpoint headersGet (hs : list (string * string)) (name : string)
  : option string :=
  match hs with
  | [] => None
  | (k, v) :: hs' =>
      if String.eqb k (toLowerCase name) then Some v else headersGet hs' name
  end.

(** The parsed body carried by a wrapper. *)
Inductive FetchBodyData : Type :=
| JsonData (v : string)
| TextData (v : string)
| BlobData (v : string)
| ArrayBufferData (v : string)
| FormDataData (v : string)
| StreamData (v : string).

(** [HttpResponse] (with its base classes [FetchResponse] and
    [MapStatusToResponseType]): the wire response and the parsed data.
    The constructors store the wire response twice, as [response] of the
    base class and as [_response]; [setOriginalResponse], which alone
    could make the two differ, is called nowhere in the sources and is
    left out, so that one field stands for both. *)
Record HttpResponse : Type := mkHttpResponse {
  originalResponse : Response;
  data : FetchBodyData
}.

Definition statusCode (r : HttpResponse) : Z := status (originalResponse r).

Definition serverInfo (r : HttpResponse) : bool := statusCode r <? 200.

Definition succeeded (r : HttpResponse) : bool :=
  (200 <=? statusCode r) && (statusCode r <=? 299).

Definition clientError (r : HttpResponse) : bool :=
  isClientError (statusCode r).

Definition serverError (r : HttpResponse) : bool :=
  isServerError (statusCode r).

Definition wasRedirected (r : HttpResponse) : bool :=
  redirected (originalResponse r).

Definition failed (r : HttpResponse) : bool :=
  negb (succeeded r) && negb (wasRedirected r) && negb (serverInfo r).

(** The [status] getter of [FetchResponse]. *)
Definition wrapperStatus (r : HttpResponse) : Z := statusCode r.

Definition contentType (r : HttpResponse) : string :=
  match headersGet (headers (originalResponse r)) "Content-Type" with
  | Some v => v
  | None => ""
  end.

Definition isHTML (r : HttpResponse) : bool := isHTMLResponse (contentType r).

Definition setData (d : FetchBodyData) (r : HttpResponse) : HttpResponse :=
  {| originalResponse := originalResponse r; data := d |}.

(** An awaited body reader wrapped into an [HttpResponse]; a rejected
    reader makes the enclosing [async] function reject. *)
Definition readInto (response : Response) (reader : BodyReader)
  (wrap : string -> FetchBodyData) : Thrown + HttpResponse :=
  match readBody response reader with
  | inl e => inl (Native e)
  | inr v => inr (mkHttpResponse response (wrap v))
  end.

Definition responseTypeHandle (responseType : HttpResponseType)
  (response : Response) : Thrown + HttpResponse :=
  match responseType with
  | json => readInto response ReadJson JsonData
  | text => readInto response ReadText TextData
  | blob => readInto response ReadBlob BlobData
  | arrayBuffer => readInto response ReadArrayBuffer ArrayBufferData
  | formData => readInto response ReadFormData FormDataData
  | stream => inr (mkHttpResponse response (StreamData (rawBody response)))
  | unsupportedType _ =>
      inr (mkHttpResponse response (TextData (statusText response)))
  end.

Definition jsonContentTypes : list string :=
  ["application/json"; "application/ld+json";
   "application/problem+json"; "application/vnd.api+json"].

Definition parseHttpErrorResponse (response : Response)
  : Thrown + HttpResponse :=
  if (status response =? 204)
     || match headersGet (headers response) "content-length" with
        | Some v => String.eqb v "0"
        | None => false
        end
  then inr (mkHttpResponse response (TextData ""))
  else
    let contentType :=
      toLowerCase (trim (match headersGet (headers response) "content-type" with
                         | Some v => v
                         | None => ""
                         end)) in
    if existsb (fun type => startsWith contentType type) jsonContentTypes
       || includes contentType "json"
       || endsWith contentType "+json"
    then responseTypeHandle json response
    else if isHTMLResponse contentType
    then responseTypeHandle text response
    else if startsWith contentType "application/xml"
            || startsWith contentType "text/xml"
            || includes contentType "xml"
    then responseTypeHandle text response
    else inr (mkHttpResponse response (TextData (statusText response))).

(* ================================================================== *)
(** ** [safeFetch]: request options and the fetch primitive *)

(** An [AbortSignal] that can reach the fetch primitive: the signal of the
    caller's controller (the shared cancellation token), or the signal of
    the controller [safeFetch] creates for one attempt. *)
Inductive Signal : Type :=
| SharedToken
| AttemptController (attempt : Z).

(** The [data] option when it is truthy: a [FormData] instance, or a value
    given by its [JSON.stringify] text.  [None] in the options stands for
    an absent or falsy [data].  A value [JSON.stringify] throws on (a
    cycle, a [BigInt]) is not covered: [safeFetch] serialises ahead of the
    loop and outside its [try], so it would throw before any call. *)
Inductive RequestData : Type :=
| FormDataBody (payload : string)
| JsonBody (serialized : string).

(** A [HeadersInit]: a plain object, a [Headers] instance, or an array of
    name/value pairs. *)
Inductive HeadersInit : Type :=
| PlainObject (entries : list (string * string))
| HeadersInstance (entries : list (string * string))
| PairArray (pairs : list (string * string)).

(** The elements of an array as own properties: index and element, a
    pair printing as its two strings joined by a comma. *)
Fixpoint indexed (from : Z) (pairs : list (string * string))
  : list (string * string) :=
  match pairs with
  | [] => []
  | (name, value) :: pairs' =>
      (numberToString from, name ++ "," ++ value) :: indexed (from + 1) pairs'
  end.

(** [{ ...headers }]: the own enumerable properties.  A plain object
    gives its entries, a [Headers] instance has none, an array gives its
    elements under their indices. *)
Definition ownProperties (headers : HeadersInit) : list (string * string) :=
  match headers with
  | PlainObject entries => entries
  | HeadersInstance _ => []
  | PairArray pairs => indexed 0 pairs
  end.

(** [FetchRequestOptions] (it extends [RequestInit]); an absent key is
    [None].  Of the keys of [RequestInit] those that [safeFetch] reads or
    sets are kept; the others, a [body] given as such among them, pass
    through to [fetch] untouched and are left out. *)
Record FetchRequestOptions : Type := mkOptions {
  o_url : string;
  o_methodSend : option string;
  o_data : option RequestData;
  o_headers : option HeadersInit;
  o_timeout : option Z;
  o_retryCount : option JsNumber;
  o_responseType : option HttpResponseType;
  o_retryOnStatusCode : option bool;
  o_keepalive : option bool;
  o_signal : option Signal
}.

(** The [RequestInit] handed to [fetch]. *)
Record RequestInit : Type := mkRequestInit {
  p_method : string;
  p_headers : list (string * string);
  p_keepalive : bool;
  p_body : option string;
  p_signal : option Signal
}.

Definition withSignal (s : Signal) (p : RequestInit) : RequestInit :=
  {| p_method := p_method p; p_headers := p_headers p;
     p_keepalive := p_keepalive p; p_body := p_body p;
     p_signal := Some s |}.

(** What the network does with one call of [fetch], as far as the caller
    can tell: the server answers, the transport fails, or nothing comes
    back for as long as the caller is willing to wait. *)
Inductive NetworkScript : Type :=
| ServerReplies (r : Response)
| TransportFails (e : JsError)
| ServerSilent.

(** What happens around one attempt: whether the owner of the shared token
    aborts it while the call is in flight (before the network has
    answered) and whether it does so during the back-off sleep that
    follows the attempt. *)
Record AttemptScript : Type := mkAttemptScript {
  cancelWhileInFlight : bool;
  network : NetworkScript;
  cancelWhileBackingOff : bool
}.

Definition Scenario : Type := Z -> AttemptScript.

(** What the engine does to the outside world, in order. *)
Inductive Effect : Type :=
| TimerSet (attempt ms : Z)
| TimerCleared (attempt : Z)
| FetchCalled (attempt : Z) (url : string) (init : RequestInit)
| Exchanged (attempt : Z)
| Slept (ms : Z).

Definition abortError : JsError :=
  mkJsError "AbortError" "This operation was aborted".

Definition defaultHeaders : list (string * string) :=
  [("Accept", "application/json");
   ("Content-Type", "application/json");
   ("X-Requested-With", "XMLHttpRequest")].

Fixpoint deleteKey (k : string) (hs : list (string * string))
  : list (string * string) :=
  match hs with
  | [] => []
  | (k', v) :: hs' =>
      if String.eqb k' k then deleteKey k hs' else (k', v) :: deleteKey k hs'
  end.

Definition orDefault {A : Type} (o : option A) (d : A) : A :=
  match o with Some a => a | None => d end.

Definition isFormData (d : option RequestData) : bool :=
  match d with Some (FormDataBody _) => true | _ => false end.

Definition countFetchCalls (l : list Effect) : nat :=
  List.length (filter (fun e => match e with FetchCalled _ _ _ => true | _ => false end) l).

Definition countExchanges (l : list Effect) : nat :=
  List.length (filter (fun e => match e with Exchanged _ => true | _ => false end) l).

Definition countTimers (l : list Effect) : nat :=
  List.length (filter (fun e => match e with TimerSet _ _ => true | _ => false end) l).

Section Engine.

(** The state that owns the shared cancellation token: [aborted] reads
    [signal.aborted], [abort] is what the owner does when it cancels. *)
Variable Owner : Type.
Variable aborted : Owner -> bool.
Variable abort : Owner -> Owner.

Definition settle (n : NetworkScript) (deadline : bool)
  : Completion Response :=
  match n with
  | ServerReplies r => Fulfilled r
  | TransportFails e => Rejected (Native e)
  | ServerSilent =>
      if deadline then Rejected (Native abortError) else NeverSettles
  end.

Definition duringFlight (sc : AttemptScript) (st : Owner) : Owner :=
  if cancelWhileInFlight sc then abort st else st.

(** The [fetch] primitive, for signals aborted without a reason, as
    [cancel()] and the deadline timer abort them: the rejection then is
    the [AbortError].  With an already aborted signal it rejects before
    anything is sent.  Otherwise the request goes on the wire; the call
    is aborted when, and only when, the signal it was given aborts: the
    shared token on a cancellation, the attempt's own controller when its
    deadline timer fires. *)
Definition fetchPrimitive (sig : option Signal) (sc : AttemptScript)
  (st : Owner) : Owner * bool * Completion Response :=
  match sig with
  | Some SharedToken =>
      if aborted st then (st, false, Rejected (Native abortError))
      else if cancelWhileInFlight sc
      then (abort st, true, Rejected (Native abortError))
      else (st, true, settle (network sc) false)
  | Some (AttemptController _) =>
      (duringFlight sc st, true, settle (network sc) true)
  | None => (duringFlight sc st, true, settle (network sc) false)
  end.

(** One pass through the body of the retry loop either settles the
    promise of [safeFetch] or goes on to the next attempt. *)
Inductive LoopStep : Type :=
| Settle (c : Completion HttpResponse)
| NextAttempt.

Record EngineState : Type := mkEngineState {
  owner : Owner;
  effects : list Effect
}.

Definition emit (e : Effect) (s : EngineState) : EngineState :=
  {| owner := owner s; effects := effects s ++ [e] |}.

(** [await new Promise(resolve => setTimeout(resolve, ms))] *)
Definition sleep (ms : Z) (sc : AttemptScript) (s : EngineState)
  : EngineState :=
  {| owner := if cancelWhileBackingOff sc then abort (owner s) else owner s;
     effects := effects s ++ [Slept ms] |}.

(** [if (timeoutId) clearTimeout(timeoutId)] *)
Definition clearTimer (armed : bool) (attempt : Z) (s : EngineState)
  : EngineState :=
  if armed then emit (TimerCleared attempt) s else s.

Section Loop.

Variable url : string.
Variable timeout : Z.
Variable retryCount : JsNumber.
Variable responseType : HttpResponseType.
Variable retryOnStatusCode : bool.
Variable keepalive : bool.
Variable scenario : Scenario.

(** The [catch (error)] block of one attempt. *)
Definition catchBlock (armed : bool) (attempt : Z) (err : Thrown)
  (s : EngineState) : EngineState * LoopStep :=
  let s := clearTimer armed attempt s in
  let isLastAttempt := isOneBelow attempt retryCount in
  if String.eqb (thrownName err) "AbortError" then
    if isLastAttempt then
      (s, Settle (Rejected (HttpFetchError
         "Request timed out because the server did not respond within the specified time."
         url (Some err))))
    else (s, NextAttempt)
  else if includes (thrownMessage err) "NetworkError"
          || includes (thrownMessage err) "Failed to fetch" then
    if isLastAttempt then
      (s, Settle (Rejected (HttpFetchError
         ("Network error after " ++ printNumber retryCount
          ++ " attempts: " ++ thrownMessage err)
         url (Some err))))
    else (sleep (1000 * (attempt + 1)) (scenario attempt) s, NextAttempt)
  else
    if isLastAttempt then
      (s, Settle (Rejected (HttpFetchError
         ("Unexpected error after " ++ printNumber retryCount
          ++ " attempts: " ++ thrownMessage err)
         url (Some err))))
    else (sleep (500 * (attempt + 1)) (scenario attempt) s, NextAttempt).

(** A [return await parse(response)] inside the [try]: a parser that
    rejects lands in the [catch] block of the same attempt. *)
Definition returnAwait (armed : bool) (attempt : Z)
  (parsed : Thrown + HttpResponse) (s : EngineState)
  : EngineState * LoopStep :=
  match parsed with
  | inr wrapper => (s, Settle (Fulfilled wrapper))
  | inl err => catchBlock armed attempt err s
  end.

(** The body of [for (let attempt = 0; attempt < retryCount; ++attempt)]. *)
Definition attemptBody (attempt : Z) (fetchParams : RequestInit)
  (s : EngineState) : EngineState * RequestInit * LoopStep :=
  let armed := negb keepalive && (0 <? timeout) in
  let s := if armed then emit (TimerSet attempt timeout) s else s in
  let fetchParams :=
    if armed then withSignal (AttemptController attempt) fetchParams
    else fetchParams in
  let s := emit (FetchCalled attempt url fetchParams) s in
  let '(o, sent, outcome) :=
    fetchPrimitive (p_signal fetchParams) (scenario attempt) (owner s) in
  let s := {| owner := o; effects := effects s |} in
  let s := if sent then emit (Exchanged attempt) s else s in
  match outcome with
  | NeverSettles => (s, fetchParams, Settle NeverSettles)
  | Rejected err =>
      let '(s, step) := catchBlock armed attempt err s in
      (s, fetchParams, step)
  | Fulfilled response =>
      let s := clearTimer armed attempt s in
      let statusCode := status response in
      let isErrror :=
        MappedHttpStatus_eqb (mapStatusToResponseType statusCode) error in
      if isErrror then
        if isClientError statusCode
           || (isServerError statusCode && negb retryOnStatusCode)
           || isOneBelow attempt retryCount
        then
          let '(s, step) :=
            returnAwait armed attempt (parseHttpErrorResponse response) s in
          (s, fetchParams, step)
        else
          (sleep (500 * (attempt + 1)) (scenario attempt) s,
           fetchParams, NextAttempt)
      else
        let '(s, step) :=
          returnAwait armed attempt
            (responseTypeHandle responseType response) s in
        (s, fetchParams, step)
  end.

(** The retry loop.  [remaining] is the number of iterations the loop
    header [attempt < retryCount] still allows; when it is used up the
    code after the loop runs. *)
Fixpoint retryLoop (remaining : nat) (attempt : Z)
  (fetchParams : RequestInit) (s : EngineState)
  : EngineState * Completion HttpResponse :=
  match remaining with
  | O =>
      (s, Rejected (HttpFetchError
            "Unexpected fallthrough in httpFetchHandler" url None))
  | S remaining' =>
      match attemptBody attempt fetchParams s with
      | (s', _, Settle c) => (s', c)
      | (s', fetchParams', NextAttempt) =>
          retryLoop remaining' (attempt + 1) fetchParams' s'
      end
  end.

End Loop.

Definition safeFetch (fetchRequestOptions : FetchRequestOptions)
  (scenario : Scenario) (o : Owner)
  : EngineState * Completion HttpResponse :=
  let url := o_url fetchRequestOptions in
  let methodSend := orDefault (o_methodSend fetchRequestOptions) "GET" in
  let data := o_data fetchRequestOptions in
  let headers :=
    orDefault (o_headers fetchRequestOptions) (PlainObject defaultHeaders) in
  let timeout := orDefault (o_timeout fetchRequestOptions) 45000 in
  let retryCount := orDefault (o_retryCount fetchRequestOptions) (Whole 3) in
  let responseType := orDefault (o_responseType fetchRequestOptions) json in
  let retryOnStatusCode :=
    orDefault (o_retryOnStatusCode fetchRequestOptions) false in
  let keepalive := orDefault (o_keepalive fetchRequestOptions) false in
  let headers_request :=
    if isFormData data then deleteKey "Content-Type" (ownProperties headers)
    else ownProperties headers in
  let '(retryCount, timeout) :=
    if keepalive then (Whole 1, 0)
    else if lessThan retryCount 2
            && match o_retryCount fetchRequestOptions with
               | Some _ => true
               | None => false
               end
    then (Whole 3, timeout)
    else (retryCount, timeout) in
  let body :=
    match data with
    | Some d =>
        if existsb (String.eqb methodSend) ["POST"; "PUT"; "PATCH"] then
          Some (match d with
                | FormDataBody payload => payload
                | JsonBody serialized => serialized
                end)
        else None
    | None => None
    end in
  let fetchParams :=
    {| p_method := methodSend; p_headers := headers_request;
       p_keepalive := keepalive; p_body := body;
       p_signal := o_signal fetchRequestOptions |} in
  retryLoop url timeout retryCount responseType retryOnStatusCode keepalive
    scenario (iterations retryCount) 0 fetchParams
    {| owner := o; effects := [] |}.

End Engine.

Arguments owner {Owner} _.
Arguments effects {Owner} _.
Arguments mkEngineState {Owner} _ _.
Arguments emit {Owner} _ _.
Arguments clearTimer {Owner} _ _ _.

(* ================================================================== *)
(** ** [src/events/index.ts] *)

Definition REQUEST : string := "http_client.request".
Definition BEFORE_SEND : string := "http_client.before_send".
Definition RESPONSE : string := "http_client.response".
Definition ERROR : string := "http_client.error".
Definition TERMINATE : string := "http_client.terminate".

(** [HttpEvent]: the flags every event class inherits, around the fields
    [P] of the concrete class.  [ev_id] is the identity of the object: two
    [new] expressions never yield the same one.  The read-only
    [requestType], [eventTarget] and [customOptions] are left out. *)
Record Event (P : Type) : Type := mkEvent {
  ev_id : nat;
  ev_payload : P;
  ev_defaultPrevented : bool;
  ev_propagationStopped : bool
}.
Arguments mkEvent {P} _ _ _ _.
Arguments ev_id {P} _.
Arguments ev_payload {P} _.
Arguments ev_defaultPrevented {P} _.
Arguments ev_propagationStopped {P} _.

Definition withPayload {P : Type} (p : P) (e : Event P) : Event P :=
  mkEvent (ev_id e) p (ev_defaultPrevented e) (ev_propagationStopped e).

Definition markDefaultPrevented {P : Type} (e : Event P) : Event P :=
  mkEvent (ev_id e) (ev_payload e) true (ev_propagationStopped e).

Definition markPropagationStopped {P : Type} (e : Event P) : Event P :=
  mkEvent (ev_id e) (ev_payload e) (ev_defaultPrevented e) true.

Definition isDefaultPrevented {P : Type} (e : Event P) : bool :=
  ev_defaultPrevented e.

(** [FetchRequestEvent] (over [RequestEvent]). *)
Record RequestFields : Type := mkRequestFields {
  rq_response : option HttpResponse;
  rq_url : string;
  rq_fetchOptions : FetchRequestOptions
}.

(** [FetchRequestErrorEvent] (over [RequestEvent]). *)
Record ErrorFields : Type := mkErrorFields {
  er_response : option HttpResponse;
  er_error : Thrown;
  er_recovered : bool
}.

(** [TerminateEvent]. *)
Record TerminateFields : Type := mkTerminateFields {
  tm_response : option HttpResponse;
  tm_error : option Thrown
}.

Definition FetchRequestEvent : Type := Event RequestFields.
Definition FetchRequestErrorEvent : Type := Event ErrorFields.
Definition FetchResponseEvent : Type := Event HttpResponse.
Definition TerminateEvent : Type := Event TerminateFields.

(** An event of any class, as the dispatcher sees it. *)
Inductive AnyEvent : Type :=
| OfRequest (e : FetchRequestEvent)
| OfError (e : FetchRequestErrorEvent)
| OfResponse (e : FetchResponseEvent)
| OfTerminate (e : TerminateEvent).

Definition anyEventId (e : AnyEvent) : nat :=
  match e with
  | OfRequest e => ev_id e
  | OfError e => ev_id e
  | OfResponse e => ev_id e
  | OfTerminate e => ev_id e
  end.

(** The state of the promise behind [_resolveRequestPromise] and
    [_rejectRequestPromise]. *)
Inductive PromiseState : Type :=
| Pending
| ResolvedWith
| RejectedWith (reason : Thrown).

(** The mutable fields of a [FetchRequest].  [_abortController] holds
    [signal.aborted] of the controller made by the constructor;
    [_requestPromise] is [None] as long as the two settle handles are the
    initial empty functions. *)
Record FetchRequest : Type := mkFetchRequest {
  _abortController : option bool;
  _isCancelled : bool;
  _requestPromise : option PromiseState;
  _input : string;
  _fetchRequestOptions : FetchRequestOptions
}.

(** The constructor. *)
Definition newFetchRequest (options : FetchRequestOptions) : FetchRequest :=
  {| _abortController := Some false;
     _isCancelled := false;
     _requestPromise := None;
     _input := o_url options;
     _fetchRequestOptions := options |}.

Definition settlePromise (p : PromiseState) (r : FetchRequest) : FetchRequest :=
  {| _abortController := _abortController r;
     _isCancelled := _isCancelled r;
     _requestPromise :=
       match _requestPromise r with
       | Some Pending => Some p
       | other => other
       end;
     _input := _input r;
     _fetchRequestOptions := _fetchRequestOptions r |}.

(** [_resolveRequestPromise(value)] and [_rejectRequestPromise(reason)]:
    they settle the promise if it is still pending. *)
Definition _resolveRequestPromise (r : FetchRequest) : FetchRequest :=
  settlePromise ResolvedWith r.

Definition _rejectRequestPromise (reason : Thrown) (r : FetchRequest)
  : FetchRequest :=
  settlePromise (RejectedWith reason) r.

(** [FetchRequest.cancel] *)
Definition cancel (r : FetchRequest) : FetchRequest :=
  match _isCancelled r, _abortController r with
  | false, Some _ =>
      _rejectRequestPromise
        (HttpFetchError "Request was cancelled by user" (_input r) None)
        {| _abortController := Some true;
           _isCancelled := true;
           _requestPromise := _requestPromise r;
           _input := _input r;
           _fetchRequestOptions := _fetchRequestOptions r |}
  | _, _ => r
  end.

(** [FetchRequest.isCancelled] *)
Definition isCancelled (r : FetchRequest) : bool := _isCancelled r.

(** [signal.aborted] of the request's controller. *)
Definition tokenTripped (r : FetchRequest) : bool :=
  match _abortController r with
  | Some a => a
  | None => false
  end.

(** The methods the event classes add to [HttpEvent]. *)
Inductive RequestMethod : Type :=
| Request_setResponse (response : option HttpResponse)
| Request_setUrl (url : string)
| Request_setFetchOptions (options : FetchRequestOptions)
| Request_resolve
| Request_reject (reason : Thrown).

Inductive ErrorMethod : Type :=
| Error_setResponse (response : option HttpResponse)
| Error_setError (err : Thrown).

Inductive ResponseMethod : Type :=
| Response_setResponse (response : HttpResponse).

Inductive TerminateMethod : Type := .

(** [RequestEvent.setResponse] *)
Definition requestSetResponse (response : option HttpResponse)
  (e : FetchRequestEvent) : FetchRequestEvent :=
  let e := withPayload
             (mkRequestFields response (rq_url (ev_payload e))
                (rq_fetchOptions (ev_payload e))) e in
  match response with
  | Some _ => markPropagationStopped e
  | None => e
  end.

Definition invokeRequestMethod (m : RequestMethod) (e : FetchRequestEvent)
  (r : FetchRequest) : FetchRequestEvent * FetchRequest :=
  match m with
  | Request_setResponse response => (requestSetResponse response e, r)
  | Request_setUrl url =>
      (withPayload (mkRequestFields (rq_response (ev_payload e)) url
                      (rq_fetchOptions (ev_payload e))) e, r)
  | Request_setFetchOptions options =>
      (withPayload (mkRequestFields (rq_response (ev_payload e))
                      (rq_url (ev_payload e)) options) e, r)
  | Request_resolve => (markPropagationStopped e, _resolveRequestPromise r)
  | Request_reject reason =>
      (markPropagationStopped e, _rejectRequestPromise reason r)
  end.

(** [FetchRequestErrorEvent.setResponse] overrides the inherited one. *)
Definition errorSetResponse (response : option HttpResponse)
  (e : FetchRequestErrorEvent) : FetchRequestErrorEvent :=
  let recovered :=
    match response with
    | Some _ => true
    | None => er_recovered (ev_payload e)
    end in
  let e := withPayload
             (mkErrorFields response (er_error (ev_payload e)) recovered) e in
  match response with
  | Some _ => markPropagationStopped e
  | None => e
  end.

Definition invokeErrorMethod (m : ErrorMethod) (e : FetchRequestErrorEvent)
  (r : FetchRequest) : FetchRequestErrorEvent * FetchRequest :=
  match m with
  | Error_setResponse response => (errorSetResponse response e, r)
  | Error_setError err =>
      (withPayload (mkErrorFields (er_response (ev_payload e)) err
                      (er_recovered (ev_payload e))) e, r)
  end.

Definition invokeResponseMethod (m : ResponseMethod) (e : FetchResponseEvent)
  (r : FetchRequest) : FetchResponseEvent * FetchRequest :=
  match m with
  | Response_setResponse response => (withPayload response e, r)
  end.

Definition invokeTerminateMethod (m : TerminateMethod) (e : TerminateEvent)
  (r : FetchRequest) : TerminateEvent * FetchRequest :=
  match m with end.

(** An event class: the fields [P], the methods [M] of the class, what a
    method call does, and the view the dispatcher has of the event. *)
Class EventClass (P M : Type) : Type := {
  invoke : M -> Event P -> FetchRequest -> Event P * FetchRequest;
  erase : Event P -> AnyEvent
}.

#[export] Instance RequestEventClass : EventClass RequestFields RequestMethod :=
  {| invoke := invokeRequestMethod; erase := OfRequest |}.
#[export] Instance ErrorEventClass : EventClass ErrorFields ErrorMethod :=
  {| invoke := invokeErrorMethod; erase := OfError |}.
#[export] Instance ResponseEventClass : EventClass HttpResponse ResponseMethod :=
  {| invoke := invokeResponseMethod; erase := OfResponse |}.
#[export] Instance TerminateEventClass
  : EventClass TerminateFields TerminateMethod :=
  {| invoke := invokeTerminateMethod; erase := OfTerminate |}.

Definition hasResponse (e : FetchRequestEvent) : bool :=
  match rq_response (ev_payload e) with Some _ => true | None => false end.

Definition errorHasResponse (e : FetchRequestErrorEvent) : bool :=
  match er_response (ev_payload e) with Some _ => true | None => false end.

Definition isRecovered (e : FetchRequestErrorEvent) : bool :=
  er_recovered (ev_payload e).

(* ================================================================== *)
(** ** The collaborators of a [FetchRequest]: event bus and delegate *)

(** What a listener does, in order, when it is called with an event: it
    calls methods of the event, it may call [cancel()] on the request the
    event carries, and it may throw. *)
Inductive Action (M : Type) : Type :=
| preventDefault
| stopPropagation
| cancelRequest
| throw (t : Thrown)
| call (m : M).
Arguments preventDefault {M}.
Arguments stopPropagation {M}.
Arguments cancelRequest {M}.
Arguments throw {M} t.
Arguments call {M} m.

(** A listener sees the event (its identity included) and the request. *)
Definition Listener (P M : Type) : Type :=
  Event P -> FetchRequest -> list (Action M).

Fixpoint runActions {P M : Type} `{EventClass P M} (acts : list (Action M))
  (e : Event P) (r : FetchRequest) : Event P * FetchRequest * option Thrown :=
  match acts with
  | [] => (e, r, None)
  | a :: acts' =>
      match a with
      | preventDefault => runActions acts' (markDefaultPrevented e) r
      | stopPropagation => runActions acts' (markPropagationStopped e) r
      | cancelRequest => runActions acts' e (cancel r)
      | throw t => (e, r, Some t)
      | call m => let '(e', r') := invoke m e r in runActions acts' e' r'
      end
  end.

(** The listeners of one event name, highest priority first: each is
    called with the event; an exception propagates to the caller of
    [dispatch]; a stopped event skips the listeners that remain. *)
Fixpoint runListeners {P M : Type} `{EventClass P M}
  (ls : list (Listener P M)) (e : Event P) (r : FetchRequest)
  : Event P * FetchRequest * option Thrown :=
  match ls with
  | [] => (e, r, None)
  | l :: ls' =>
      match runActions (l e r) e r with
      | (e', r', Some t) => (e', r', Some t)
      | (e', r', None) =>
          if ev_propagationStopped e' then (e', r', None)
          else runListeners ls' e' r'
      end
  end.

(** The notifications a [FetchDelegateInterface] receives. *)
Inductive DelegateCall : Type :=
| prepareRequest
| requestStarted
| requestSucceededWithResponse (response : HttpResponse)
| requestPreventedHandlingResponse (response : HttpResponse)
| requestFailedWithResponse (response : HttpResponse)
| requestErrored (err : Thrown)
| requestFinished.

(** A request together with what its collaborators have recorded: the
    events handed to [eventDispatcher.dispatch] with their names (as
    constructed, before any listener ran), the delegate notifications, the
    effects of the engine, and the next fresh object identity. *)
Record World : Type := mkWorld {
  request : FetchRequest;
  dispatchedEvents : list (string * AnyEvent);
  delegateCalls : list DelegateCall;
  engineEffects : list Effect;
  nextEventId : nat
}.

Definition initialWorld (r : FetchRequest) : World :=
  {| request := r; dispatchedEvents := []; delegateCalls := [];
     engineEffects := []; nextEventId := O |}.

Definition withRequest (r : FetchRequest) (w : World) : World :=
  {| request := r; dispatchedEvents := dispatchedEvents w;
     delegateCalls := delegateCalls w; engineEffects := engineEffects w;
     nextEventId := nextEventId w |}.

Definition notify (c : DelegateCall) (w : World) : World :=
  {| request := request w; dispatchedEvents := dispatchedEvents w;
     delegateCalls := delegateCalls w ++ [c];
     engineEffects := engineEffects w; nextEventId := nextEventId w |}.

(** [new SomeEvent(...)]: a fresh object with both flags down. *)
Definition newEvent {P : Type} (p : P) (w : World) : Event P * World :=
  (mkEvent (nextEventId w) p false false,
   {| request := request w; dispatchedEvents := dispatchedEvents w;
      delegateCalls := delegateCalls w; engineEffects := engineEffects w;
      nextEventId := S (nextEventId w) |}).

(** [eventDispatcher.dispatch(event, eventName)].  The dispatcher is the
    package [@wlindabla/event_dispatcher]; this is its contract as the
    orchestrator uses it (and as [tests/mocks/MockEventDispatcher.ts]
    implements it): it runs the listeners of [eventName] synchronously and
    returns the event they mutated. *)
Definition dispatch {P M : Type} `{EventClass P M} (ls : list (Listener P M))
  (eventName : string) (e : Event P) (w : World) : World * (Thrown + Event P) :=
  let w := {| request := request w;
              dispatchedEvents := dispatchedEvents w ++ [(eventName, erase e)];
              delegateCalls := delegateCalls w;
              engineEffects := engineEffects w;
              nextEventId := nextEventId w |} in
  match runListeners ls e (request w) with
  | (_, r', Some t) => (withRequest r' w, inl t)
  | (e', r', None) => (withRequest r' w, inr e')
  end.

(** How a pending interception promise is settled from outside once
    [handle] waits for it: by nobody, by a deferred [event.resolve()] or
    [event.reject(reason)], or by the user calling [cancel()]. *)
Inductive LaterSettlement : Type :=
| NobodySettles
| ResolvedLater
| RejectedLater (reason : Thrown)
| CancelledLater.

(** Everything around one [handle()] call that the request does not
    control: the registered listeners, the network and the user. *)
Record Environment : Type := mkEnvironment {
  onRequest : list (Listener RequestFields RequestMethod);
  onBeforeSend : list (Listener RequestFields RequestMethod);
  onResponse : list (Listener HttpResponse ResponseMethod);
  onError : list (Listener ErrorFields ErrorMethod);
  onTerminate : list (Listener TerminateFields TerminateMethod);
  interception : LaterSettlement;
  scenario : Scenario
}.

Definition countDispatched (eventName : string)
  (l : list (string * AnyEvent)) : nat :=
  List.length (filter (fun d => String.eqb (fst d) eventName) l).

Definition idsDispatched (eventName : string)
  (l : list (string * AnyEvent)) : list nat :=
  map (fun d => anyEventId (snd d))
      (filter (fun d => String.eqb (fst d) eventName) l).

(* ================================================================== *)
(** ** The class [FetchRequest] *)

Definition orElse {A : Type} (b a : option A) : option A :=
  match b with Some _ => b | None => a end.

(** [{ ...a, ...b }] on request options. *)
Definition spreadOptions (a b : FetchRequestOptions) : FetchRequestOptions :=
  {| o_url := o_url b;
     o_methodSend := orElse (o_methodSend b) (o_methodSend a);
     o_data := orElse (o_data b) (o_data a);
     o_headers := orElse (o_headers b) (o_headers a);
     o_timeout := orElse (o_timeout b) (o_timeout a);
     o_retryCount := orElse (o_retryCount b) (o_retryCount a);
     o_responseType := orElse (o_responseType b) (o_responseType a);
     o_retryOnStatusCode :=
       orElse (o_retryOnStatusCode b) (o_retryOnStatusCode a);
     o_keepalive := orElse (o_keepalive b) (o_keepalive a);
     o_signal := orElse (o_signal b) (o_signal a) |}.

Definition setInput (u : string) (r : FetchRequest) : FetchRequest :=
  {| _abortController := _abortController r; _isCancelled := _isCancelled r;
     _requestPromise := _requestPromise r; _input := u;
     _fetchRequestOptions := _fetchRequestOptions r |}.

Definition setOptions (o : FetchRequestOptions) (r : FetchRequest)
  : FetchRequest :=
  {| _abortController := _abortController r; _isCancelled := _isCancelled r;
     _requestPromise := _requestPromise r; _input := _input r;
     _fetchRequestOptions := o |}.

Definition setSignal (s : Signal) (o : FetchRequestOptions)
  : FetchRequestOptions :=
  {| o_url := o_url o; o_methodSend := o_methodSend o; o_data := o_data o;
     o_headers := o_headers o; o_timeout := o_timeout o;
     o_retryCount := o_retryCount o; o_responseType := o_responseType o;
     o_retryOnStatusCode := o_retryOnStatusCode o;
     o_keepalive := o_keepalive o; o_signal := Some s |}.

(** [new Promise((resolve, reject) => { ... })] in [dispatchRequestEvent]. *)
Definition newRequestPromise (r : FetchRequest) : FetchRequest :=
  {| _abortController := _abortController r; _isCancelled := _isCancelled r;
     _requestPromise := Some Pending; _input := _input r;
     _fetchRequestOptions := _fetchRequestOptions r |}.

(** [await requestInterception] *)
Definition awaitInterception (env : Environment) (w : World)
  : World * Completion unit :=
  match _requestPromise (request w) with
  | Some ResolvedWith => (w, Fulfilled tt)
  | Some (RejectedWith reason) => (w, Rejected reason)
  | Some Pending | None =>
      match interception env with
      | NobodySettles => (w, NeverSettles)
      | ResolvedLater =>
          (withRequest (_resolveRequestPromise (request w)) w, Fulfilled tt)
      | RejectedLater reason =>
          (withRequest (_rejectRequestPromise reason (request w)) w,
           Rejected reason)
      | CancelledLater =>
          let w := withRequest (cancel (request w)) w in
          match _requestPromise (request w) with
          | Some (RejectedWith reason) => (w, Rejected reason)
          | _ => (w, NeverSettles)
          end
      end
  end.

(** Phase 1: REQUEST *)
Definition dispatchRequestEvent (env : Environment) (w : World)
  : World * Completion FetchRequestEvent :=
  let w := withRequest (newRequestPromise (request w)) w in
  let '(event, w) :=
    newEvent (mkRequestFields None (_input (request w))
                (_fetchRequestOptions (request w))) w in
  match dispatch (onRequest env) REQUEST event w with
  | (w, inl t) => (w, Rejected t)
  | (w, inr event) =>
      let w := withRequest (setInput (rq_url (ev_payload event)) (request w)) w in
      if isDefaultPrevented event then
        match awaitInterception env w with
        | (w, Fulfilled _) => (w, Fulfilled event)
        | (w, Rejected t) => (w, Rejected t)
        | (w, NeverSettles) => (w, NeverSettles)
        end
      else (w, Fulfilled event)
  end.

(** Phase 2: BEFORE_SEND *)
Definition dispatchBeforeSendEvent (env : Environment) (w : World)
  : World * (Thrown + FetchRequestEvent) :=
  let '(event, w) :=
    newEvent (mkRequestFields None (_input (request w))
                (_fetchRequestOptions (request w))) w in
  match dispatch (onBeforeSend env) BEFORE_SEND event w with
  | (w, inl t) => (w, inl t)
  | (w, inr event) =>
      (withRequest
         (setOptions (spreadOptions (_fetchRequestOptions (request w))
                        (rq_fetchOptions (ev_payload event)))
            (request w)) w,
       inr event)
  end.

(** Phase 3: RESPONSE *)
Definition dispatchResponseEvent (env : Environment)
  (fetchResponse : HttpResponse) (w : World) : World * (Thrown + HttpResponse) :=
  let '(event, w) := newEvent fetchResponse w in
  match dispatch (onResponse env) RESPONSE event w with
  | (w, inl t) => (w, inl t)
  | (w, inr event) =>
      let w :=
        if isDefaultPrevented event then
          notify (requestPreventedHandlingResponse (ev_payload event)) w
        else if succeeded fetchResponse || serverInfo fetchResponse then
          notify (requestSucceededWithResponse (ev_payload event)) w
        else
          notify (requestFailedWithResponse (ev_payload event)) w in
      (w, inr (ev_payload event))
  end.

(** Phase 4: ERROR *)
Definition dispatchErrorEvent (env : Environment) (err : Thrown) (w : World)
  : World * (Thrown + FetchRequestErrorEvent) :=
  let '(event, w) := newEvent (mkErrorFields None err false) w in
  dispatch (onError env) ERROR event w.

(** Phase 5: TERMINATE *)
Definition dispatchTerminateEvent (env : Environment)
  (response : option HttpResponse) (err : option Thrown) (w : World)
  : World * option Thrown :=
  let '(event, w) := newEvent (mkTerminateFields response err) w in
  match dispatch (onTerminate env) TERMINATE event w with
  | (w, inl t) => (w, Some t)
  | (w, inr _) => (w, None)
  end.

Definition willDelegateErrorHandling (env : Environment) (err : Thrown)
  (w : World) : World * (Thrown + bool) :=
  let '(errorEvent, w) := newEvent (mkErrorFields None err false) w in
  match dispatch (onError env) ERROR errorEvent w with
  | (w, inl t) => (w, inl t)
  | (w, inr errorEvent) => (w, inr (negb (isDefaultPrevented errorEvent)))
  end.

(** [await safeFetch(this._fetchRequestOptions)] under the request's own
    token: the owner of the token is the request, and aborting it from
    outside is a call of [cancel()]. *)
Definition awaitSafeFetch (env : Environment) (w : World)
  : World * Completion HttpResponse :=
  let '(s, c) :=
    safeFetch FetchRequest tokenTripped cancel
      (_fetchRequestOptions (request w)) (scenario env) (request w) in
  ({| request := owner s;
      dispatchedEvents := dispatchedEvents w;
      delegateCalls := delegateCalls w;
      engineEffects := engineEffects w ++ effects s;
      nextEventId := nextEventId w |}, c).

(** The [try] block of [handle]: the world it leaves, the local variable
    [fetchResponse] as it stands when the block ends, and how it ends. *)
Definition tryBlock (env : Environment) (requestEvent : FetchRequestEvent)
  (w : World) : World * option HttpResponse * Completion HttpResponse :=
  let w := notify requestStarted w in
  let '(w, obtained) :=
    match rq_response (ev_payload requestEvent) with
    | Some response => (w, Fulfilled response)
    | None =>
        match dispatchBeforeSendEvent env w with
        | (w, inl t) => (w, Rejected t)
        | (w, inr beforeSendEvent) =>
            match rq_response (ev_payload beforeSendEvent) with
            | Some response => (w, Fulfilled response)
            | None =>
                let w :=
                  match _abortController (request w) with
                  | Some _ =>
                      withRequest
                        (setOptions
                           (setSignal SharedToken
                              (_fetchRequestOptions (request w)))
                           (request w)) w
                  | None => w
                  end in
                awaitSafeFetch env w
            end
        end
    end in
  match obtained with
  | NeverSettles => (w, None, NeverSettles)
  | Rejected t => (w, None, Rejected t)
  | Fulfilled fetchResponse =>
      match dispatchResponseEvent env fetchResponse w with
      | (w, inl t) => (w, Some fetchResponse, Rejected t)
      | (w, inr fetchResponse') =>
          (w, Some fetchResponse', Fulfilled fetchResponse')
      end
  end.

(** The [finally] block: an exception of a TERMINATE listener replaces the
    pending completion. *)
Definition finallyBlock (env : Environment)
  (fetchResponse : option HttpResponse) (err : option Thrown)
  (pending : Completion HttpResponse) (w : World)
  : World * Completion HttpResponse :=
  match dispatchTerminateEvent env fetchResponse err w with
  | (w, Some t) => (w, Rejected t)
  | (w, None) => (notify requestFinished w, pending)
  end.

(** [errorEvent.getResponse()] when
    [errorEvent.isRecovered() && errorEvent.hasResponse()] holds. *)
Definition recoveryOf (errorEvent : FetchRequestErrorEvent)
  : option HttpResponse :=
  if isRecovered errorEvent && errorHasResponse errorEvent
  then er_response (ev_payload errorEvent)
  else None.

(** The [catch (err)] block followed by [finally]. *)
Definition catchBlockOfHandle (env : Environment)
  (fetchResponse : option HttpResponse) (err : Thrown) (w : World)
  : World * Completion HttpResponse :=
  match dispatchErrorEvent env err w with
  | (w, inl t) => finallyBlock env fetchResponse (Some err) (Rejected t) w
  | (w, inr errorEvent) =>
      match recoveryOf errorEvent with
      | Some response =>
          finallyBlock env (Some response) None (Fulfilled response) w
      | None =>
          match willDelegateErrorHandling env err w with
          | (w, inl t) =>
              finallyBlock env fetchResponse (Some err) (Rejected t) w
          | (w, inr delegated) =>
              let w := if delegated then notify (requestErrored err) w else w in
              finallyBlock env fetchResponse (Some err) (Rejected err) w
          end
      end
  end.

(** [FetchRequest.handle] *)
Definition handle (env : Environment) (w : World)
  : World * Completion HttpResponse :=
  if _isCancelled (request w) then
    (w, Rejected (HttpFetchError "Request was cancelled"
                    (_input (request w)) None))
  else
    let w := notify prepareRequest w in
    match dispatchRequestEvent env w with
    | (w, Rejected t) => (w, Rejected t)
    | (w, NeverSettles) => (w, NeverSettles)
    | (w, Fulfilled requestEvent) =>
        match tryBlock env requestEvent w with
        | (w, _, NeverSettles) => (w, NeverSettles)
        | (w, fetchResponse, Fulfilled response) =>
            finallyBlock env fetchResponse None (Fulfilled response) w
        | (w, fetchResponse, Rejected err) =>
            catchBlockOfHandle env fetchResponse err w
        end
    end.

(* ================================================================== *)
(** ** Vocabulary of the properties *)

(** The six bands a status code can fall in, read off the three functions
    of [src/utils/index.ts]: the three non-error answers of
    [mapStatusToResponseType], the two error predicates, and the error
    codes neither predicate claims. *)
Definition bandMembership (c : Z) : list bool :=
  [MappedHttpStatus_eqb (mapStatusToResponseType c) info;
   MappedHttpStatus_eqb (mapStatusToResponseType c) success;
   MappedHttpStatus_eqb (mapStatusToResponseType c) redirect;
   isClientError c;
   isServerError c;
   MappedHttpStatus_eqb (mapStatusToResponseType c) error
     && negb (isClientError c) && negb (isServerError c)].

Definition countTrue (l : list bool) : nat :=
  List.length (filter (fun b => b) l).

(** No cancellation takes place around any attempt. *)
Definition undisturbed (sc : Scenario) : Prop :=
  forall i, cancelWhileInFlight (sc i) = false
            /\ cancelWhileBackingOff (sc i) = false.

(** The endpoint answers every call with a response satisfying [P]. *)
Definition endpointAnswers (sc : Scenario) (P : Response -> Prop) : Prop :=
  forall i, exists r, network (sc i) = ServerReplies r /\ P r.

(** The error body of [r] is read without an exception. *)
Definition errorBodyParses (r : Response) : Prop :=
  exists wrapper, parseHttpErrorResponse r = inr wrapper.

(** The retry budget and the timeout [safeFetch] works with once the
    defaults, the keep-alive profile and the floor have been applied. *)
Definition effectiveRetryCount (o : FetchRequestOptions) : JsNumber :=
  if orDefault (o_keepalive o) false then Whole 1
  else match o_retryCount o with
       | Some n => if lessThan n 2 then Whole 3 else n
       | None => Whole 3
       end.

Definition effectiveTimeout (o : FetchRequestOptions) : Z :=
  if orDefault (o_keepalive o) false then 0
  else orDefault (o_timeout o) 45000.

(** The [RequestInit] the loop starts from. *)
Definition requestInitOf (o : FetchRequestOptions) : RequestInit :=
  {| p_method := orDefault (o_methodSend o) "GET";
     p_headers :=
       if isFormData (o_data o)
       then deleteKey "Content-Type"
              (ownProperties
                 (orDefault (o_headers o) (PlainObject defaultHeaders)))
       else ownProperties
              (orDefault (o_headers o) (PlainObject defaultHeaders));
     p_keepalive := orDefault (o_keepalive o) false;
     p_body :=
       match o_data o with
       | Some d =>
           if existsb (String.eqb (orDefault (o_methodSend o) "GET"))
                ["POST"; "PUT"; "PATCH"]
           then Some (match d with
                      | FormDataBody payload => payload
                      | JsonBody serialized => serialized
                      end)
           else None
       | None => None
       end;
     p_signal := o_signal o |}.

Definition timedOutMessage : string :=
  "Request timed out because the server did not respond within the specified time.".

(** The state and the parameters an attempt is in once the endpoint has
    answered its call: the timer, if armed, was set and cleared, and the
    call went on the wire. *)
Definition afterAnswer {Owner : Type} (armed : bool) (url : string)
  (timeout attempt : Z) (fetchParams : RequestInit) (s : EngineState Owner)
  : EngineState Owner * RequestInit :=
  if armed then
    ({| owner := owner s;
        effects := effects s
          ++ [TimerSet attempt timeout;
              FetchCalled attempt url
                (withSignal (AttemptController attempt) fetchParams);
              Exchanged attempt; TimerCleared attempt] |},
     withSignal (AttemptController attempt) fetchParams)
  else
    ({| owner := owner s;
        effects := effects s
          ++ [FetchCalled attempt url fetchParams; Exchanged attempt] |},
     fetchParams).

(** From [w] to [w'] the bus was handed exactly the events [l], and [n]
    event objects were created. *)
Definition evolves (w w' : World) (l : list (string * AnyEvent)) (n : nat)
  : Prop :=
  dispatchedEvents w' = (dispatchedEvents w ++ l)%list
  /\ nextEventId w' = (nextEventId w + n)%nat.

(** All the events of [l] were dispatched under one of [names]. *)
Definition namedAmong (names : list string) (l : list (string * AnyEvent))
  : Prop :=
  Forall (fun d => In (fst d) names) l.

(** The event [new FetchRequestErrorEvent(this, err, ...)] creates. *)
Definition freshErrorEvent (id : nat) (err : Thrown) : AnyEvent :=
  OfError (mkEvent id (mkErrorFields None err false) false false).

(** The signals the engine handed to the fetch primitive, call by call. *)
Definition signalsUsed (l : list Effect) : list (option Signal) :=
  flat_map (fun e => match e with
                     | FetchCalled _ _ init => [p_signal init]
                     | _ => []
                     end) l.

Definition isSharedToken (s : option Signal) : bool :=
  match s with Some SharedToken => true | _ => false end.

(** A deadline timer is armed for every attempt. *)
Definition timerArmed (o : FetchRequestOptions) : bool :=
  negb (orDefault (o_keepalive o) false) && (0 <? effectiveTimeout o).

Definition raises {M : Type} (a : Action M) : bool :=
  match a with throw _ => true | _ => false end.

Definition callsMethod {M : Type} (a : Action M) : bool :=
  match a with call _ => true | _ => false end.

(** No listener of the list ever throws. *)
Definition neverRaise {P M : Type} (ls : list (Listener P M)) : Prop :=
  forall l e r, In l ls -> existsb raises (l e r) = false.

(** No listener of the list ever calls a method of the event class
    (for a [FetchResponseEvent]: none calls [setResponse]). *)
Definition neverCall {P M : Type} (ls : list (Listener P M)) : Prop :=
  forall l e r, In l ls -> existsb callsMethod (l e r) = false.

(* ================================================================== *)
(** ** Vocabulary of the engine's further properties *)

(** The back-off sleeps of a run, in order, and their number. *)
Definition sleepsOf (l : list Effect) : list Z :=
  flat_map (fun e => match e with Slept ms => [ms] | _ => [] end) l.

Definition countSleeps (l : list Effect) : nat := List.length (sleepsOf l).

Definition countCleared (l : list Effect) : nat :=
  List.length
    (filter (fun e => match e with TimerCleared _ => true | _ => false end) l).

(** The delays [unit * (from + 1)], [unit * (from + 2)], ..., [k] of
    them: a linear back-off that starts after attempt [from]. *)
Fixpoint linearBackoff (unit from : Z) (k : nat) : list Z :=
  match k with
  | O => []
  | S k' => unit * (from + 1) :: linearBackoff unit (from + 1) k'
  end.

(** The test of the [catch] block for a transport failure. *)
Definition isNetworkMessage (message : string) : bool :=
  includes message "NetworkError" || includes message "Failed to fetch".

Definition fallthroughMessage : string :=
  "Unexpected fallthrough in httpFetchHandler".

(** [fetchRequestOptions] with [retryCount] set to [n]. *)
Definition setRetryCount (n : Z) (o : FetchRequestOptions)
  : FetchRequestOptions :=
  {| o_url := o_url o; o_methodSend := o_methodSend o; o_data := o_data o;
     o_headers := o_headers o; o_timeout := o_timeout o;
     o_retryCount := Some (Whole n); o_responseType := o_responseType o;
     o_retryOnStatusCode := o_retryOnStatusCode o;
     o_keepalive := o_keepalive o; o_signal := o_signal o |}.

(** [obj[key]] on a header object. *)
Fixpoint lookupKey (k : string) (hs : list (string * string)) : option string :=
  match hs with
  | [] => None
  | (k', v) :: hs' => if String.eqb k' k then Some v else lookupKey k hs'
  end.

(** What one call of the primitive was given, for a run under the options
    [o]: the url and the method, headers, body and keep-alive flag worked
    out before the loop, and as signal the attempt's own controller when a
    deadline is armed, the signal of the options otherwise. *)
Definition callAsConfigured (o : FetchRequestOptions) (e : Effect) : Prop :=
  match e with
  | FetchCalled attempt url init =>
      url = o_url o
      /\ p_method init = p_method (requestInitOf o)
      /\ p_headers init = p_headers (requestInitOf o)
      /\ p_body init = p_body (requestInitOf o)
      /\ p_keepalive init = p_keepalive (requestInitOf o)
      /\ p_signal init = (if timerArmed o
                          then Some (AttemptController attempt)
                          else o_signal o)
  | _ => True
  end.

(** The state and the parameters an attempt is in once its call has gone
    on the wire and come back with an exception: the timer, if armed,
    was set, and [o'] is what the owner of the token has become. *)
Definition afterExchange {Owner : Type} (armed : bool) (url : string)
  (timeout attempt : Z) (fetchParams : RequestInit) (o' : Owner)
  (s : EngineState Owner) : EngineState Owner * RequestInit :=
  if armed then
    ({| owner := o';
        effects := effects s
          ++ [TimerSet attempt timeout;
              FetchCalled attempt url
                (withSignal (AttemptController attempt) fetchParams);
              Exchanged attempt] |},
     withSignal (AttemptController attempt) fetchParams)
  else
    ({| owner := o';
        effects := effects s
          ++ [FetchCalled attempt url fetchParams; Exchanged attempt] |},
     fetchParams).

(** The message of the structured error and the unit of the back-off for
    an exception that is not an abort. *)
Definition failureMessage (retryCount : JsNumber) (message : string)
  : string :=
  (if isNetworkMessage message
   then "Network error after " else "Unexpected error after ")
  ++ printNumber retryCount ++ " attempts: " ++ message.

Definition failureDelay (message : string) : Z :=
  if isNetworkMessage message then 1000 else 500.

(** What the loop needs to know about its parameters for every call to
    come out as configured by [o]. *)
Definition paramsAsConfigured (o : FetchRequestOptions) (p : RequestInit)
  : Prop :=
  p_method p = p_method (requestInitOf o)
  /\ p_headers p = p_headers (requestInitOf o)
  /\ p_body p = p_body (requestInitOf o)
  /\ p_keepalive p = p_keepalive (requestInitOf o)
  /\ (timerArmed o = false -> p_signal p = o_signal o).

(** Properties of one call of the primitive, lifted to the effects. *)
Definition callHeaderIs (k : string) (v : option string) (e : Effect) : Prop :=
  match e with
  | FetchCalled _ _ init => lookupKey k (p_headers init) = v
  | _ => True
  end.

Definition callBodyIs (b : option string) (e : Effect) : Prop :=
  match e with
  | FetchCalled _ _ init => p_body init = b
  | _ => True
  end.

Definition callKeepsAlive (e : Effect) : Prop :=
  match e with
  | FetchCalled _ _ init => p_keepalive init = true
  | _ => True
  end.

(** A status the engine answers with a retry while attempts remain: an
    error status that is no client error and, if it is a server error,
    comes with the retry flag on. *)
Definition retriedStatus (retryOnStatusCode : bool) (code : Z) : bool :=
  MappedHttpStatus_eqb (mapStatusToResponseType code) error
  && negb (isClientError code)
  && negb (isServerError code && negb retryOnStatusCode).

(** The success body of [r] is read without an exception. *)
Definition bodyParsesAs (t : HttpResponseType) (r : Response) : Prop :=
  exists wrapper, responseTypeHandle t r = inr wrapper.

(** Every call fails in the transport with the exception [e]. *)
Definition alwaysThrows (sc : Scenario) (e : JsError) : Prop :=
  forall i, network (sc i) = TransportFails e.

(** The server never answers. *)
Definition alwaysSilent (sc : Scenario) : Prop :=
  forall i, network (sc i) = ServerSilent.

(* ================================================================== *)
(** ** Vocabulary of the engine's further properties *)

(** The retry count is a whole number. *)
Definition isWhole (x : JsNumber) : bool :=
  match x with Whole _ => true | Fractional _ _ => false end.

(* ================================================================== *)
(** ** Vocabulary of the orchestrator's further properties *)

(** The call of the primitive targets [u]. *)
Definition callTargets (u : string) (e : Effect) : Prop :=
  match e with
  | FetchCalled _ url _ => url = u
  | _ => True
  end.

(** The delegate notification [d] is one of the three that report a
    response, and it reports [r]. *)
Definition reportsResponse (r : HttpResponse) (d : DelegateCall) : Prop :=
  d = requestSucceededWithResponse r
  \/ d = requestPreventedHandlingResponse r
  \/ d = requestFailedWithResponse r.

(** The action is a call of [preventDefault()]. *)
Definition prevents {M : Type} (a : Action M) : bool :=
  match a with preventDefault => true | _ => false end.

(** No listener of the list ever prevents the default action. *)
Definition neverPrevent {P M : Type} (ls : list (Listener P M)) : Prop :=
  forall l e r, In l ls -> existsb prevents (l e r) = false.

(** The notifications about how a request went. *)
Definition isOutcomeNotification (d : DelegateCall) : bool :=
  match d with
  | requestSucceededWithResponse _ | requestPreventedHandlingResponse _
  | requestFailedWithResponse _ | requestErrored _ => true
  | _ => false
  end.

(** The request has its controller, and the flag [_isCancelled] says what
    [signal.aborted] of the controller says. *)
Definition flagTracksToken (r : FetchRequest) : Prop :=
  _abortController r = Some (_isCancelled r).

(** A REQUEST or ERROR event that carries a response has been stopped. *)
Definition requestStoppedIfSupplied (e : FetchRequestEvent) : Prop :=
  hasResponse e = true -> ev_propagationStopped e = true.

(** An ERROR event that carries a response has been stopped and is marked
    as recovered. *)
Definition errorRecoveredIfSupplied (e : FetchRequestErrorEvent) : Prop :=
  errorHasResponse e = true ->
  ev_propagationStopped e = true /\ isRecovered e = true.

(** The content type [parseHttpErrorResponse] decides on: the header,
    trimmed and in lower case, or the empty string. *)
Definition errorContentType (r : Response) : string :=
  toLowerCase (trim (match headersGet (headers r) "content-type" with
                     | Some v => v
                     | None => ""
                     end)).

(** The test [parseHttpErrorResponse] starts with: a 204, or a
    [Content-Length] of zero. *)
Definition bodyDeclaredEmpty (r : Response) : bool :=
  (status r =? 204)
  || match headersGet (headers r) "content-length" with
     | Some v => String.eqb v "0"
     | None => false
     end.

(** Two engine states that differ in the owner of the token only, the
    owners being related by [R]. *)
Definition sameRun {Owner1 Owner2 : Type} (R : Owner1 -> Owner2 -> Prop)
  (s1 : EngineState Owner1) (s2 : EngineState Owner2) : Prop :=
  R (owner s1) (owner s2) /\ effects s1 = effects s2.

(** The request [r] seen as the flag [signal.aborted] of its token. *)
Definition tokenOf (r : FetchRequest) (tripped : bool) : Prop :=
  flagTracksToken r /\ _isCancelled r = tripped.

(* ------------------------------------------------------------------ *)
(** *** [FetchRequestEvent.mergeFetchOptions] of [src/events/index.ts] *)

(** [Partial<FetchRequestOptions>]: every key may be absent. *)
Record PartialOptions : Type := mkPartialOptions {
  po_url : option string;
  po_methodSend : option string;
  po_data : option RequestData;
  po_headers : option HeadersInit;
  po_timeout : option Z;
  po_retryCount : option JsNumber;
  po_responseType : option HttpResponseType;
  po_retryOnStatusCode : option bool;
  po_keepalive : option bool;
  po_signal : option Signal
}.

(** [k in obj] on a header object. *)
Definition hasKey (k : string) (hs : list (string * string)) : bool :=
  match lookupKey k hs with Some _ => true | None => false end.

(** [{ ...a, ...b }] on header objects: the keys of [a] in their order,
    with the value [b] gives them if it has one, then the keys [b]
    adds. *)
Definition spreadHeaders (a b : list (string * string))
  : list (string * string) :=
  map (fun kv => (fst kv, orDefault (lookupKey (fst kv) b) (snd kv))) a
  ++ filter (fun kv => negb (hasKey (fst kv) a)) b.

(** [mergeFetchOptions(options)], as a function of [this._fetchOptions]:
    the keys of [options] override, and [headers] is always a plain
    object, the merge of the own properties of the two header values, an
    absent one counting as empty. *)
Definition mergeFetchOptions (_fetchOptions : FetchRequestOptions)
  (options : PartialOptions) : FetchRequestOptions :=
  {| o_url := orDefault (po_url options) (o_url _fetchOptions);
     o_methodSend := orElse (po_methodSend options) (o_methodSend _fetchOptions);
     o_data := orElse (po_data options) (o_data _fetchOptions);
     o_headers :=
       Some (PlainObject
               (spreadHeaders
                  (ownProperties
                     (orDefault (o_headers _fetchOptions) (PlainObject [])))
                  (ownProperties
                     (orDefault (po_headers options) (PlainObject [])))));
     o_timeout := orElse (po_timeout options) (o_timeout _fetchOptions);
     o_retryCount := orElse (po_retryCount options) (o_retryCount _fetchOptions);
     o_responseType :=
       orElse (po_responseType options) (o_responseType _fetchOptions);
     o_retryOnStatusCode :=
       orElse (po_retryOnStatusCode options)
         (o_retryOnStatusCode _fetchOptions);
     o_keepalive := orElse (po_keepalive options) (o_keepalive _fetchOptions);
     o_signal := orElse (po_signal options) (o_signal _fetchOptions) |}.

(* ================================================================== *)
(** ** Sample responses, requests and environments *)

Definition readable : BodyReader -> JsError + string :=
  fun _ => inr "{}".

Definition unreadable : BodyReader -> JsError + string :=
  fun _ => inl (mkJsError "SyntaxError" "Unexpected end of JSON input").

(** A wire response with a JSON content type. *)
Definition wire (code : Z) (wasRedirected : bool)
  (reader : BodyReader -> JsError + string) : Response :=
  {| status := code; statusText := ""; redirected := wasRedirected;
     headers := [("content-type", "application/json")];
     rawBody := "{}"; readBody := reader |}.

Definition wrap (r : Response) : HttpResponse :=
  {| originalResponse := r; data := TextData "" |}.

(** Options that leave every optional key out. *)
Definition plainOptions : FetchRequestOptions :=
  {| o_url := "https://api.example.com/test"; o_methodSend := None;
     o_data := None; o_headers := None; o_timeout := None;
     o_retryCount := None; o_responseType := None;
     o_retryOnStatusCode := None; o_keepalive := None; o_signal := None |}.

Definition withRetry (n : Z) (retryOnStatus keepAlive : bool)
  (timeout : option Z) (sig : option Signal) : FetchRequestOptions :=
  {| o_url := "https://api.example.com/test"; o_methodSend := None;
     o_data := None; o_headers := None; o_timeout := timeout;
     o_retryCount := Some (Whole n); o_responseType := None;
     o_retryOnStatusCode := Some retryOnStatus;
     o_keepalive := Some keepAlive; o_signal := sig |}.

(** The endpoint answers every call with [r]; nobody cancels. *)
Definition alwaysAnswers (r : Response) : Scenario :=
  fun _ => {| cancelWhileInFlight := false; network := ServerReplies r;
              cancelWhileBackingOff := false |}.

(** The endpoint answers with [r]; the user cancels while the first call
    is in flight. *)
Definition cancelledInFlight (r : Response) : Scenario :=
  fun i => {| cancelWhileInFlight := (i =? 0); network := ServerReplies r;
              cancelWhileBackingOff := false |}.

(** Every call fails in the transport. *)
Definition alwaysFails : Scenario :=
  fun _ => {| cancelWhileInFlight := false;
              network := TransportFails (mkJsError "TypeError" "Failed to fetch");
              cancelWhileBackingOff := false |}.

(** The server never answers; nobody cancels. *)
Definition neverAnswers : Scenario :=
  fun _ => {| cancelWhileInFlight := false; network := ServerSilent;
              cancelWhileBackingOff := false |}.

(** An upload of a form, and a DELETE that comes with data. *)
Definition uploadOptions : FetchRequestOptions :=
  {| o_url := "https://api.example.com/test"; o_methodSend := Some "POST";
     o_data := Some (FormDataBody "file"); o_headers := None;
     o_timeout := None; o_retryCount := None; o_responseType := None;
     o_retryOnStatusCode := None; o_keepalive := None; o_signal := None |}.

Definition deleteOptions : FetchRequestOptions :=
  {| o_url := "https://api.example.com/test"; o_methodSend := Some "DELETE";
     o_data := Some (JsonBody "{}"); o_headers := None;
     o_timeout := None; o_retryCount := None; o_responseType := None;
     o_retryOnStatusCode := None; o_keepalive := None; o_signal := None |}.

(** The engine on its own: the owner of the token is the flag
    [signal.aborted] of the caller's controller. *)
Definition standalone (o : FetchRequestOptions) (sc : Scenario)
  (tripped : bool) : EngineState bool * Completion HttpResponse :=
  safeFetch bool (fun b => b) (fun _ => true) o sc tripped.

Definition noListeners (sc : Scenario) : Environment :=
  {| onRequest := []; onBeforeSend := []; onResponse := []; onError := [];
     onTerminate := []; interception := NobodySettles; scenario := sc |}.

Definition cachedResponse : HttpResponse :=
  {| originalResponse := wire 200 false readable; data := JsonData "cached" |}.

(** A REQUEST listener that supplies [cachedResponse], and one that in
    addition prevents the default action. *)
Definition supplyResponse : Listener RequestFields RequestMethod :=
  fun _ _ => [call (Request_setResponse (Some cachedResponse))].

Definition supplyAndPrevent : Listener RequestFields RequestMethod :=
  fun _ _ => [call (Request_setResponse (Some cachedResponse)); preventDefault].

Definition requestListeners (ls : list (Listener RequestFields RequestMethod))
  : Environment :=
  {| onRequest := ls; onBeforeSend := []; onResponse := []; onError := [];
     onTerminate := []; interception := NobodySettles;
     scenario := alwaysAnswers (wire 200 false readable) |}.

Definition freshWorld : World := initialWorld (newFetchRequest plainOptions).

Definition listenerFailure : Thrown :=
  Native (mkJsError "Error" "listener failed").

(** A REQUEST listener supplies [cachedResponse]; a RESPONSE listener
    throws. *)
Definition shortCircuitThenRaise : Environment :=
  {| onRequest := [supplyResponse]; onBeforeSend := [];
     onResponse := [fun _ _ => [throw listenerFailure]];
     onError := []; onTerminate := []; interception := NobodySettles;
     scenario := alwaysAnswers (wire 200 false readable) |}.

(** A REQUEST listener that prevents the default action and cancels the
    request. *)
Definition preventAndCancel : Listener RequestFields RequestMethod :=
  fun _ _ => [preventDefault; cancelRequest].

(** A request with a budget of three attempts and no deadline. *)
Definition unboundedWorld : World :=
  initialWorld (newFetchRequest (withRetry 3 false false (Some 0) None)).

(** The REQUEST event [dispatchRequestEvent] creates in [freshWorld]. *)
Definition firstRequestEvent : FetchRequestEvent :=
  mkEvent 0%nat
    (mkRequestFields None (o_url plainOptions) plainOptions) false false.

(** A REQUEST listener that points the event at another url. *)
Definition retarget : Listener RequestFields RequestMethod :=
  fun _ _ => [call (Request_setUrl "https://api.example.com/modified")].

(** An ERROR listener recovers with [cachedResponse] while every call
    fails in the transport. *)
Definition recoverWithCache : Environment :=
  {| onRequest := []; onBeforeSend := []; onResponse := [];
     onError := [fun _ _ => [call (Error_setResponse (Some cachedResponse))]];
     onTerminate := []; interception := NobodySettles;
     scenario := alwaysFails |}.

(** A BEFORE_SEND listener supplies [cachedResponse]. *)
Definition supplyBeforeSend : Environment :=
  {| onRequest := []; onBeforeSend := [supplyResponse]; onResponse := [];
     onError := []; onTerminate := []; interception := NobodySettles;
     scenario := alwaysFails |}.

(** A REQUEST listener prevents the default action, nobody resolves the
    interception, and the user cancels while [handle()] waits for it. *)
Definition cancelledWhileIntercepted : Environment :=
  {| onRequest := [fun _ _ => [preventDefault]]; onBeforeSend := [];
     onResponse := []; onError := []; onTerminate := [];
     interception := CancelledLater;
     scenario := alwaysAnswers (wire 200 false readable) |}.

(** The error the engine ends in when every call fails as in
    [alwaysFails] under the default budget, and the ERROR event
    [dispatchErrorEvent] creates for it in [freshWorld]. *)
Definition exhaustedBudget : Thrown :=
  HttpFetchError "Network error after 3 attempts: Failed to fetch"
    "https://api.example.com/test"
    (Some (Native (mkJsError "TypeError" "Failed to fetch"))).

Definition firstErrorEvent : FetchRequestErrorEvent :=
  mkEvent 2%nat (mkErrorFields None exhaustedBudget false) false false.

(** A RESPONSE listener replaces whatever came back by [cachedResponse]. *)
Definition replaceByCache : Environment :=
  {| onRequest := []; onBeforeSend := [];
     onResponse := [fun _ _ => [call (Response_setResponse cachedResponse)]];
     onError := []; onTerminate := []; interception := NobodySettles;
     scenario := alwaysAnswers (wire 404 false readable) |}.

(** The partial options of a listener that adds an authentication
    header and nothing else. *)
Definition addAuthorization : PartialOptions :=
  {| po_url := None; po_methodSend := None; po_data := None;
     po_headers := Some (PlainObject [("Authorization", "Bearer test-token")]);
     po_timeout := None; po_retryCount := None; po_responseType := None;
     po_retryOnStatusCode := None; po_keepalive := None;
     po_signal := None |}.


(** An ERROR listener throws while every call fails in the transport;
    and a REQUEST listener throws. *)
Definition errorListenerRaises : Environment :=
  {| onRequest := []; onBeforeSend := []; onResponse := [];
     onError := [fun _ _ => [throw listenerFailure]];
     onTerminate := []; interception := NobodySettles;
     scenario := alwaysFails |}.

Definition requestListenerRaises : Environment :=
  requestListeners [fun _ _ => [throw listenerFailure]].

(** A TERMINATE listener throws after the request was answered. *)
Definition terminateListenerRaises : Environment :=
  {| onRequest := []; onBeforeSend := []; onResponse := []; onError := [];
     onTerminate := [fun _ _ => [throw listenerFailure]];
     interception := NobodySettles;
     scenario := alwaysAnswers (wire 200 false readable) |}.

(** An ERROR listener that cancels the request the first time it sees it
    and prevents the default action once the request is cancelled, while
    every call fails in the transport. *)
Definition cancelThenPrevent : Listener ErrorFields ErrorMethod :=
  fun _ r => if _isCancelled r then [preventDefault] else [cancelRequest].

Definition errorListenerTellsRunsApart : Environment :=
  {| onRequest := []; onBeforeSend := []; onResponse := [];
     onError := [cancelThenPrevent];
     onTerminate := []; interception := NobodySettles;
     scenario := alwaysFails |}.

(** A retry count of 2.5. *)
Definition fractionalBudget : FetchRequestOptions :=
  {| o_url := "https://api.example.com/test"; o_methodSend := None;
     o_data := None; o_headers := None; o_timeout := None;
     o_retryCount := Some (Fractional 2 "2.5"); o_responseType := None;
     o_retryOnStatusCode := None; o_keepalive := None; o_signal := None |}.

(** An upload whose headers are an instance of [Headers]. *)
Definition uploadWithHeadersInstance : FetchRequestOptions :=
  {| o_url := "https://api.example.com/test"; o_methodSend := Some "POST";
     o_data := Some (FormDataBody "file");
     o_headers :=
       Some (HeadersInstance [("Authorization", "Bearer test-token");
                              ("Content-Type", "text/plain")]);
     o_timeout := None; o_retryCount := None; o_responseType := None;
     o_retryOnStatusCode := None; o_keepalive := None; o_signal := None |}.

(** An upload whose headers are a plain object. *)
Definition uploadWithPlainHeaders : FetchRequestOptions :=
  {| o_url := "https://api.example.com/test"; o_methodSend := Some "POST";
     o_data := Some (FormDataBody "file");
     o_headers :=
       Some (PlainObject [("Authorization", "Bearer test-token");
                          ("Content-Type", "text/plain")]);
     o_timeout := None; o_retryCount := None; o_responseType := None;
     o_retryOnStatusCode := None; o_keepalive := None; o_signal := None |}.

(** The same partial options with the header in an instance of
    [Headers]. *)
Definition addAuthorizationInstance : PartialOptions :=
  {| po_url := None; po_methodSend := None; po_data := None;
     po_headers :=
       Some (HeadersInstance [("Authorization", "Bearer test-token")]);
     po_timeout := None; po_retryCount := None; po_responseType := None;
     po_retryOnStatusCode := None; po_keepalive := None;
     po_signal := None |}.
(* ================================================================== *)
(** ** The status classifier and the response wrapper *)

Lemma MappedHttpStatus_eqb_eq (a b : MappedHttpStatus) :
  MappedHttpStatus_eqb a b = true <-> a = b.
Proof.
  destruct a, b; simpl; split; intro H; try reflexivity; discriminate H.
Qed.

Ltac band_cases c :=
  unfold mapStatusToResponseType, isClientError, isServerError;
  destruct (Z.leb_spec 100 c); destruct (Z.ltb_spec c 200);
  destruct (Z.leb_spec 200 c); destruct (Z.ltb_spec c 300);
  destruct (Z.leb_spec 300 c); destruct (Z.ltb_spec c 400);
  destruct (Z.leb_spec 400 c); destruct (Z.ltb_spec c 500);
  destruct (Z.leb_spec 500 c); destruct (Z.ltb_spec c 600);
  simpl; try lia.

(** C7.  The classifier is total over the integers: [100,200) is info,
    [200,300) success, [300,400) redirect, [400,500) the client-error
    band, [500,600) the server-error band, and every other integer falls
    back to [error] (claimed by neither error predicate); the answer
    [warning] is never given, and every status code lies in exactly one
    of the six bands. *)
Theorem classifier_bands_partition : forall c : Z,
  (mapStatusToResponseType c = info <-> 100 <= c < 200) /\
  (mapStatusToResponseType c = success <-> 200 <= c < 300) /\
  (mapStatusToResponseType c = redirect <-> 300 <= c < 400) /\
  (isClientError c = true <-> 400 <= c < 500) /\
  (isServerError c = true <-> 500 <= c < 600) /\
  (mapStatusToResponseType c = error <-> c < 100 \/ 400 <= c) /\
  mapStatusToResponseType c <> warning /\
  countTrue (bandMembership c) = 1%nat.
Proof.
  intro c. unfold countTrue, bandMembership.
  band_cases c;
    repeat split; intros; try lia; try discriminate; try reflexivity.
Qed.

(** What the getters of the wrapper compute: [succeeded], [clientError]
    and [serverError] are the classifier's success band, [400,500) and
    [500,600); [failed] holds exactly when the code is at least 300 and
    the wire response does not carry the [redirected] flag. *)
Lemma wrapper_predicates : forall r : HttpResponse,
  succeeded r
    = MappedHttpStatus_eqb (mapStatusToResponseType (statusCode r)) success /\
  (clientError r = true <-> 400 <= statusCode r < 500) /\
  (serverError r = true <-> 500 <= statusCode r < 600) /\
  failed r = (300 <=? statusCode r) && negb (redirected (originalResponse r)).
Proof.
  intro r.
  unfold succeeded, clientError, serverError, failed, serverInfo,
    wasRedirected, succeeded.
  destruct (redirected (originalResponse r));
    generalize (statusCode r) as c; intro c;
    (assert (Hs : (c <=? 299) = (c <? 300))
      by (destruct (Z.leb_spec c 299), (Z.ltb_spec c 300);
          try reflexivity; lia));
    rewrite Hs; destruct (Z.leb_spec 300 c);
    band_cases c; repeat split; intros; try lia; try discriminate;
    reflexivity.
Qed.

(** C8 at failing inputs.  [failed] is no function of the status code:
    of two wire responses with the same code 404 the one that was reached
    through a redirect is not [failed], although the code lies in the
    client-error band; and a 301 that was not followed is [failed],
    although the classifier calls it a redirect.  The getter reads the
    flag [response.redirected] where the documentation of the class has
    "True if status is 4xx or 5xx" for [failed] and "True if status is
    3xx" for [redirected]. *)
Theorem failed_reads_redirected_flag :
  statusCode (wrap (wire 404 false readable))
    = statusCode (wrap (wire 404 true readable)) /\
  failed (wrap (wire 404 false readable)) = true /\
  failed (wrap (wire 404 true readable)) = false /\
  mapStatusToResponseType 404 = error /\
  failed (wrap (wire 301 false readable)) = true /\
  mapStatusToResponseType 301 = redirect.
Proof. repeat split. Qed.

(* ================================================================== *)
(** ** The retry engine *)

Lemma countFetchCalls_app (l1 l2 : list Effect) :
  countFetchCalls (l1 ++ l2) = (countFetchCalls l1 + countFetchCalls l2)%nat.
Proof. unfold countFetchCalls. now rewrite filter_app, length_app. Qed.

Lemma countExchanges_app (l1 l2 : list Effect) :
  countExchanges (l1 ++ l2) = (countExchanges l1 + countExchanges l2)%nat.
Proof. unfold countExchanges. now rewrite filter_app, length_app. Qed.

Lemma countTimers_app (l1 l2 : list Effect) :
  countTimers (l1 ++ l2) = (countTimers l1 + countTimers l2)%nat.
Proof. unfold countTimers. now rewrite filter_app, length_app. Qed.

Lemma parseHttpErrorResponse_original (r : Response) (w : HttpResponse) :
  parseHttpErrorResponse r = inr w -> originalResponse w = r.
Proof.
  unfold parseHttpErrorResponse, responseTypeHandle, readInto.
  repeat match goal with
         | |- context [if ?b then _ else _] => destruct b
         | |- context [match readBody ?x ?y with _ => _ end] =>
             destruct (readBody x y)
         end;
    intro H; inversion H; reflexivity.
Qed.

Lemma responseTypeHandle_original (t : HttpResponseType) (r : Response)
  (w : HttpResponse) :
  responseTypeHandle t r = inr w -> originalResponse w = r.
Proof.
  unfold responseTypeHandle, readInto.
  destruct t;
    repeat match goal with
           | |- context [match readBody ?x ?y with _ => _ end] =>
               destruct (readBody x y)
           end;
    intro H; inversion H; reflexivity.
Qed.

Lemma client_error_is_error (c : Z) :
  isClientError c = true ->
  MappedHttpStatus_eqb (mapStatusToResponseType c) error = true.
Proof. band_cases c; intros; try reflexivity; discriminate. Qed.

Lemma server_error_is_error (c : Z) :
  isServerError c = true ->
  MappedHttpStatus_eqb (mapStatusToResponseType c) error = true
  /\ isClientError c = false.
Proof. band_cases c; intros; split; try reflexivity; discriminate. Qed.

Lemma effectiveRetryCount_positive (o : FetchRequestOptions) :
  (1 <= iterations (effectiveRetryCount o))%nat.
Proof.
  unfold effectiveRetryCount.
  destruct (orDefault (o_keepalive o) false); [cbn; lia|].
  destruct (o_retryCount o) as [[n|f t]|]; [| |cbn; lia]; cbn [lessThan].
  - destruct (Z.ltb_spec n 2); cbn; lia.
  - destruct (Z.ltb_spec f 2); cbn; lia.
Qed.

Section EngineFacts.

Variable Owner : Type.
Variable aborted : Owner -> bool.
Variable abort : Owner -> Owner.

Lemma safeFetch_is_retryLoop (o : FetchRequestOptions) (sc : Scenario)
  (st : Owner) :
  safeFetch Owner aborted abort o sc st
  = retryLoop Owner aborted abort (o_url o) (effectiveTimeout o)
      (effectiveRetryCount o) (orDefault (o_responseType o) json)
      (orDefault (o_retryOnStatusCode o) false)
      (orDefault (o_keepalive o) false) sc
      (iterations (effectiveRetryCount o)) 0 (requestInitOf o)
      {| owner := st; effects := [] |}.
Proof.
  unfold safeFetch, effectiveTimeout, effectiveRetryCount, requestInitOf.
  destruct (orDefault (o_keepalive o) false); [reflexivity|].
  destruct (o_retryCount o) as [n|]; cbn [orDefault andb]; [|reflexivity].
  rewrite andb_true_r.
  destruct (lessThan n 2); reflexivity.
Qed.

Section LoopFacts.

Variable url : string.
Variable timeout : Z.
Variable retryCount : JsNumber.
Variable responseType : HttpResponseType.
Variable retryOnStatusCode : bool.
Variable keepalive : bool.
Variable sc : Scenario.

Local Abbreviation armed := (negb keepalive && (0 <? timeout)).
Local Abbreviation body :=
  (attemptBody Owner aborted abort url timeout retryCount responseType
     retryOnStatusCode keepalive sc).
Local Abbreviation loop :=
  (retryLoop Owner aborted abort url timeout retryCount responseType
     retryOnStatusCode keepalive sc).

Lemma retryLoop_next (k : nat) (attempt : Z) (fetchParams : RequestInit)
  (s : EngineState Owner) :
  loop (S k) attempt fetchParams s
  = match body attempt fetchParams s with
    | (s', _, Settle c) => (s', c)
    | (s', fetchParams', NextAttempt) =>
        loop k (attempt + 1) fetchParams' s'
    end.
Proof. reflexivity. Qed.

Lemma attemptBody_answered (attempt : Z) (fetchParams : RequestInit)
  (s : EngineState Owner) (r : Response) :
  network (sc attempt) = ServerReplies r ->
  cancelWhileInFlight (sc attempt) = false ->
  aborted (owner s) = false ->
  body attempt fetchParams s =
    let '(s1, params1) :=
    afterAnswer armed url timeout attempt fetchParams s in
    if MappedHttpStatus_eqb (mapStatusToResponseType (status r)) error
    then
      if isClientError (status r)
         || (isServerError (status r) && negb retryOnStatusCode)
         || isOneBelow attempt retryCount
      then
        let '(s2, step) :=
          returnAwait Owner abort url retryCount sc armed attempt
            (parseHttpErrorResponse r) s1 in
        (s2, params1, step)
      else (sleep Owner abort (500 * (attempt + 1)) (sc attempt) s1,
            params1, NextAttempt)
    else
      let '(s2, step) :=
        returnAwait Owner abort url retryCount sc armed attempt
          (responseTypeHandle responseType r) s1 in
      (s2, params1, step).
Proof.
  intros Hnet Hfly Hab.
  unfold attemptBody, afterAnswer, fetchPrimitive, duringFlight.
  destruct armed; simpl.
  - rewrite Hfly, Hnet. simpl. unfold emit; simpl.
    repeat rewrite <- app_assoc. simpl. reflexivity.
  - destruct (p_signal fetchParams) as [[|k]|]; simpl;
      rewrite ?Hab, Hfly, Hnet; simpl; unfold emit; simpl;
      repeat rewrite <- app_assoc; simpl; reflexivity.
Qed.


Lemma afterAnswer_calls (attempt : Z) (fetchParams : RequestInit)
  (s : EngineState Owner) :
  countFetchCalls
    (effects (fst (afterAnswer armed url timeout attempt fetchParams s)))
  = S (countFetchCalls (effects s)).
Proof.
  unfold afterAnswer, countFetchCalls. destruct armed; simpl;
    rewrite filter_app, length_app; simpl; lia.
Qed.




(** A client-error answer whose body parses ends the loop at once. *)
Lemma loop_client_error (k : nat) (attempt : Z) (fetchParams : RequestInit)
  (s : EngineState Owner) (r : Response) (w : HttpResponse) :
  network (sc attempt) = ServerReplies r ->
  cancelWhileInFlight (sc attempt) = false ->
  aborted (owner s) = false ->
  isClientError (status r) = true ->
  parseHttpErrorResponse r = inr w ->
  exists s',
    loop (S k) attempt fetchParams s = (s', Fulfilled w)
    /\ countFetchCalls (effects s') = S (countFetchCalls (effects s)).
Proof.
  intros Hnet Hfly Hab Hce Hp.
  rewrite retryLoop_next.
  rewrite (attemptBody_answered _ _ _ r Hnet Hfly Hab).
  pose proof (afterAnswer_calls attempt fetchParams s) as Hc.
  destruct (afterAnswer armed url timeout attempt fetchParams s) as [s1 p1].
  rewrite (client_error_is_error _ Hce), Hce, Hp. simpl.
  exists s1. split; [reflexivity | exact Hc].
Qed.


(** Without a deadline (timeout zero or keep-alive) an attempt sets no
    timer. *)
Lemma attemptBody_no_timer (attempt : Z) (fetchParams : RequestInit)
  (s : EngineState Owner) :
  armed = false ->
  countTimers (effects (fst (fst (body attempt fetchParams s))))
  = countTimers (effects s).
Proof.
  intro Harm. unfold attemptBody. rewrite Harm.
  destruct (fetchPrimitive Owner aborted abort (p_signal fetchParams)
              (sc attempt) (owner (emit (FetchCalled attempt url fetchParams) s)))
    as [[o sent] outcome].
  unfold returnAwait, catchBlock, clearTimer, sleep, emit.
  destruct sent, outcome as [response|err|];
    repeat match goal with
           | |- context [if ?b then _ else _] => destruct b
           | |- context [match ?x with inl _ => _ | inr _ => _ end] =>
               destruct x
           end;
    simpl; unfold countTimers; rewrite ?filter_app, ?length_app; simpl; lia.
Qed.

Lemma loop_no_timer (k : nat) :
  armed = false ->
  forall (attempt : Z) (fetchParams : RequestInit) (s : EngineState Owner),
    countTimers (effects (fst (loop k attempt fetchParams s)))
    = countTimers (effects s).
Proof.
  intro Harm. induction k as [|k IH]; intros attempt fetchParams s;
    [reflexivity|].
  rewrite retryLoop_next.
  pose proof (attemptBody_no_timer attempt fetchParams s Harm) as Hb.
  destruct (body attempt fetchParams s) as [[s1 p1] [c|]]; simpl in Hb.
  - exact Hb.
  - rewrite IH. exact Hb.
Qed.

(** With a deadline armed, the signal an attempt hands to the primitive is
    the one of its own controller, whatever the options carried. *)
Lemma attemptBody_own_signal (attempt : Z) (fetchParams : RequestInit)
  (s : EngineState Owner) :
  armed = true ->
  existsb isSharedToken (signalsUsed (effects s)) = false ->
  existsb isSharedToken
    (signalsUsed (effects (fst (fst (body attempt fetchParams s))))) = false.
Proof.
  intros Harm Hs. unfold attemptBody. rewrite Harm.
  match goal with
  | |- context [fetchPrimitive ?O ?a ?b ?sg ?x ?st] =>
      destruct (fetchPrimitive O a b sg x st) as [[o sent] outcome]
  end.
  unfold returnAwait, catchBlock, clearTimer, sleep, emit.
  destruct sent, outcome as [response|err|];
    repeat match goal with
           | |- context [if ?b then _ else _] => destruct b
           | |- context [match ?x with inl _ => _ | inr _ => _ end] =>
               destruct x
           end;
    simpl; unfold signalsUsed; rewrite ?flat_map_app, ?existsb_app;
    fold (signalsUsed (effects s)); rewrite Hs; reflexivity.
Qed.

Lemma loop_own_signal (k : nat) :
  armed = true ->
  forall (attempt : Z) (fetchParams : RequestInit) (s : EngineState Owner),
    existsb isSharedToken (signalsUsed (effects s)) = false ->
    existsb isSharedToken
      (signalsUsed (effects (fst (loop k attempt fetchParams s)))) = false.
Proof.
  intro Harm. induction k as [|k IH]; intros attempt fetchParams s Hs;
    [exact Hs|].
  rewrite retryLoop_next.
  pose proof (attemptBody_own_signal attempt fetchParams s Harm Hs) as Hb.
  destruct (body attempt fetchParams s) as [[s1 p1] [c|]]; simpl in Hb.
  - exact Hb.
  - apply IH. exact Hb.
Qed.

End LoopFacts.

(** The first half of C4 holds: with a timeout of zero, or in keep-alive
    mode, no run of the engine ever sets a deadline timer. *)
Lemma no_timer_without_deadline (o : FetchRequestOptions) (sc : Scenario)
  (st : Owner) :
  timerArmed o = false ->
  countTimers (effects (fst (safeFetch Owner aborted abort o sc st))) = 0%nat.
Proof.
  intro Harm. rewrite safeFetch_is_retryLoop.
  now rewrite loop_no_timer.
Qed.

(** The second half of C4 fails in general: with a positive timeout the
    shared token is never the signal of a call, so nothing the owner of
    the token does can abort a call in flight. *)
Lemma shared_token_dropped_under_deadline (o : FetchRequestOptions)
  (sc : Scenario) (st : Owner) :
  timerArmed o = true ->
  existsb isSharedToken
    (signalsUsed (effects (fst (safeFetch Owner aborted abort o sc st))))
  = false.
Proof.
  intro Harm. rewrite safeFetch_is_retryLoop.
  now apply loop_own_signal.
Qed.


(** Where C6 holds.  Whatever the options, when nobody cancels and the
    endpoint answers every call with a client-error status and a body
    that parses, the engine calls the network exactly once and returns,
    without throwing, the parsed wrapper of that first answer. *)
Lemma client_error_never_retried (o : FetchRequestOptions) (sc : Scenario)
  (st : Owner) :
  aborted st = false ->
  undisturbed sc ->
  endpointAnswers sc
    (fun r => isClientError (status r) = true /\ errorBodyParses r) ->
  exists s w,
    safeFetch Owner aborted abort o sc st = (s, Fulfilled w)
    /\ countFetchCalls (effects s) = 1%nat
    /\ network (sc 0) = ServerReplies (originalResponse w)
    /\ parseHttpErrorResponse (originalResponse w) = inr w
    /\ clientError w = true.
Proof.
  intros Hab Hquiet Hend. rewrite safeFetch_is_retryLoop.
  pose proof (effectiveRetryCount_positive o) as Hpos.
  destruct (iterations (effectiveRetryCount o)) as [|k] eqn:Hk; [lia|].
  destruct (Hend 0) as (r & Hnet & Hce & w & Hp).
  destruct (Hquiet 0) as [Hfly _].
  destruct (loop_client_error (o_url o) (effectiveTimeout o)
              (effectiveRetryCount o) (orDefault (o_responseType o) json)
              (orDefault (o_retryOnStatusCode o) false)
              (orDefault (o_keepalive o) false) sc k 0 (requestInitOf o)
              {| owner := st; effects := [] |} r w Hnet Hfly Hab Hce Hp)
    as (s' & Hl & Hc).
  pose proof (parseHttpErrorResponse_original _ _ Hp) as Ho.
  exists s', w. unfold clientError, statusCode. rewrite Ho.
  repeat split; assumption.
Qed.

End EngineFacts.

Lemma alwaysAnswers_undisturbed (r : Response) : undisturbed (alwaysAnswers r).
Proof. intro i. split; reflexivity. Qed.

Lemma alwaysAnswers_endpoint (r : Response) (P : Response -> Prop) :
  P r -> endpointAnswers (alwaysAnswers r) P.
Proof. intros H i. exists r. split; [reflexivity | exact H]. Qed.

(** C2 at failing inputs: a token tripped before the first attempt.
    The engine has no check of the token.  Without a deadline timer
    (timeout zero) the tripped token does not keep it from starting the
    further attempts: with a budget of three the primitive is called
    three times, and the error thrown in the end carries the timeout
    message, not a cancellation.  With a deadline timer armed (the
    default) the tripped token is not even noticed: the request goes on
    the wire and the answer is returned. *)
Theorem tripped_token_does_not_stop_the_engine :
  countFetchCalls
    (effects (fst (standalone (withRetry 3 false false (Some 0)
                                 (Some SharedToken))
                     (alwaysAnswers (wire 200 false readable)) true)))
  = 3%nat
  /\ snd (standalone (withRetry 3 false false (Some 0) (Some SharedToken))
            (alwaysAnswers (wire 200 false readable)) true)
     = Rejected (HttpFetchError timedOutMessage "https://api.example.com/test"
                   (Some (Native abortError)))
  /\ countExchanges
       (effects (fst (standalone (withRetry 3 false false None
                                    (Some SharedToken))
                        (alwaysAnswers (wire 200 false readable)) true)))
     = 1%nat
  /\ snd (standalone (withRetry 3 false false None (Some SharedToken))
            (alwaysAnswers (wire 200 false readable)) true)
     = Fulfilled {| originalResponse := wire 200 false readable;
                    data := JsonData "{}" |}.
Proof. repeat split; vm_compute; reflexivity. Qed.

(** C4 at a failing input: timeout 5000, the shared token handed over in
    the options, and a cancellation while the first call is in flight.
    The call was given the signal of the attempt's own controller, so the
    cancellation trips the token but does not abort the call: the answer
    arrives and is returned. *)
Theorem cancel_in_flight_ignored_under_deadline :
  standalone (withRetry 3 false false (Some 5000) (Some SharedToken))
    (cancelledInFlight (wire 200 false readable)) false
  = ({| owner := true;
        effects :=
          [TimerSet 0 5000;
           FetchCalled 0 "https://api.example.com/test"
             {| p_method := "GET"; p_headers := defaultHeaders;
                p_keepalive := false; p_body := None;
                p_signal := Some (AttemptController 0) |};
           Exchanged 0;
           TimerCleared 0] |},
     Fulfilled {| originalResponse := wire 200 false readable;
                  data := JsonData "{}" |}).
Proof. vm_compute. reflexivity. Qed.



Lemma client_error_never_retried_witness :
  exists s w,
    standalone (withRetry 3 false false None None)
      (alwaysAnswers (wire 404 false readable)) false
    = (s, Fulfilled w)
    /\ countFetchCalls (effects s) = 1%nat
    /\ network (alwaysAnswers (wire 404 false readable) 0)
       = ServerReplies (originalResponse w)
    /\ parseHttpErrorResponse (originalResponse w) = inr w
    /\ clientError w = true.
Proof.
  apply (client_error_never_retried bool (fun b => b) (fun _ => true)
           (withRetry 3 false false None None)
           (alwaysAnswers (wire 404 false readable)) false).
  - reflexivity.
  - apply alwaysAnswers_undisturbed.
  - apply alwaysAnswers_endpoint. split; [reflexivity|].
    eexists. reflexivity.
Defined.

(** C6 at a failing input: a budget of three and an endpoint that answers
    every call with a 404 whose JSON body does not parse.  The [return
    await parseHttpErrorResponse(response)] of the client-error branch
    sits inside the [try]: the exception of the parser is caught as an
    unexpected error, the 404 is requested again until the budget is
    used up, and the engine throws instead of returning the wrapper. *)
Theorem client_error_retried_when_body_unreadable :
  countFetchCalls
    (effects (fst (standalone (withRetry 3 false false None None)
                     (alwaysAnswers (wire 404 false unreadable)) false)))
  = 3%nat
  /\ snd (standalone (withRetry 3 false false None None)
            (alwaysAnswers (wire 404 false unreadable)) false)
     = Rejected
         (HttpFetchError
            "Unexpected error after 3 attempts: Unexpected end of JSON input"
            "https://api.example.com/test"
            (Some (Native (mkJsError "SyntaxError"
                             "Unexpected end of JSON input")))).
Proof. split; vm_compute; reflexivity. Qed.

(* ================================================================== *)
(** ** The lifecycle orchestrator *)

Lemma evolves_refl (w : World) : evolves w w [] 0.
Proof. split; [now rewrite app_nil_r | lia]. Qed.

Lemma evolves_trans (w1 w2 w3 : World) (l1 l2 : list (string * AnyEvent))
  (n1 n2 : nat) :
  evolves w1 w2 l1 n1 -> evolves w2 w3 l2 n2 ->
  evolves w1 w3 (l1 ++ l2) (n1 + n2).
Proof.
  intros [H1 N1] [H2 N2]. split.
  - rewrite H2, H1. now rewrite app_assoc.
  - lia.
Qed.

Lemma notify_evolves (c : DelegateCall) (w : World) :
  evolves w (notify c w) [] 0.
Proof. split; simpl; [now rewrite app_nil_r | lia]. Qed.

Lemma withRequest_evolves (r : FetchRequest) (w : World) :
  evolves w (withRequest r w) [] 0.
Proof. split; simpl; [now rewrite app_nil_r | lia]. Qed.

Lemma dispatch_evolves {P M : Type} `{EventClass P M}
  (ls : list (Listener P M)) (name : string) (e : Event P) (w w' : World)
  (res : Thrown + Event P) :
  dispatch ls name e w = (w', res) ->
  evolves w w' [(name, erase e)] 0
  /\ engineEffects w' = engineEffects w.
Proof.
  unfold dispatch. simpl.
  destruct (runListeners ls e (request w)) as [[e' r'] [t|]];
    intro Heq; inversion Heq; subst; simpl;
    (split; [split; simpl; [reflexivity | lia] | reflexivity]).
Qed.

Lemma countDispatched_app (name : string) (l1 l2 : list (string * AnyEvent)) :
  countDispatched name (l1 ++ l2)
  = (countDispatched name l1 + countDispatched name l2)%nat.
Proof. unfold countDispatched. now rewrite filter_app, length_app. Qed.

Lemma countDispatched_none (name : string) (names : list string)
  (l : list (string * AnyEvent)) :
  namedAmong names l -> ~ In name names -> countDispatched name l = 0%nat.
Proof.
  intros Hall Hnot. unfold countDispatched.
  induction Hall as [|d l Hd Hall IH]; [reflexivity|].
  simpl. destruct (String.eqb_spec (fst d) name) as [Heq|Hne].
  - exfalso. apply Hnot. now rewrite <- Heq.
  - exact IH.
Qed.

Lemma namedAmong_app (names : list string) (l1 l2 : list (string * AnyEvent)) :
  namedAmong names l1 -> namedAmong names l2 -> namedAmong names (l1 ++ l2).
Proof. intros H1 H2. apply Forall_app. now split. Qed.

(** A step that hands the bus one event and creates one object. *)
Ltac one_dispatch H :=
  apply dispatch_evolves in H; unfold evolves in H; simpl in H;
  destruct H as [[?Hlog ?Hid] ?Heff].

Lemma awaitInterception_evolves (env : Environment) (w w' : World)
  (c : Completion unit) :
  awaitInterception env w = (w', c) ->
  evolves w w' [] 0 /\ engineEffects w' = engineEffects w.
Proof.
  unfold awaitInterception.
  destruct (_requestPromise (request w)) as [[| |reason]|];
    try (intro H; inversion H; subst; split;
         [apply evolves_refl | reflexivity]);
    destruct (interception env);
    try (intro H; inversion H; subst; split;
         [apply withRequest_evolves || apply evolves_refl | reflexivity]);
    simpl;
    destruct (_requestPromise (cancel (request w))) as [[| |reason']|];
    intro H; inversion H; subst;
    (split; [apply withRequest_evolves | reflexivity]).
Qed.

Lemma dispatchRequestEvent_evolves (env : Environment) (w w' : World)
  (c : Completion FetchRequestEvent) :
  dispatchRequestEvent env w = (w', c) ->
  evolves w w'
    [(REQUEST,
      OfRequest (mkEvent (nextEventId w)
                   (mkRequestFields None (_input (request w))
                      (_fetchRequestOptions (request w)))
                   false false))] 1
  /\ engineEffects w' = engineEffects w.
Proof.
  unfold dispatchRequestEvent, newEvent. simpl.
  match goal with
  | |- context [dispatch ?ls ?n ?e ?w0] =>
      destruct (dispatch ls n e w0) as [w1 [t|event]] eqn:Hd
  end; one_dispatch Hd.
  - intro H; inversion H; subst. repeat split; simpl; assumption || lia.
  - destruct (isDefaultPrevented event).
    + match goal with
      | |- context [awaitInterception ?e ?w0] =>
          destruct (awaitInterception e w0) as [w2 [u|t|]] eqn:Ha
      end;
        apply awaitInterception_evolves in Ha;
        destruct Ha as [[Hl2 Hi2] He2]; simpl in *;
        intro H; inversion H; subst;
        rewrite app_nil_r in Hl2;
        (repeat split; simpl; [congruence | lia | congruence]).
    + intro H; inversion H; subst. repeat split; simpl; assumption || lia.
Qed.

Lemma dispatchBeforeSendEvent_evolves (env : Environment) (w w' : World)
  (res : Thrown + FetchRequestEvent) :
  dispatchBeforeSendEvent env w = (w', res) ->
  exists e, evolves w w' [(BEFORE_SEND, e)] 1
            /\ engineEffects w' = engineEffects w.
Proof.
  unfold dispatchBeforeSendEvent, newEvent. simpl.
  match goal with
  | |- context [dispatch ?ls ?n ?e ?w0] =>
      destruct (dispatch ls n e w0) as [w1 [t|event]] eqn:Hd
  end; one_dispatch Hd;
    intro H; inversion H; subst; eexists;
    (repeat split; simpl; [eassumption | lia | assumption]).
Qed.

Lemma dispatchResponseEvent_evolves (env : Environment)
  (fetchResponse : HttpResponse) (w w' : World) (res : Thrown + HttpResponse) :
  dispatchResponseEvent env fetchResponse w = (w', res) ->
  evolves w w'
    [(RESPONSE, OfResponse (mkEvent (nextEventId w) fetchResponse false false))]
    1
  /\ engineEffects w' = engineEffects w.
Proof.
  unfold dispatchResponseEvent, newEvent. simpl.
  match goal with
  | |- context [dispatch ?ls ?n ?e ?w0] =>
      destruct (dispatch ls n e w0) as [w1 [t|event]] eqn:Hd
  end; one_dispatch Hd.
  - intro H; inversion H; subst. repeat split; simpl; assumption || lia.
  - destruct (isDefaultPrevented event);
      [|destruct (succeeded fetchResponse || serverInfo fetchResponse)];
      intro H; inversion H; subst;
      (repeat split; simpl; assumption || lia).
Qed.

Lemma dispatchErrorEvent_evolves (env : Environment) (err : Thrown)
  (w w' : World) (res : Thrown + FetchRequestErrorEvent) :
  dispatchErrorEvent env err w = (w', res) ->
  evolves w w' [(ERROR, freshErrorEvent (nextEventId w) err)] 1
  /\ engineEffects w' = engineEffects w.
Proof.
  unfold dispatchErrorEvent, newEvent. simpl. intro Hd. one_dispatch Hd.
  repeat split; simpl; assumption || lia.
Qed.

Lemma willDelegateErrorHandling_evolves (env : Environment) (err : Thrown)
  (w w' : World) (res : Thrown + bool) :
  willDelegateErrorHandling env err w = (w', res) ->
  evolves w w' [(ERROR, freshErrorEvent (nextEventId w) err)] 1
  /\ engineEffects w' = engineEffects w.
Proof.
  unfold willDelegateErrorHandling, newEvent. simpl.
  match goal with
  | |- context [dispatch ?ls ?n ?e ?w0] =>
      destruct (dispatch ls n e w0) as [w1 [t|event]] eqn:Hd
  end; one_dispatch Hd;
    intro H; inversion H; subst;
    (repeat split; simpl; assumption || lia).
Qed.

Lemma finallyBlock_evolves (env : Environment)
  (fetchResponse : option HttpResponse) (err : option Thrown)
  (pending : Completion HttpResponse) (w w' : World)
  (c : Completion HttpResponse) :
  finallyBlock env fetchResponse err pending w = (w', c) ->
  evolves w w'
    [(TERMINATE,
      OfTerminate (mkEvent (nextEventId w)
                     (mkTerminateFields fetchResponse err) false false))] 1
  /\ engineEffects w' = engineEffects w
  /\ (pending <> NeverSettles -> c <> NeverSettles).
Proof.
  unfold finallyBlock, dispatchTerminateEvent, newEvent. simpl.
  match goal with
  | |- context [dispatch ?ls ?n ?e ?w0] =>
      destruct (dispatch ls n e w0) as [w1 [t|event]] eqn:Hd
  end; one_dispatch Hd;
    intro H; inversion H; subst;
    (repeat split; simpl; try assumption; try lia;
     intro Hp; try exact Hp; discriminate).
Qed.

Lemma awaitSafeFetch_evolves (env : Environment) (w w' : World)
  (c : Completion HttpResponse) :
  awaitSafeFetch env w = (w', c) -> evolves w w' [] 0.
Proof.
  unfold awaitSafeFetch.
  destruct (safeFetch FetchRequest tokenTripped cancel
              (_fetchRequestOptions (request w)) (scenario env) (request w))
    as [s c0].
  intro H; inversion H; subst. split; simpl; [now rewrite app_nil_r | lia].
Qed.

Lemma runActions_quiet {P M : Type} `{EventClass P M}
  (acts : list (Action M)) :
  existsb raises acts = false ->
  forall (e : Event P) (r : FetchRequest), snd (runActions acts e r) = None.
Proof.
  induction acts as [|a acts IH]; intros Hq e r; [reflexivity|].
  simpl in Hq. apply orb_false_iff in Hq. destruct Hq as [Ha Hq].
  destruct a; simpl in *; try discriminate; try (apply IH; exact Hq).
  destruct (invoke m e r) as [e' r']. apply IH; exact Hq.
Qed.

Lemma runActions_payload {P M : Type} `{EventClass P M}
  (acts : list (Action M)) :
  existsb callsMethod acts = false ->
  forall (e : Event P) (r : FetchRequest),
    ev_payload (fst (fst (runActions acts e r))) = ev_payload e.
Proof.
  induction acts as [|a acts IH]; intros Hq e r; [reflexivity|].
  simpl in Hq. apply orb_false_iff in Hq. destruct Hq as [Ha Hq].
  destruct a; simpl in *; try discriminate; try reflexivity;
    rewrite (IH Hq); reflexivity.
Qed.

Lemma runListeners_quiet {P M : Type} `{EventClass P M}
  (ls : list (Listener P M)) :
  neverRaise ls ->
  forall (e : Event P) (r : FetchRequest), snd (runListeners ls e r) = None.
Proof.
  induction ls as [|l ls IH]; intros Hq e r; [reflexivity|].
  simpl.
  pose proof (runActions_quiet (l e r) (Hq l e r (or_introl eq_refl)) e r)
    as Ha.
  destruct (runActions (l e r) e r) as [[e' r'] [t|]]; simpl in Ha;
    [discriminate|].
  destruct (ev_propagationStopped e'); [reflexivity|].
  apply IH. intros l0 e0 r0 Hin. apply Hq. now right.
Qed.

Lemma runListeners_payload {P M : Type} `{EventClass P M}
  (ls : list (Listener P M)) :
  neverCall ls ->
  forall (e : Event P) (r : FetchRequest),
    ev_payload (fst (fst (runListeners ls e r))) = ev_payload e.
Proof.
  induction ls as [|l ls IH]; intros Hq e r; [reflexivity|].
  simpl.
  pose proof (runActions_payload (l e r) (Hq l e r (or_introl eq_refl)) e r)
    as Ha.
  destruct (runActions (l e r) e r) as [[e' r'] [t|]]; simpl in Ha;
    [exact Ha|].
  destruct (ev_propagationStopped e'); [exact Ha|].
  rewrite IH; [exact Ha|]. intros l0 e0 r0 Hin. apply Hq. now right.
Qed.

(** Listeners that neither throw nor replace the response let the
    RESPONSE phase hand back the response it was given. *)
Lemma dispatchResponseEvent_untouched (env : Environment)
  (fetchResponse : HttpResponse) (w : World) :
  neverRaise (onResponse env) -> neverCall (onResponse env) ->
  snd (dispatchResponseEvent env fetchResponse w) = inr fetchResponse.
Proof.
  intros Hq Hc. unfold dispatchResponseEvent, newEvent, dispatch. simpl.
  match goal with
  | |- context [runListeners ?ls ?e ?r] =>
      pose proof (runListeners_quiet ls Hq e r) as Hn;
      pose proof (runListeners_payload ls Hc e r) as Hp;
      destruct (runListeners ls e r) as [[e' r'] [t|]]
  end; simpl in Hn, Hp; [discriminate|]. subst.
  destruct (isDefaultPrevented e');
    [|destruct (succeeded (ev_payload e') || serverInfo (ev_payload e'))];
    reflexivity.
Qed.

Lemma dispatchTerminateEvent_quiet (env : Environment)
  (fetchResponse : option HttpResponse) (err : option Thrown) (w : World) :
  neverRaise (onTerminate env) ->
  snd (dispatchTerminateEvent env fetchResponse err w) = None.
Proof.
  intros Hq. unfold dispatchTerminateEvent, newEvent, dispatch. simpl.
  match goal with
  | |- context [runListeners ?ls ?e ?r] =>
      pose proof (runListeners_quiet ls Hq e r) as Hn;
      destruct (runListeners ls e r) as [[e' r'] [t|]]
  end; simpl in Hn; [discriminate | reflexivity].
Qed.

Lemma tryBlock_evolves (env : Environment) (requestEvent : FetchRequestEvent)
  (w w' : World) (fetchResponse : option HttpResponse)
  (c : Completion HttpResponse) :
  tryBlock env requestEvent w = (w', fetchResponse, c) ->
  exists l n, evolves w w' l n /\ namedAmong [BEFORE_SEND; RESPONSE] l.
Proof.
  unfold tryBlock.
  assert (Hfin : forall w0 l0 n0 (o : Completion HttpResponse),
             evolves w w0 l0 n0 -> namedAmong [BEFORE_SEND; RESPONSE] l0 ->
             match o with
             | NeverSettles => (w0, None, NeverSettles)
             | Rejected t => (w0, None, Rejected t)
             | Fulfilled fr =>
                 match dispatchResponseEvent env fr w0 with
                 | (w1, inl t) => (w1, Some fr, Rejected t)
                 | (w1, inr fr') => (w1, Some fr', Fulfilled fr')
                 end
             end = (w', fetchResponse, c) ->
             exists l n, evolves w w' l n
                         /\ namedAmong [BEFORE_SEND; RESPONSE] l).
  { intros w0 l0 n0 o Hev Hnm. destruct o as [fr|t|].
    - destruct (dispatchResponseEvent env fr w0) as [w1 res] eqn:Hd.
      apply dispatchResponseEvent_evolves in Hd. destruct Hd as [Hd _].
      pose proof (evolves_trans _ _ _ _ _ _ _ Hev Hd) as Ht.
      assert (Hnm' : namedAmong [BEFORE_SEND; RESPONSE]
                       (l0 ++ [(RESPONSE,
                                OfResponse (mkEvent (nextEventId w0) fr
                                              false false))])).
      { apply namedAmong_app; [exact Hnm|].
        constructor; [simpl; auto | constructor]. }
      destruct res; intro H; inversion H; subst; eauto.
    - intro H; inversion H; subst; eauto.
    - intro H; inversion H; subst; eauto. }
  destruct (rq_response (ev_payload requestEvent)) as [response|].
  - exact (Hfin (notify requestStarted w) [] 0%nat (Fulfilled response)
             (notify_evolves requestStarted w) (Forall_nil _)).
  - destruct (dispatchBeforeSendEvent env (notify requestStarted w))
      as [w1 [t|beforeSendEvent]] eqn:Hb;
      apply dispatchBeforeSendEvent_evolves in Hb;
      destruct Hb as (e & Hb & _);
      pose proof (evolves_trans _ _ _ _ _ _ _
                    (notify_evolves requestStarted w) Hb) as H1;
      simpl in H1;
      assert (Hnm : namedAmong [BEFORE_SEND; RESPONSE] [(BEFORE_SEND, e)])
        by (constructor; [simpl; auto | constructor]).
    + exact (Hfin _ _ _ (Rejected t) H1 Hnm).
    + destruct (rq_response (ev_payload beforeSendEvent)) as [response|].
      * exact (Hfin _ _ _ (Fulfilled response) H1 Hnm).
      * match goal with
        | |- context [awaitSafeFetch env ?w0] =>
            destruct (awaitSafeFetch env w0) as [w2 o] eqn:Hs;
            assert (H0 : evolves w1 w0 [] 0)
              by (destruct (_abortController (request w1));
                  [apply withRequest_evolves | apply evolves_refl])
        end.
        apply awaitSafeFetch_evolves in Hs.
        pose proof (evolves_trans _ _ _ _ _ _ _ H1
                      (evolves_trans _ _ _ _ _ _ _ H0 Hs)) as H2.
        simpl in H2. exact (Hfin _ _ _ o H2 Hnm).
Qed.

Lemma catchBlockOfHandle_evolves (env : Environment)
  (fetchResponse : option HttpResponse) (err : Thrown) (w w' : World)
  (c : Completion HttpResponse) :
  catchBlockOfHandle env fetchResponse err w = (w', c) ->
  exists l e n,
    evolves w w' (l ++ [(TERMINATE, OfTerminate e)]) n
    /\ namedAmong [ERROR] l
    /\ engineEffects w' = engineEffects w
    /\ c <> NeverSettles.
Proof.
  unfold catchBlockOfHandle.
  assert (Herr : forall id, namedAmong [ERROR] [(ERROR, freshErrorEvent id err)])
    by (intro id; constructor; [simpl; auto | constructor]).
  assert (Hfin : forall w0 l0 n0 fr e0 pending,
             evolves w w0 l0 n0 -> namedAmong [ERROR] l0 ->
             engineEffects w0 = engineEffects w ->
             pending <> NeverSettles ->
             finallyBlock env fr e0 pending w0 = (w', c) ->
             exists l e n,
               evolves w w' (l ++ [(TERMINATE, OfTerminate e)]) n
               /\ namedAmong [ERROR] l
               /\ engineEffects w' = engineEffects w
               /\ c <> NeverSettles).
  { intros w0 l0 n0 fr e0 pending Hev Hnm Hef Hp Hf.
    apply finallyBlock_evolves in Hf. destruct Hf as (Hf & Hef' & Hc).
    pose proof (evolves_trans _ _ _ _ _ _ _ Hev Hf) as Ht.
    eexists l0, _, _.
    split; [exact Ht | split; [exact Hnm | split; [congruence|]]].
    exact (Hc Hp). }
  destruct (dispatchErrorEvent env err w) as [w1 [t|errorEvent]] eqn:Hd;
    apply dispatchErrorEvent_evolves in Hd; destruct Hd as [Hd He].
  - apply (Hfin _ _ _ _ _ _ Hd (Herr _) He). discriminate.
  - destruct (recoveryOf errorEvent) as [response|].
    + apply (Hfin _ _ _ _ _ _ Hd (Herr _) He). discriminate.
    + destruct (willDelegateErrorHandling env err w1)
        as [w2 [t|delegated]] eqn:Hw;
        apply willDelegateErrorHandling_evolves in Hw;
        destruct Hw as [Hw He2];
        pose proof (evolves_trans _ _ _ _ _ _ _ Hd Hw) as H2.
      * apply (Hfin _ _ _ _ _ _ H2); [|congruence|discriminate].
        apply namedAmong_app; apply Herr.
      * assert (H3 : evolves w
                       (if delegated then notify (requestErrored err) w2
                        else w2)
                       ([(ERROR, freshErrorEvent (nextEventId w) err)]
                        ++ [(ERROR, freshErrorEvent (nextEventId w1) err)])
                       (1 + 1)).
        { destruct delegated; [|exact H2].
          pose proof (evolves_trans _ _ _ _ _ _ _ H2
                        (notify_evolves (requestErrored err) w2)) as H3.
          rewrite app_nil_r, Nat.add_0_r in H3. exact H3. }
        apply (Hfin _ _ _ _ _ _ H3); [| |discriminate].
        -- apply namedAmong_app; apply Herr.
        -- destruct delegated; simpl; congruence.
Qed.

(** The handler of an error that the ERROR phase leaves unrecovered hands
    the bus two fresh ERROR events for that error, one from
    [dispatchErrorEvent] and one from [willDelegateErrorHandling], and
    then the TERMINATE event. *)
Lemma catchBlockOfHandle_unrecovered (env : Environment)
  (fetchResponse : option HttpResponse) (err : Thrown) (w w1 w' : World)
  (errorEvent : FetchRequestErrorEvent) (c : Completion HttpResponse) :
  dispatchErrorEvent env err w = (w1, inr errorEvent) ->
  recoveryOf errorEvent = None ->
  catchBlockOfHandle env fetchResponse err w = (w', c) ->
  dispatchedEvents w'
  = (dispatchedEvents w
     ++ [(ERROR, freshErrorEvent (nextEventId w) err);
         (ERROR, freshErrorEvent (S (nextEventId w)) err);
         (TERMINATE,
          OfTerminate (mkEvent (S (S (nextEventId w)))
                         (mkTerminateFields fetchResponse (Some err))
                         false false))])%list.
Proof.
  intros Hd Hrec. unfold catchBlockOfHandle. rewrite Hd, Hrec.
  apply dispatchErrorEvent_evolves in Hd. destruct Hd as [[Hl1 Hi1] _].
  destruct (willDelegateErrorHandling env err w1) as [w2 [t|delegated]] eqn:Hw;
    apply willDelegateErrorHandling_evolves in Hw;
    destruct Hw as [[Hl2 Hi2] _]; intro Hf;
    apply finallyBlock_evolves in Hf; destruct Hf as ([Hl3 Hi3] & _ & _).
  - rewrite Hl3, Hl2, Hl1, Hi2, Hi1. rewrite <- !app_assoc. simpl.
    replace (nextEventId w + 1)%nat with (S (nextEventId w)) by lia.
    replace (S (nextEventId w) + 1)%nat with (S (S (nextEventId w))) by lia.
    reflexivity.
  - assert (Hl : dispatchedEvents
                   (if delegated then notify (requestErrored err) w2 else w2)
                 = dispatchedEvents w2) by (destruct delegated; reflexivity).
    assert (Hi : nextEventId
                   (if delegated then notify (requestErrored err) w2 else w2)
                 = nextEventId w2) by (destruct delegated; reflexivity).
    rewrite Hl3, Hl, Hi, Hl2, Hl1, Hi2, Hi1. rewrite <- !app_assoc. simpl.
    replace (nextEventId w + 1)%nat with (S (nextEventId w)) by lia.
    replace (S (nextEventId w) + 1)%nat with (S (S (nextEventId w))) by lia.
    reflexivity.
Qed.

Lemma not_terminate_before : ~ In TERMINATE [BEFORE_SEND; RESPONSE].
Proof. intros [H|[H|[]]]; discriminate H. Qed.

Lemma not_terminate_error : ~ In TERMINATE [ERROR].
Proof. intros [H|[]]; discriminate H. Qed.

Lemma not_before_send_error : ~ In BEFORE_SEND [ERROR].
Proof. intros [H|[]]; discriminate H. Qed.

(** C1, as amended.  A [handle()] call that passes the entry guard (the
    request was not cancelled beforehand), gets through its REQUEST phase
    and settles has handed the bus the TERMINATE event exactly once, as
    the last event of the call: on success, on a short-circuit, on a
    recovered and on an unrecovered error, and when a listener of a later
    phase throws. *)
Theorem terminate_exactly_once (env : Environment) (w w1 w' : World)
  (requestEvent : FetchRequestEvent) (c : Completion HttpResponse) :
  _isCancelled (request w) = false ->
  dispatchRequestEvent env (notify prepareRequest w)
  = (w1, Fulfilled requestEvent) ->
  handle env w = (w', c) ->
  c <> NeverSettles ->
  exists before e,
    dispatchedEvents w'
    = (dispatchedEvents w ++ before ++ [(TERMINATE, OfTerminate e)])%list
    /\ countDispatched TERMINATE before = 0%nat
    /\ countDispatched TERMINATE (dispatchedEvents w')
       = S (countDispatched TERMINATE (dispatchedEvents w)).
Proof.
  intros Hguard Hreq Hh Hsettled.
  unfold handle in Hh. rewrite Hguard, Hreq in Hh.
  apply dispatchRequestEvent_evolves in Hreq.
  destruct Hreq as [[Hl1 _] _]. simpl in Hl1.
  destruct (tryBlock env requestEvent w1) as [[w2 fetchResponse] o] eqn:Ht.
  apply tryBlock_evolves in Ht. destruct Ht as (l2 & n2 & [Hl2 _] & Hn2).
  assert (Hgoal : forall l3 e,
            dispatchedEvents w'
            = (dispatchedEvents w2 ++ l3 ++ [(TERMINATE, OfTerminate e)])%list ->
            namedAmong [ERROR] l3 ->
            exists before e0,
              dispatchedEvents w'
              = (dispatchedEvents w ++ before
                 ++ [(TERMINATE, OfTerminate e0)])%list
              /\ countDispatched TERMINATE before = 0%nat
              /\ countDispatched TERMINATE (dispatchedEvents w')
                 = S (countDispatched TERMINATE (dispatchedEvents w))).
  { intros l3 e Hl3 Hn3.
    assert (Hb : countDispatched TERMINATE
                   ([(REQUEST,
                      OfRequest (mkEvent (nextEventId w)
                                   (mkRequestFields None (_input (request w))
                                      (_fetchRequestOptions (request w)))
                                   false false))] ++ l2 ++ l3) = 0%nat).
    { rewrite !countDispatched_app.
      rewrite (countDispatched_none _ _ _ Hn2 not_terminate_before).
      rewrite (countDispatched_none _ _ _ Hn3 not_terminate_error).
      reflexivity. }
    eexists _, e. split; [|split; [exact Hb|]].
    - rewrite Hl3, Hl2, Hl1. rewrite <- !app_assoc. reflexivity.
    - rewrite Hl3, Hl2, Hl1. rewrite !countDispatched_app.
      rewrite (countDispatched_none _ _ _ Hn2 not_terminate_before).
      rewrite (countDispatched_none _ _ _ Hn3 not_terminate_error).
      unfold countDispatched. simpl. lia. }
  destruct o as [response|err|].
  - apply finallyBlock_evolves in Hh. destruct Hh as ([Hl3 _] & _ & _).
    apply (Hgoal [] _ Hl3). constructor.
  - apply catchBlockOfHandle_evolves in Hh.
    destruct Hh as (l3 & e & n3 & [Hl3 _] & Hn3 & _ & _).
    apply (Hgoal l3 e); [|exact Hn3].
    rewrite Hl3. reflexivity.
  - inversion Hh; subst. contradiction.
Qed.

(** C1 fails for a request cancelled before [handle()] is called: the
    entry guard throws ahead of the [try] block, and no event at all,
    TERMINATE included, reaches the bus.  It also fails when the REQUEST
    phase itself rejects, here on a [cancel()] issued by a listener that
    prevented the default action: the phase runs ahead of the [try]
    block too. *)
Lemma terminate_skipped_when_cancelled_before_handle :
  handle (noListeners (alwaysAnswers (wire 200 false readable)))
    (initialWorld (cancel (newFetchRequest plainOptions)))
  = (initialWorld (cancel (newFetchRequest plainOptions)),
     Rejected (HttpFetchError "Request was cancelled"
                 "https://api.example.com/test" None))
  /\ countDispatched TERMINATE
       (dispatchedEvents
          (fst (handle (noListeners (alwaysAnswers (wire 200 false readable)))
                  (initialWorld (cancel (newFetchRequest plainOptions))))))
     = 0%nat
  /\ snd (handle (requestListeners [preventAndCancel]) freshWorld)
     = Rejected (HttpFetchError "Request was cancelled by user"
                   "https://api.example.com/test" None)
  /\ countDispatched TERMINATE
       (dispatchedEvents
          (fst (handle (requestListeners [preventAndCancel]) freshWorld)))
     = 0%nat.
Proof. repeat split; vm_compute; reflexivity. Qed.

Lemma terminate_exactly_once_witness :
  exists before e,
    dispatchedEvents (fst (handle (noListeners alwaysFails) freshWorld))
    = (dispatchedEvents freshWorld ++ before
       ++ [(TERMINATE, OfTerminate e)])%list
    /\ countDispatched TERMINATE before = 0%nat
    /\ countDispatched TERMINATE
         (dispatchedEvents (fst (handle (noListeners alwaysFails) freshWorld)))
       = S (countDispatched TERMINATE (dispatchedEvents freshWorld)).
Proof.
  apply (terminate_exactly_once (noListeners alwaysFails) freshWorld
           (fst (dispatchRequestEvent (noListeners alwaysFails)
                   (notify prepareRequest freshWorld)))
           (fst (handle (noListeners alwaysFails) freshWorld))
           firstRequestEvent
           (snd (handle (noListeners alwaysFails) freshWorld)));
    vm_compute; (reflexivity || discriminate).
Defined.

(** C9, as amended.  When the REQUEST phase of a [handle()] call completes
    with a response supplied by a listener, the engine is not run (no
    network invocation), no BEFORE_SEND event is dispatched, and the next
    event on the bus is the RESPONSE event carrying that response; and
    when, in addition, no RESPONSE listener replaces the response or
    throws and no TERMINATE listener throws, [handle()] resolves with
    exactly that response. *)
Theorem request_phase_short_circuit (env : Environment) (w w1 w' : World)
  (requestEvent : FetchRequestEvent) (response : HttpResponse)
  (c : Completion HttpResponse) :
  _isCancelled (request w) = false ->
  dispatchRequestEvent env (notify prepareRequest w)
  = (w1, Fulfilled requestEvent) ->
  rq_response (ev_payload requestEvent) = Some response ->
  handle env w = (w', c) ->
  engineEffects w' = engineEffects w
  /\ countDispatched BEFORE_SEND (dispatchedEvents w')
     = countDispatched BEFORE_SEND (dispatchedEvents w)
  /\ (exists later,
        dispatchedEvents w'
        = (dispatchedEvents w1
           ++ (RESPONSE,
               OfResponse (mkEvent (nextEventId w1) response false false))
              :: later)%list)
  /\ (neverRaise (onResponse env) -> neverCall (onResponse env) ->
      neverRaise (onTerminate env) -> c = Fulfilled response).
Proof.
  intros Hguard Hreq Hsup Hh.
  unfold handle in Hh. rewrite Hguard, Hreq in Hh.
  apply dispatchRequestEvent_evolves in Hreq.
  destruct Hreq as [[Hl1 _] He1]. simpl in Hl1, He1.
  unfold tryBlock in Hh. rewrite Hsup in Hh.
  pose proof (dispatchResponseEvent_untouched env response
                (notify requestStarted w1)) as Hquiet.
  destruct (dispatchResponseEvent env response (notify requestStarted w1))
    as [w2 res] eqn:Hd.
  apply dispatchResponseEvent_evolves in Hd.
  destruct Hd as [[Hl2 _] He2]. simpl in Hl2, He2, Hquiet.
  assert (Hshape : forall l3 e,
            dispatchedEvents w'
            = (dispatchedEvents w2 ++ l3 ++ [(TERMINATE, OfTerminate e)])%list ->
            namedAmong [ERROR] l3 ->
            countDispatched BEFORE_SEND (dispatchedEvents w')
            = countDispatched BEFORE_SEND (dispatchedEvents w)
            /\ (exists later,
                  dispatchedEvents w'
                  = (dispatchedEvents w1
                     ++ (RESPONSE,
                         OfResponse (mkEvent (nextEventId w1) response
                                       false false)) :: later)%list)).
  { intros l3 e Hl3 Hn3. split.
    - rewrite Hl3, Hl2, Hl1. rewrite !countDispatched_app.
      rewrite (countDispatched_none _ _ _ Hn3 not_before_send_error).
      unfold countDispatched. simpl. lia.
    - exists (l3 ++ [(TERMINATE, OfTerminate e)])%list.
      rewrite Hl3, Hl2. rewrite <- app_assoc. reflexivity. }
  destruct res as [t|fr'].
  - apply catchBlockOfHandle_evolves in Hh.
    destruct Hh as (l3 & e & n3 & [Hl3 _] & Hn3 & He3 & _).
    destruct (Hshape l3 e) as [Hc Hl]; [now rewrite Hl3 | exact Hn3 |].
    split; [congruence | split; [exact Hc | split; [exact Hl|]]].
    intros Hq1 Hq2 _. specialize (Hquiet Hq1 Hq2). discriminate.
  - pose proof (dispatchTerminateEvent_quiet env (Some fr') None w2) as Hqt.
    pose proof Hh as Hf.
    apply finallyBlock_evolves in Hf. destruct Hf as ([Hl3 _] & He3 & _).
    destruct (Hshape [] _ Hl3) as [Hc Hl]; [constructor|].
    split; [congruence | split; [exact Hc | split; [exact Hl|]]].
    intros Hq1 Hq2 Hq3. specialize (Hquiet Hq1 Hq2). specialize (Hqt Hq3).
    inversion Hquiet; subst fr'.
    unfold finallyBlock in Hh.
    destruct (dispatchTerminateEvent env (Some response) None w2)
      as [w3 [t|]]; simpl in Hqt; [discriminate|].
    inversion Hh; reflexivity.
Qed.

Lemma neverRaise_nil {P M : Type} : neverRaise (@nil (Listener P M)).
Proof. intros l e r []. Qed.

Lemma neverCall_nil {P M : Type} : neverCall (@nil (Listener P M)).
Proof. intros l e r []. Qed.

Lemma request_phase_short_circuit_witness :
  engineEffects (fst (handle (requestListeners [supplyResponse]) freshWorld))
  = engineEffects freshWorld
  /\ countDispatched BEFORE_SEND
       (dispatchedEvents
          (fst (handle (requestListeners [supplyResponse]) freshWorld)))
     = countDispatched BEFORE_SEND (dispatchedEvents freshWorld)
  /\ snd (handle (requestListeners [supplyResponse]) freshWorld)
     = Fulfilled cachedResponse.
Proof.
  destruct (request_phase_short_circuit (requestListeners [supplyResponse])
              freshWorld
              (fst (dispatchRequestEvent (requestListeners [supplyResponse])
                      (notify prepareRequest freshWorld)))
              (fst (handle (requestListeners [supplyResponse]) freshWorld))
              (requestSetResponse (Some cachedResponse) firstRequestEvent)
              cachedResponse
              (snd (handle (requestListeners [supplyResponse]) freshWorld)))
    as (He & Hb & _ & Hc); try (vm_compute; reflexivity).
  split; [exact He | split; [exact Hb|]].
  apply Hc; [apply neverRaise_nil | apply neverCall_nil | apply neverRaise_nil].
Defined.

(** C9 fails when the listener that supplies the response also prevents
    the default action and nobody settles the interception: [handle()]
    waits forever.  It also fails when a RESPONSE listener throws:
    [handle()] rejects. *)
Lemma supplied_response_not_returned :
  hasResponse
    (fst (fst (runListeners [supplyAndPrevent] firstRequestEvent
                 (newRequestPromise (newFetchRequest plainOptions)))))
  = true
  /\ snd (handle (requestListeners [supplyAndPrevent]) freshWorld)
     = NeverSettles
  /\ snd (handle shortCircuitThenRaise freshWorld) = Rejected listenerFailure.
Proof. repeat split; vm_compute; reflexivity. Qed.

Lemma not_error_before : ~ In ERROR [BEFORE_SEND; RESPONSE].
Proof. intros [H|[H|[]]]; discriminate H. Qed.

(** C10, with its premise made explicit on the stages of [handle()]: the
    REQUEST phase completed, the [try] block raised the error [err], and
    the first ERROR dispatch returned with the error unrecovered (no
    listener threw in it and none attached a response).  Then the bus is
    handed the ERROR event twice for that same error, as two distinct
    freshly constructed event objects: once by [dispatchErrorEvent], once
    more by [willDelegateErrorHandling]; the TERMINATE event follows.
    The ERROR listeners run on both objects: the first run yields the
    event [dispatchErrorEvent] returns, the second run starts from the
    request as the first left it and decides, by the default action of
    the second object, whether the delegate is told [requestErrored]; an
    exception in the second run, or in the TERMINATE listeners that run
    last, replaces the error [handle()] ends in. *)
Theorem unrecovered_error_dispatched_twice (env : Environment)
  (w w1 w2 w3 w' : World) (requestEvent : FetchRequestEvent)
  (fetchResponse : option HttpResponse) (err : Thrown)
  (errorEvent : FetchRequestErrorEvent) (c : Completion HttpResponse) :
  _isCancelled (request w) = false ->
  dispatchRequestEvent env (notify prepareRequest w)
  = (w1, Fulfilled requestEvent) ->
  tryBlock env requestEvent w1 = (w2, fetchResponse, Rejected err) ->
  dispatchErrorEvent env err w2 = (w3, inr errorEvent) ->
  recoveryOf errorEvent = None ->
  handle env w = (w', c) ->
  let firstRun :=
    runListeners (onError env)
      (mkEvent (nextEventId w2) (mkErrorFields None err false) false false)
      (request w2) in
  let secondRun :=
    runListeners (onError env)
      (mkEvent (S (nextEventId w2)) (mkErrorFields None err false)
         false false)
      (snd (fst firstRun)) in
  let lastRun :=
    runListeners (onTerminate env)
      (mkEvent (S (S (nextEventId w2)))
         (mkTerminateFields fetchResponse (Some err)) false false)
      (snd (fst secondRun)) in
  dispatchedEvents w'
  = (dispatchedEvents w2
     ++ [(ERROR, freshErrorEvent (nextEventId w2) err);
         (ERROR, freshErrorEvent (S (nextEventId w2)) err);
         (TERMINATE,
          OfTerminate (mkEvent (S (S (nextEventId w2)))
                         (mkTerminateFields fetchResponse (Some err))
                         false false))])%list
  /\ countDispatched ERROR (dispatchedEvents w')
     = (countDispatched ERROR (dispatchedEvents w) + 2)%nat
  /\ idsDispatched ERROR (dispatchedEvents w')
     = (idsDispatched ERROR (dispatchedEvents w)
        ++ [nextEventId w2; S (nextEventId w2)])%list
  /\ firstRun = (errorEvent, request w3, None)
  /\ request w' = snd (fst lastRun)
  /\ delegateCalls w'
     = (delegateCalls w2
        ++ match snd secondRun with
           | Some _ => []
           | None =>
               if isDefaultPrevented (fst (fst secondRun)) then []
               else [requestErrored err]
           end
        ++ match snd lastRun with
           | Some _ => []
           | None => [requestFinished]
           end)%list
  /\ c = match snd lastRun, snd secondRun with
         | Some t, _ => Rejected t
         | None, Some t => Rejected t
         | None, None => Rejected err
         end.
Proof.
  intros Hguard Hreq Htry Hd Hrec Hh. cbv zeta.
  unfold handle in Hh. rewrite Hguard, Hreq, Htry in Hh.
  pose proof (catchBlockOfHandle_unrecovered _ _ _ _ _ _ _ _ Hd Hrec Hh)
    as Hlog.
  apply dispatchRequestEvent_evolves in Hreq.
  destruct Hreq as [[Hl1 _] _]. simpl in Hl1.
  apply tryBlock_evolves in Htry. destruct Htry as (l2 & n2 & [Hl2 _] & Hn2).
  assert (Hnone : filter (fun d => String.eqb (fst d) ERROR) l2 = []).
  { pose proof (countDispatched_none _ _ _ Hn2 not_error_before) as H0.
    unfold countDispatched in H0. now apply length_zero_iff_nil. }
  split; [exact Hlog|].
  split.
  { rewrite Hlog, Hl2, Hl1. unfold countDispatched.
    rewrite !filter_app, Hnone. simpl. rewrite !app_nil_r.
    rewrite length_app. reflexivity. }
  split.
  { rewrite Hlog, Hl2, Hl1. unfold idsDispatched.
    rewrite !filter_app, Hnone. simpl. rewrite !app_nil_r.
    rewrite map_app. reflexivity. }
  clear Hlog Hl1 Hl2 Hn2 Hnone.
  unfold catchBlockOfHandle in Hh. rewrite Hd, Hrec in Hh.
  unfold dispatchErrorEvent, newEvent, dispatch in Hd.
  cbn [request dispatchedEvents delegateCalls engineEffects nextEventId]
    in Hd.
  destruct (runListeners (onError env) _ (request w2)) as [[e1 r1] [t1|]];
    inversion Hd; subst w3 e1; clear Hd.
  unfold willDelegateErrorHandling, newEvent, dispatch, withRequest in Hh.
  cbn [request dispatchedEvents delegateCalls engineEffects nextEventId
       fst snd] in Hh.
  cbn [request withRequest fst snd].
  destruct (runListeners (onError env) _ r1) as [[e2 r2] [t2|]];
    [|destruct (isDefaultPrevented e2) eqn:Hp];
    unfold finallyBlock, dispatchTerminateEvent, newEvent, dispatch,
      withRequest, notify in Hh;
    cbn [request dispatchedEvents delegateCalls engineEffects nextEventId
         fst snd negb] in Hh;
    cbn [fst snd];
    destruct (runListeners (onTerminate env) _ r2) as [[e3 r3] [t3|]];
    inversion Hh; subst w' c;
    cbn [request dispatchedEvents delegateCalls engineEffects nextEventId
         fst snd];
    rewrite ?Hp, ?app_nil_r, <- ?app_assoc; repeat split; reflexivity.
Qed.

Lemma unrecovered_error_dispatched_twice_witness :
  countDispatched ERROR
    (dispatchedEvents (fst (handle errorListenerTellsRunsApart freshWorld)))
  = 2%nat
  /\ idsDispatched ERROR
       (dispatchedEvents
          (fst (handle errorListenerTellsRunsApart freshWorld)))
     = [2; 3]%nat
  /\ _isCancelled
       (request (fst (handle errorListenerTellsRunsApart freshWorld)))
     = true
  /\ delegateCalls (fst (handle errorListenerTellsRunsApart freshWorld))
     = [prepareRequest; requestStarted; requestFinished]
  /\ snd (handle errorListenerTellsRunsApart freshWorld)
     = Rejected exhaustedBudget.
Proof.
  destruct (unrecovered_error_dispatched_twice errorListenerTellsRunsApart
              freshWorld
              (fst (dispatchRequestEvent errorListenerTellsRunsApart
                      (notify prepareRequest freshWorld)))
              (fst (fst (tryBlock errorListenerTellsRunsApart
                           firstRequestEvent
                           (fst (dispatchRequestEvent
                                   errorListenerTellsRunsApart
                                   (notify prepareRequest freshWorld))))))
              (fst (dispatchErrorEvent errorListenerTellsRunsApart
                      exhaustedBudget
                      (fst (fst (tryBlock errorListenerTellsRunsApart
                                   firstRequestEvent
                                   (fst (dispatchRequestEvent
                                           errorListenerTellsRunsApart
                                           (notify prepareRequest
                                              freshWorld))))))))
              (fst (handle errorListenerTellsRunsApart freshWorld))
              firstRequestEvent None exhaustedBudget firstErrorEvent
              (snd (handle errorListenerTellsRunsApart freshWorld)))
    as (_ & Hcount & Hids & _ & Hreq & Hcalls & Hc);
    try (vm_compute; reflexivity).
  split; [exact Hcount|]. split; [exact Hids|].
  split; [rewrite Hreq; vm_compute; reflexivity|].
  split; [rewrite Hcalls; vm_compute; reflexivity|].
  rewrite Hc. vm_compute. reflexivity.
Defined.

(** C10 fails for invocations that end in an error, with no listener
    attaching a response, on another path.  When an ERROR listener throws
    in the first dispatch, [handle()] ends in that exception and the
    ERROR event was dispatched once; when a REQUEST listener throws,
    [handle()] ends in that exception ahead of the [try] block and no
    ERROR event was dispatched; and when a TERMINATE listener throws
    after a request that was answered, [handle()] ends in that exception
    and no ERROR event was dispatched either. *)
Lemma error_not_always_dispatched_twice :
  (snd (handle errorListenerRaises freshWorld) = Rejected listenerFailure
   /\ countDispatched ERROR
        (dispatchedEvents (fst (handle errorListenerRaises freshWorld)))
      = 1%nat)
  /\ (snd (handle requestListenerRaises freshWorld) = Rejected listenerFailure
      /\ countDispatched ERROR
           (dispatchedEvents (fst (handle requestListenerRaises freshWorld)))
         = 0%nat)
  /\ (snd (handle terminateListenerRaises freshWorld)
      = Rejected listenerFailure
      /\ countDispatched ERROR
           (dispatchedEvents
              (fst (handle terminateListenerRaises freshWorld)))
         = 0%nat).
Proof. repeat split; vm_compute; reflexivity. Qed.

(* ------------------------------------------------------------------ *)
(** *** Cancellation *)

(** A second [cancel()] changes nothing. *)
Lemma cancel_idempotent (r : FetchRequest) : cancel (cancel r) = cancel r.
Proof.
  unfold cancel.
  destruct (_isCancelled r) eqn:Hc, (_abortController r) eqn:Ha;
    rewrite ?Hc, ?Ha; reflexivity.
Qed.

(** After [cancel()] on a request built by the constructor or already
    cancelled, [isCancelled()] answers true and the token is tripped, for
    good. *)
Lemma cancel_trips (r : FetchRequest) :
  _abortController r <> None \/ _isCancelled r = true ->
  isCancelled (cancel r) = true
  /\ isCancelled (cancel (cancel r)) = true.
Proof.
  intro H. rewrite cancel_idempotent. split; unfold cancel, isCancelled;
    destruct (_isCancelled r) eqn:Hc, (_abortController r) eqn:Ha;
    simpl; try assumption; try reflexivity;
    destruct H as [H|H]; congruence.
Qed.

(** [handle()] on a cancelled request rejects with the cancellation error
    and does nothing else. *)
Lemma handle_after_cancel (env : Environment) (w : World) :
  isCancelled (request w) = true ->
  handle env w
  = (w, Rejected (HttpFetchError "Request was cancelled" (_input (request w))
                    None)).
Proof. unfold handle, isCancelled. intro H. now rewrite H. Qed.

(** C3 at a failing input: a request with default options, no listeners,
    and a [cancel()] issued while the first network call is in flight.
    The call carries the signal of the attempt's own controller, so it is
    not aborted: [handle()] resolves with the 200 answer although
    [isCancelled()] has become true. *)
Theorem cancel_in_flight_handle_resolves :
  snd (handle (noListeners (cancelledInFlight (wire 200 false readable)))
         freshWorld)
  = Fulfilled {| originalResponse := wire 200 false readable;
                 data := JsonData "{}" |}
  /\ isCancelled
       (request
          (fst (handle (noListeners (cancelledInFlight
                                       (wire 200 false readable)))
                  freshWorld)))
     = true.
Proof. split; vm_compute; reflexivity. Qed.

(** Where the token does reach the primitive (timeout zero), a [cancel()]
    in flight aborts the call, but the engine takes the abort for a
    timeout: the two attempts left are started and rejected at once, and
    [handle()] rejects with the timeout message, not a cancellation. *)
Lemma cancel_in_flight_reported_as_timeout :
  snd (handle (noListeners (cancelledInFlight (wire 200 false readable)))
         unboundedWorld)
  = Rejected (HttpFetchError timedOutMessage "https://api.example.com/test"
                (Some (Native abortError)))
  /\ countFetchCalls
       (engineEffects
          (fst (handle (noListeners (cancelledInFlight
                                       (wire 200 false readable)))
                  unboundedWorld)))
     = 3%nat
  /\ countExchanges
       (engineEffects
          (fst (handle (noListeners (cancelledInFlight
                                       (wire 200 false readable)))
                  unboundedWorld)))
     = 1%nat.
Proof. repeat split; vm_compute; reflexivity. Qed.

(* ================================================================== *)
(** ** The retry engine: budget, back-off and what reaches the network *)

Lemma sleepsOf_app (l1 l2 : list Effect) :
  sleepsOf (l1 ++ l2) = (sleepsOf l1 ++ sleepsOf l2)%list.
Proof. unfold sleepsOf. apply flat_map_app. Qed.

Lemma countCleared_app (l1 l2 : list Effect) :
  countCleared (l1 ++ l2) = (countCleared l1 + countCleared l2)%nat.
Proof. unfold countCleared. now rewrite filter_app, length_app. Qed.

Lemma countSleeps_app (l1 l2 : list Effect) :
  countSleeps (l1 ++ l2) = (countSleeps l1 + countSleeps l2)%nat.
Proof. unfold countSleeps. now rewrite sleepsOf_app, length_app. Qed.

Ltac count_effects :=
  rewrite ?countFetchCalls_app, ?countExchanges_app, ?countTimers_app,
    ?countCleared_app, ?countSleeps_app, ?sleepsOf_app;
  cbn [countFetchCalls countExchanges countTimers countCleared countSleeps
       sleepsOf flat_map filter List.length List.app].

Ltac count_effects_in H :=
  rewrite ?countFetchCalls_app, ?countExchanges_app, ?countTimers_app,
    ?countCleared_app, ?countSleeps_app, ?sleepsOf_app in H;
  cbn [countFetchCalls countExchanges countTimers countCleared countSleeps
       sleepsOf flat_map filter List.length List.app] in H.

Lemma lookupKey_deleteKey (k : string) (hs : list (string * string)) :
  lookupKey k (deleteKey k hs) = None.
Proof.
  induction hs as [|[k' v] hs IH]; [reflexivity|].
  simpl. destruct (String.eqb k' k) eqn:E; [exact IH|].
  simpl. now rewrite E.
Qed.

Lemma lookupKey_deleteKey_other (k k0 : string) (hs : list (string * string)) :
  String.eqb k0 k = false ->
  lookupKey k0 (deleteKey k hs) = lookupKey k0 hs.
Proof.
  intro Hne. induction hs as [|[k' v] hs IH]; [reflexivity|].
  simpl. destruct (String.eqb k' k) eqn:E.
  - rewrite IH. apply String.eqb_eq in E. subst k'.
    rewrite String.eqb_sym, Hne. reflexivity.
  - simpl. now rewrite IH.
Qed.

Ltac split_conditions :=
  repeat match goal with
         | |- context [if ?b then _ else _] => destruct b eqn:?
         | |- context [match ?x with inl _ => _ | inr _ => _ end] =>
             destruct x eqn:?
         end.

Section EngineCoverage.

Variable Owner : Type.
Variable aborted : Owner -> bool.
Variable abort : Owner -> Owner.

Section LoopCoverage.

Variable url : string.
Variable timeout : Z.
Variable retryCount : JsNumber.
Variable responseType : HttpResponseType.
Variable retryOnStatusCode : bool.
Variable keepalive : bool.
Variable sc : Scenario.

Local Abbreviation armed := (negb keepalive && (0 <? timeout)).
Local Abbreviation body :=
  (attemptBody Owner aborted abort url timeout retryCount responseType
     retryOnStatusCode keepalive sc).
Local Abbreviation loop :=
  (retryLoop Owner aborted abort url timeout retryCount responseType
     retryOnStatusCode keepalive sc).
Local Abbreviation catch :=
  (catchBlock Owner abort url retryCount sc).

(** The [catch] block: what it adds to the trace and how it decides. *)
Lemma catchBlock_spec (a : bool) (attempt : Z) (err : Thrown)
  (s : EngineState Owner) :
  exists s',
    fst (catch a attempt err s) = s'
    /\ countFetchCalls (effects s') = countFetchCalls (effects s)
    /\ countExchanges (effects s') = countExchanges (effects s)
    /\ countTimers (effects s') = countTimers (effects s)
    /\ (countCleared (effects s')
        = countCleared (effects s) + (if a then 1 else 0))%nat
    /\ match snd (catch a attempt err s) with
       | NextAttempt =>
           isOneBelow attempt retryCount = false
           /\ (countSleeps (effects s') <= S (countSleeps (effects s)))%nat
       | Settle c =>
           isOneBelow attempt retryCount = true
           /\ countSleeps (effects s') = countSleeps (effects s)
           /\ (forall u cause,
                 c <> Rejected (HttpFetchError fallthroughMessage u cause))
       end.
Proof.
  eexists. split; [reflexivity|].
  unfold catchBlock, clearTimer, sleep, emit.
  destruct a, (String.eqb (thrownName err) "AbortError"),
    (includes (thrownMessage err) "NetworkError"
     || includes (thrownMessage err) "Failed to fetch"),
    (isOneBelow attempt retryCount); cbn [fst snd effects];
    count_effects; repeat split; try lia;
    intros u cause Heq; inversion Heq.
Qed.

(** One pass through the loop body, whatever the network and the user do:
    the primitive is called exactly once, a timer is set exactly when a
    deadline is armed and is then cleared, at most one back-off sleep
    follows, and only an attempt that is not the last goes on to a next
    one. *)
Lemma attemptBody_spec (attempt : Z) (fetchParams : RequestInit)
  (s : EngineState Owner) :
  let r := body attempt fetchParams s in
  countFetchCalls (effects (fst (fst r))) = S (countFetchCalls (effects s))
  /\ (countExchanges (effects (fst (fst r)))
      <= S (countExchanges (effects s)))%nat
  /\ (countTimers (effects (fst (fst r)))
      = countTimers (effects s) + (if armed then 1 else 0))%nat
  /\ (armed = true ->
      countCleared (effects s) + 1 <= countCleared (effects (fst (fst r))))%nat
  /\ snd (fst r)
     = (if armed then withSignal (AttemptController attempt) fetchParams
        else fetchParams)
  /\ match snd r with
     | NextAttempt =>
         isOneBelow attempt retryCount = false
         /\ (countSleeps (effects (fst (fst r)))
             <= S (countSleeps (effects s)))%nat
     | Settle c =>
         countSleeps (effects (fst (fst r))) = countSleeps (effects s)
         /\ (forall u cause,
               c <> Rejected (HttpFetchError fallthroughMessage u cause))
     end.
Proof.
  unfold attemptBody.
  match goal with
  | |- context [fetchPrimitive ?O ?a ?b ?sg ?x ?st] =>
      assert (Hdl : armed = true ->
                    snd (fetchPrimitive O a b sg x st) <> NeverSettles);
      [| destruct (fetchPrimitive O a b sg x st) as [[o sent] outcome]]
  end.
  { intro Ha. rewrite Ha. simpl. unfold settle.
    destruct (network (sc attempt)); discriminate. }
  unfold returnAwait, catchBlock, clearTimer, sleep, emit.
  destruct armed eqn:Ha, sent, outcome as [response|err|];
    try (exfalso; apply Hdl; reflexivity);
    split_conditions; cbn [fst snd effects]; count_effects;
    repeat split; try lia; try discriminate; try reflexivity;
    try (intros u cause Heq; inversion Heq);
    match goal with
    | H : (_ || _) = false |- _ =>
        apply orb_false_iff in H; destruct H as [_ H]; exact H
    end.
Qed.

(** The loop as a whole, for [k] iterations left, whatever the budget. *)
Lemma retryLoop_spec (k : nat) :
  forall (attempt : Z) (fetchParams : RequestInit) (s : EngineState Owner),
    let r := loop k attempt fetchParams s in
    (countFetchCalls (effects s) <= countFetchCalls (effects (fst r))
     <= countFetchCalls (effects s) + k)%nat
    /\ (k <> O ->
        S (countFetchCalls (effects s)) <= countFetchCalls (effects (fst r)))%nat
    /\ (countSleeps (effects (fst r)) + countFetchCalls (effects s)
        <= countSleeps (effects s) + countFetchCalls (effects (fst r)))%nat
    /\ (countExchanges (effects (fst r)) + countFetchCalls (effects s)
        <= countExchanges (effects s) + countFetchCalls (effects (fst r)))%nat
    /\ (countTimers (effects (fst r)) + (if armed then countFetchCalls (effects s) else 0)
        = countTimers (effects s)
          + (if armed then countFetchCalls (effects (fst r)) else 0))%nat
    /\ (armed = true ->
        countCleared (effects s) + countFetchCalls (effects (fst r))
        <= countCleared (effects (fst r)) + countFetchCalls (effects s))%nat.
Proof.
  induction k as [|k IH]; intros attempt fetchParams s r.
  - subst r. simpl. repeat split; try lia.
  - subst r. rewrite retryLoop_next.
    pose proof (attemptBody_spec attempt fetchParams s) as Hb.
    cbv zeta in Hb.
    destruct (body attempt fetchParams s) as [[s1 p1] [c|]];
      cbn [fst snd] in Hb |- *;
      destruct Hb as (Hc & He & Ht & Hcl & Hp & Hstep).
    + destruct Hstep as [Hs Hf].
      destruct armed; [specialize (Hcl eq_refl) | clear Hcl];
        repeat split; intros; try lia.
    + destruct Hstep as [Hlast Hs].
      specialize (IH (attempt + 1) p1 s1). cbv zeta in IH.
      destruct IH as (I1 & I2 & I3 & I4 & I5 & I6).
      destruct armed;
        [specialize (Hcl eq_refl); specialize (I6 eq_refl) | clear Hcl I6];
        repeat split; intros; try lia.
Qed.

(** Under a whole budget [n], of which [k] iterations are left: the last
    attempt is recognised, so the run sleeps fewer times than it calls the
    primitive and the code after the loop is never reached. *)
Lemma retryLoop_whole (n : Z) (k : nat) :
  retryCount = Whole n ->
  forall (attempt : Z) (fetchParams : RequestInit) (s : EngineState Owner),
    Z.of_nat k = n - attempt ->
    k <> O ->
    let r := loop k attempt fetchParams s in
    (countSleeps (effects (fst r)) + S (countFetchCalls (effects s))
     <= countSleeps (effects s) + countFetchCalls (effects (fst r)))%nat
    /\ (forall u cause,
          snd r <> Rejected (HttpFetchError fallthroughMessage u cause)).
Proof.
  intro Hwhole.
  induction k as [|k IH]; intros attempt fetchParams s Hk Hnz r;
    [contradiction|].
  subst r. rewrite retryLoop_next.
  pose proof (attemptBody_spec attempt fetchParams s) as Hb.
  cbv zeta in Hb.
  destruct (body attempt fetchParams s) as [[s1 p1] [c|]];
    cbn [fst snd] in Hb |- *;
    destruct Hb as (Hc & He & Ht & Hcl & Hp & Hstep).
  - destruct Hstep as [Hs Hf]. split; [lia | exact Hf].
  - destruct Hstep as [Hlast Hs].
    rewrite Hwhole in Hlast. cbn [isOneBelow] in Hlast.
    apply Z.eqb_neq in Hlast.
    assert (Hk' : Z.of_nat k = n - (attempt + 1)) by lia.
    assert (Hnz' : k <> O) by lia.
    specialize (IH (attempt + 1) p1 s1 Hk' Hnz'). cbv zeta in IH.
    destruct IH as [I1 I2]. split; [lia | exact I2].
Qed.

(** A loop that ends in the error thrown after it has used every
    iteration the header allowed. *)
Lemma retryLoop_fallthrough (k : nat) :
  forall (attempt : Z) (fetchParams : RequestInit) (s : EngineState Owner)
         (u : string) (cause : option Thrown),
    snd (loop k attempt fetchParams s)
    = Rejected (HttpFetchError fallthroughMessage u cause) ->
    u = url /\ cause = None
    /\ countFetchCalls (effects (fst (loop k attempt fetchParams s)))
       = (countFetchCalls (effects s) + k)%nat.
Proof.
  induction k as [|k IH]; intros attempt fetchParams s u cause.
  - simpl. intro H. inversion H. repeat split. lia.
  - rewrite retryLoop_next.
    pose proof (attemptBody_spec attempt fetchParams s) as Hb.
    cbv zeta in Hb.
    destruct (body attempt fetchParams s) as [[s1 p1] [c|]];
      cbn [fst snd] in Hb |- *;
      destruct Hb as (Hc & _ & _ & _ & _ & Hstep).
    + intro H. destruct Hstep as [_ Hf]. now apply Hf in H.
    + intro H. destruct (IH _ _ _ _ _ H) as (Hu & Hcause & Hn).
      repeat split; try assumption. rewrite Hn, Hc. lia.
Qed.

End LoopCoverage.

End EngineCoverage.

Section EngineCalls.

Variable Owner : Type.
Variable aborted : Owner -> bool.
Variable abort : Owner -> Owner.

Section LoopCalls.

Variable url : string.
Variable timeout : Z.
Variable retryCount : JsNumber.
Variable responseType : HttpResponseType.
Variable retryOnStatusCode : bool.
Variable keepalive : bool.
Variable sc : Scenario.

(** A property of the calls of the primitive, lifted to the trace. *)
Variable Q : Z -> string -> RequestInit -> Prop.

Local Abbreviation armed := (negb keepalive && (0 <? timeout)).
Local Abbreviation body :=
  (attemptBody Owner aborted abort url timeout retryCount responseType
     retryOnStatusCode keepalive sc).
Local Abbreviation loop :=
  (retryLoop Owner aborted abort url timeout retryCount responseType
     retryOnStatusCode keepalive sc).
Local Abbreviation onCalls :=
  (fun e => match e with FetchCalled a u i => Q a u i | _ => True end).

Lemma attemptBody_calls (attempt : Z) (fetchParams : RequestInit)
  (s : EngineState Owner) :
  Forall onCalls (effects s) ->
  Q attempt url (if armed then withSignal (AttemptController attempt) fetchParams
                 else fetchParams) ->
  Forall onCalls (effects (fst (fst (body attempt fetchParams s)))).
Proof.
  intros Hs Hq. unfold attemptBody.
  match goal with
  | |- context [fetchPrimitive ?O ?a ?b ?sg ?x ?st] =>
      destruct (fetchPrimitive O a b sg x st) as [[o sent] outcome]
  end.
  unfold returnAwait, catchBlock, clearTimer, sleep, emit.
  destruct armed, sent, outcome as [response|err|];
    split_conditions; cbn [fst snd effects];
    repeat (apply Forall_app; split); try exact Hs;
    repeat constructor; exact Hq.
Qed.

(** [I] holds of the parameters the loop carries from attempt to attempt. *)
Variable I : RequestInit -> Prop.

Hypothesis step :
  forall (attempt : Z) (p : RequestInit),
    I p ->
    Q attempt url (if armed then withSignal (AttemptController attempt) p
                   else p)
    /\ I (if armed then withSignal (AttemptController attempt) p else p).

Lemma retryLoop_calls (k : nat) :
  forall (attempt : Z) (fetchParams : RequestInit) (s : EngineState Owner),
    Forall onCalls (effects s) -> I fetchParams ->
    Forall onCalls (effects (fst (loop k attempt fetchParams s))).
Proof.
  induction k as [|k IH]; intros attempt fetchParams s Hs Hi; [exact Hs|].
  rewrite retryLoop_next.
  destruct (step attempt fetchParams Hi) as [Hq Hi'].
  pose proof (attemptBody_calls attempt fetchParams s Hs Hq) as Hb.
  pose proof (attemptBody_spec Owner aborted abort url timeout retryCount
                responseType retryOnStatusCode keepalive sc attempt
                fetchParams s) as Hsp.
  cbv zeta in Hsp.
  destruct (body attempt fetchParams s) as [[s1 p1] [c|]];
    cbn [fst snd] in Hb, Hsp |- *; [exact Hb|].
  destruct Hsp as (_ & _ & _ & _ & Hp & _). subst p1.
  apply IH; assumption.
Qed.

End LoopCalls.

(** Every call of a run carries the url, method, headers, body and
    keep-alive flag worked out from the options, and the signal of the
    attempt's own controller or, without a deadline, of the options. *)
Lemma safeFetch_calls (o : FetchRequestOptions) (sc : Scenario) (st : Owner) :
  Forall (callAsConfigured o)
    (effects (fst (safeFetch Owner aborted abort o sc st))).
Proof.
  rewrite safeFetch_is_retryLoop.
  apply (retryLoop_calls (o_url o) (effectiveTimeout o)
           (effectiveRetryCount o) (orDefault (o_responseType o) json)
           (orDefault (o_retryOnStatusCode o) false)
           (orDefault (o_keepalive o) false) sc
           (fun attempt url init =>
              callAsConfigured o (FetchCalled attempt url init))
           (paramsAsConfigured o)).
  - intros attempt p (Hm & Hh & Hb & Hk & Hs).
    unfold callAsConfigured, paramsAsConfigured, timerArmed in *.
    destruct (negb (orDefault (o_keepalive o) false)
              && (0 <? effectiveTimeout o)); simpl.
    + repeat split; try assumption. intro H; discriminate.
    + repeat split; try assumption; now apply Hs.
  - constructor.
  - unfold paramsAsConfigured. repeat split.
Qed.

End EngineCalls.

Section EngineRuns.

Variable Owner : Type.
Variable aborted : Owner -> bool.
Variable abort : Owner -> Owner.

Section LoopRuns.

Variable url : string.
Variable timeout : Z.
Variable retryCount : JsNumber.
Variable responseType : HttpResponseType.
Variable retryOnStatusCode : bool.
Variable keepalive : bool.
Variable sc : Scenario.

Local Abbreviation armed := (negb keepalive && (0 <? timeout)).
Local Abbreviation body :=
  (attemptBody Owner aborted abort url timeout retryCount responseType
     retryOnStatusCode keepalive sc).
Local Abbreviation loop :=
  (retryLoop Owner aborted abort url timeout retryCount responseType
     retryOnStatusCode keepalive sc).
Local Abbreviation catch :=
  (catchBlock Owner abort url retryCount sc).

Lemma attemptBody_failed (attempt : Z) (fetchParams : RequestInit)
  (s : EngineState Owner) (e : JsError) :
  network (sc attempt) = TransportFails e ->
  cancelWhileInFlight (sc attempt) = false ->
  aborted (owner s) = false ->
  body attempt fetchParams s =
    let '(s1, p1) :=
      afterExchange armed url timeout attempt fetchParams (owner s) s in
    let '(s2, step) := catch armed attempt (Native e) s1 in
    (s2, p1, step).
Proof.
  intros Hnet Hfly Hab.
  unfold attemptBody, afterExchange, fetchPrimitive, duringFlight.
  destruct armed; simpl.
  - rewrite Hfly, Hnet. simpl. unfold emit; simpl.
    repeat rewrite <- app_assoc. simpl. reflexivity.
  - destruct (p_signal fetchParams) as [[|k]|]; simpl;
      rewrite ?Hab, Hfly, Hnet; simpl; unfold emit; simpl;
      repeat rewrite <- app_assoc; simpl; reflexivity.
Qed.

Lemma attemptBody_silent (attempt : Z) (fetchParams : RequestInit)
  (s : EngineState Owner) :
  armed = true ->
  network (sc attempt) = ServerSilent ->
  body attempt fetchParams s =
    let '(s1, p1) :=
      afterExchange true url timeout attempt fetchParams
        (duringFlight Owner abort (sc attempt) (owner s)) s in
    let '(s2, step) := catch true attempt (Native abortError) s1 in
    (s2, p1, step).
Proof.
  intros Harm Hnet.
  unfold attemptBody, afterExchange, fetchPrimitive.
  rewrite Harm. simpl. rewrite Hnet. simpl. unfold emit; simpl.
  repeat rewrite <- app_assoc. simpl. reflexivity.
Qed.

Lemma catch_failure (a : bool) (attempt : Z) (e : JsError)
  (s : EngineState Owner) :
  String.eqb (err_name e) "AbortError" = false ->
  catch a attempt (Native e) s =
    if isOneBelow attempt retryCount then
      (clearTimer a attempt s,
       Settle (Rejected (HttpFetchError
                           (failureMessage retryCount (err_message e))
                           url (Some (Native e)))))
    else
      (sleep Owner abort (failureDelay (err_message e) * (attempt + 1))
         (sc attempt) (clearTimer a attempt s),
       NextAttempt).
Proof.
  intro Hn. unfold catchBlock, failureMessage, failureDelay, isNetworkMessage.
  cbn [thrownName thrownMessage]. rewrite Hn.
  destruct (includes (err_message e) "NetworkError"
            || includes (err_message e) "Failed to fetch"),
    (isOneBelow attempt retryCount); reflexivity.
Qed.

Lemma catch_abort (a : bool) (attempt : Z) (s : EngineState Owner) :
  catch a attempt (Native abortError) s =
    (clearTimer a attempt s,
     if isOneBelow attempt retryCount then
       Settle (Rejected (HttpFetchError timedOutMessage url
                           (Some (Native abortError))))
     else NextAttempt).
Proof.
  unfold catchBlock. cbn [thrownName abortError err_name].
  destruct (isOneBelow attempt retryCount); reflexivity.
Qed.

(** What [afterExchange], [clearTimer] and [sleep] add to the counts. *)
Lemma afterExchange_trace (a : bool) (attempt : Z) (fetchParams : RequestInit)
  (o' : Owner) (s : EngineState Owner) :
  let s1 := fst (afterExchange a url timeout attempt fetchParams o' s) in
  owner s1 = o'
  /\ countFetchCalls (effects s1) = S (countFetchCalls (effects s))
  /\ countExchanges (effects s1) = S (countExchanges (effects s))
  /\ (countTimers (effects s1)
      = countTimers (effects s) + (if a then 1 else 0))%nat
  /\ sleepsOf (effects s1) = sleepsOf (effects s).
Proof.
  unfold afterExchange. destruct a; cbn [fst owner effects];
    count_effects; rewrite ?app_nil_r; repeat split; lia.
Qed.

Lemma afterAnswer_trace (a : bool) (attempt : Z) (fetchParams : RequestInit)
  (s : EngineState Owner) :
  let s1 := fst (afterAnswer a url timeout attempt fetchParams s) in
  owner s1 = owner s
  /\ countFetchCalls (effects s1) = S (countFetchCalls (effects s))
  /\ sleepsOf (effects s1) = sleepsOf (effects s).
Proof.
  unfold afterAnswer. destruct a; cbn [fst owner effects];
    count_effects; rewrite ?app_nil_r; repeat split; lia.
Qed.

Lemma clearTimer_trace (a : bool) (attempt : Z) (s : EngineState Owner) :
  owner (clearTimer a attempt s) = owner s
  /\ countFetchCalls (effects (clearTimer a attempt s))
     = countFetchCalls (effects s)
  /\ countExchanges (effects (clearTimer a attempt s))
     = countExchanges (effects s)
  /\ countTimers (effects (clearTimer a attempt s)) = countTimers (effects s)
  /\ sleepsOf (effects (clearTimer a attempt s)) = sleepsOf (effects s).
Proof.
  unfold clearTimer, emit. destruct a; cbn [owner effects];
    count_effects; rewrite ?app_nil_r; repeat split; lia.
Qed.

Lemma sleep_trace (ms : Z) (a : AttemptScript) (s : EngineState Owner) :
  countFetchCalls (effects (sleep Owner abort ms a s))
  = countFetchCalls (effects s)
  /\ sleepsOf (effects (sleep Owner abort ms a s))
     = (sleepsOf (effects s) ++ [ms])%list
  /\ (cancelWhileBackingOff a = false ->
      owner (sleep Owner abort ms a s) = owner s).
Proof.
  unfold sleep. cbn [owner effects]. count_effects.
  repeat split; try lia. intro H. now rewrite H.
Qed.

(** A transport that fails every call with the same exception (no abort)
    is tried once per remaining attempt, with a linear back-off in
    between, and the last failure becomes the structured error. *)
Lemma loop_failures (e : JsError) (n : Z) :
  retryCount = Whole n ->
  String.eqb (err_name e) "AbortError" = false ->
  undisturbed sc ->
  alwaysThrows sc e ->
  forall (k : nat) (attempt : Z) (fetchParams : RequestInit)
         (s : EngineState Owner),
    Z.of_nat (S k) = n - attempt ->
    aborted (owner s) = false ->
    exists s',
      loop (S k) attempt fetchParams s
      = (s', Rejected (HttpFetchError
                         (failureMessage retryCount (err_message e))
                         url (Some (Native e))))
      /\ countFetchCalls (effects s')
         = (countFetchCalls (effects s) + S k)%nat
      /\ sleepsOf (effects s')
         = (sleepsOf (effects s)
            ++ linearBackoff (failureDelay (err_message e)) attempt k)%list.
Proof.
  intros Hwhole Hname Hquiet Hthrows.
  induction k as [|k IH]; intros attempt fetchParams s Hk Hab;
    destruct (Hquiet attempt) as [Hfly Hback];
    rewrite retryLoop_next,
      (attemptBody_failed _ _ _ e (Hthrows attempt) Hfly Hab);
    pose proof (afterExchange_trace armed attempt fetchParams (owner s) s)
      as Ht; cbv zeta in Ht;
    destruct (afterExchange armed url timeout attempt fetchParams (owner s) s)
      as [s1 p1]; cbn [fst] in Ht;
    destruct Ht as (Ho & Hc & _ & _ & Hs);
    rewrite (catch_failure _ _ _ _ Hname);
    destruct (clearTimer_trace armed attempt s1) as (Co & Cc & _ & _ & Cs).
  - replace (isOneBelow attempt retryCount) with true
      by (rewrite Hwhole; symmetry; apply Z.eqb_eq; lia).
    eexists. split; [reflexivity|]. simpl linearBackoff.
    rewrite app_nil_r. split; [lia | congruence].
  - replace (isOneBelow attempt retryCount) with false
      by (rewrite Hwhole; symmetry; apply Z.eqb_neq; lia).
    match goal with
    | |- context [sleep Owner abort ?ms ?a ?s0] =>
        destruct (sleep_trace ms a s0) as (Sc & Ss & So);
        destruct (IH (attempt + 1) p1 (sleep Owner abort ms a s0))
          as (s' & Hl & Hn & Hsl)
    end.
    + lia.
    + rewrite (So Hback), Co, Ho. exact Hab.
    + exists s'. split; [exact Hl|]. split.
      * rewrite Hn, Sc, Cc, Hc. lia.
      * rewrite Hsl, Ss, Cs, Hs. simpl linearBackoff.
        rewrite <- app_assoc. reflexivity.
Qed.

(** With a deadline armed, a server that never answers makes every
    attempt end in the abort of its own timer; the next attempt starts
    without any delay. *)
Lemma loop_timeouts (n : Z) :
  retryCount = Whole n ->
  armed = true ->
  alwaysSilent sc ->
  forall (k : nat) (attempt : Z) (fetchParams : RequestInit)
         (s : EngineState Owner),
    Z.of_nat (S k) = n - attempt ->
    exists s',
      loop (S k) attempt fetchParams s
      = (s', Rejected (HttpFetchError timedOutMessage url
                         (Some (Native abortError))))
      /\ countFetchCalls (effects s')
         = (countFetchCalls (effects s) + S k)%nat
      /\ countExchanges (effects s')
         = (countExchanges (effects s) + S k)%nat
      /\ countTimers (effects s') = (countTimers (effects s) + S k)%nat
      /\ sleepsOf (effects s') = sleepsOf (effects s).
Proof.
  intros Hwhole Harm Hsilent.
  induction k as [|k IH]; intros attempt fetchParams s Hk;
    rewrite retryLoop_next,
      (attemptBody_silent _ _ _ Harm (Hsilent attempt));
    match goal with
    | |- context [afterExchange true url timeout attempt fetchParams ?o' s] =>
        pose proof (afterExchange_trace true attempt fetchParams o' s) as Ht;
        cbv zeta in Ht;
        destruct (afterExchange true url timeout attempt fetchParams o' s)
          as [s1 p1]
    end;
    cbn [fst] in Ht; destruct Ht as (_ & Hc & He & Htm & Hs);
    rewrite catch_abort;
    destruct (clearTimer_trace true attempt s1) as (_ & Cc & Ce & Ct & Cs).
  - replace (isOneBelow attempt retryCount) with true
      by (rewrite Hwhole; symmetry; apply Z.eqb_eq; lia).
    eexists. split; [reflexivity|]. repeat split; try lia; congruence.
  - replace (isOneBelow attempt retryCount) with false
      by (rewrite Hwhole; symmetry; apply Z.eqb_neq; lia).
    destruct (IH (attempt + 1) p1 (clearTimer true attempt s1))
      as (s' & Hl & Hn & Hx & Hti & Hsl); [lia|].
    exists s'. split; [exact Hl|]. repeat split; try lia; congruence.
Qed.

(** An endpoint that answers every call with the same retried status is
    called once per remaining attempt, with 500 ms more of back-off each
    time, and its last answer is returned. *)
Lemma loop_retried_status (code n : Z) :
  retryCount = Whole n ->
  retriedStatus retryOnStatusCode code = true ->
  undisturbed sc ->
  endpointAnswers sc (fun r => status r = code /\ errorBodyParses r) ->
  forall (k : nat) (attempt : Z) (fetchParams : RequestInit)
         (s : EngineState Owner),
    Z.of_nat (S k) = n - attempt ->
    aborted (owner s) = false ->
    exists s' w,
      loop (S k) attempt fetchParams s = (s', Fulfilled w)
      /\ status (originalResponse w) = code
      /\ parseHttpErrorResponse (originalResponse w) = inr w
      /\ countFetchCalls (effects s')
         = (countFetchCalls (effects s) + S k)%nat
      /\ sleepsOf (effects s')
         = (sleepsOf (effects s) ++ linearBackoff 500 attempt k)%list.
Proof.
  intros Hwhole Hret Hquiet Hend.
  unfold retriedStatus in Hret.
  apply andb_true_iff in Hret. destruct Hret as [Hret Hsrv].
  apply andb_true_iff in Hret. destruct Hret as [Herr Hcl].
  apply negb_true_iff in Hcl. apply negb_true_iff in Hsrv.
  induction k as [|k IH]; intros attempt fetchParams s Hk Hab;
    destruct (Hend attempt) as (r & Hnet & Hst & w & Hp);
    destruct (Hquiet attempt) as [Hfly Hback];
    rewrite retryLoop_next,
      (attemptBody_answered _ _ _ _ _ _ _ _ _ _ _ _ _ r Hnet Hfly Hab);
    pose proof (afterAnswer_trace armed attempt fetchParams s) as Ht;
    cbv zeta in Ht;
    destruct (afterAnswer armed url timeout attempt fetchParams s)
      as [s1 p1]; cbn [fst] in Ht; destruct Ht as (Ho & Hc & Hs);
    rewrite Hst, Herr, Hcl, Hsrv; cbn [orb].
  - replace (isOneBelow attempt retryCount) with true
      by (rewrite Hwhole; symmetry; apply Z.eqb_eq; lia).
    rewrite Hp. unfold returnAwait.
    pose proof (parseHttpErrorResponse_original _ _ Hp) as Horig.
    exists s1, w. rewrite Horig. simpl linearBackoff. rewrite app_nil_r.
    repeat split; try assumption; lia.
  - replace (isOneBelow attempt retryCount) with false
      by (rewrite Hwhole; symmetry; apply Z.eqb_neq; lia).
    match goal with
    | |- context [sleep Owner abort ?ms ?a ?s0] =>
        destruct (sleep_trace ms a s0) as (Sc & Ss & So);
        destruct (IH (attempt + 1) p1 (sleep Owner abort ms a s0))
          as (s' & w' & Hl & Hst' & Hp' & Hn & Hsl)
    end.
    + lia.
    + rewrite (So Hback), Ho. exact Hab.
    + exists s', w'. split; [exact Hl|]. repeat split; try assumption.
      * rewrite Hn, Sc, Hc. lia.
      * rewrite Hsl, Ss, Hs. simpl linearBackoff.
        rewrite <- app_assoc. reflexivity.
Qed.

End LoopRuns.

End EngineRuns.

Section EngineTheorems.

Variable Owner : Type.
Variable aborted : Owner -> bool.
Variable abort : Owner -> Owner.

Lemma safeFetch_counts (o : FetchRequestOptions) (sc : Scenario) (st : Owner) :
  let r := safeFetch Owner aborted abort o sc st in
  (1 <= countFetchCalls (effects (fst r))
     <= iterations (effectiveRetryCount o)
   /\ countSleeps (effects (fst r))
      + (if isWhole (effectiveRetryCount o) then 1 else 0)
      <= countFetchCalls (effects (fst r))
   /\ countExchanges (effects (fst r)) <= countFetchCalls (effects (fst r))
   /\ countTimers (effects (fst r))
      = (if timerArmed o then countFetchCalls (effects (fst r)) else 0)
   /\ (if timerArmed o then countFetchCalls (effects (fst r)) else 0)
      <= countCleared (effects (fst r)))%nat.
Proof.
  cbv zeta. rewrite safeFetch_is_retryLoop.
  pose proof (effectiveRetryCount_positive o) as Hpos.
  pose proof (retryLoop_spec Owner aborted abort (o_url o)
                (effectiveTimeout o) (effectiveRetryCount o)
                (orDefault (o_responseType o) json)
                (orDefault (o_retryOnStatusCode o) false)
                (orDefault (o_keepalive o) false) sc
                (iterations (effectiveRetryCount o)) 0 (requestInitOf o)
                {| owner := st; effects := [] |}) as H.
  cbv zeta in H. cbn [effects] in H.
  assert (Hw : (isWhole (effectiveRetryCount o) = true ->
                countSleeps
                  (effects
                     (fst (retryLoop Owner aborted abort (o_url o)
                             (effectiveTimeout o) (effectiveRetryCount o)
                             (orDefault (o_responseType o) json)
                             (orDefault (o_retryOnStatusCode o) false)
                             (orDefault (o_keepalive o) false) sc
                             (iterations (effectiveRetryCount o)) 0
                             (requestInitOf o)
                             {| owner := st; effects := [] |}))) + 1
                <= countFetchCalls
                     (effects
                        (fst (retryLoop Owner aborted abort (o_url o)
                                (effectiveTimeout o) (effectiveRetryCount o)
                                (orDefault (o_responseType o) json)
                                (orDefault (o_retryOnStatusCode o) false)
                                (orDefault (o_keepalive o) false) sc
                                (iterations (effectiveRetryCount o)) 0
                                (requestInitOf o)
                                {| owner := st; effects := [] |}))))%nat).
  { destruct (effectiveRetryCount o) as [n|f t] eqn:Hn; [|discriminate].
    intros _. cbn [iterations] in Hpos |- *.
    destruct (retryLoop_whole Owner aborted abort (o_url o)
                (effectiveTimeout o) (Whole n)
                (orDefault (o_responseType o) json)
                (orDefault (o_retryOnStatusCode o) false)
                (orDefault (o_keepalive o) false) sc n (Z.to_nat n) eq_refl
                0 (requestInitOf o) {| owner := st; effects := [] |})
      as [Hs _]; [lia | lia |].
    cbn [effects] in Hs.
    change (countFetchCalls []) with 0%nat in Hs.
    change (countSleeps []) with 0%nat in Hs. lia. }
  change (countFetchCalls []) with 0%nat in H.
  change (countSleeps []) with 0%nat in H.
  change (countExchanges []) with 0%nat in H.
  change (countTimers []) with 0%nat in H.
  change (countCleared []) with 0%nat in H.
  destruct H as (H1 & H2 & H3 & H4 & H5 & H6).
  specialize (H2 ltac:(lia)).
  unfold timerArmed.
  destruct (isWhole (effectiveRetryCount o));
    [specialize (Hw eq_refl) | clear Hw];
    (destruct (negb (orDefault (o_keepalive o) false)
               && (0 <? effectiveTimeout o));
     [specialize (H6 eq_refl) | clear H6]; lia).
Qed.


(** X2.  The statement after the loop is reached only under a retry count
    that is not whole, where the test [attempt === retryCount - 1] for
    the last attempt never holds.  A run that ends in the error
    "Unexpected fallthrough in httpFetchHandler" was configured, with
    keep-alive off, with a fractional retry count of at least 2, has
    called the primitive once more than the integer part of that count,
    and the error carries the url and no cause.  So under a whole retry
    count the statement is dead code. *)
Theorem fallthrough_only_under_fractional_budget (o : FetchRequestOptions)
  (sc : Scenario) (st : Owner) (u : string) (cause : option Thrown) :
  snd (safeFetch Owner aborted abort o sc st)
  = Rejected (HttpFetchError fallthroughMessage u cause) ->
  exists (floor : Z) (text : string),
    o_retryCount o = Some (Fractional floor text)
    /\ 2 <= floor
    /\ orDefault (o_keepalive o) false = false
    /\ u = o_url o
    /\ cause = None
    /\ countFetchCalls
         (effects (fst (safeFetch Owner aborted abort o sc st)))
       = Z.to_nat (floor + 1).
Proof.
  rewrite safeFetch_is_retryLoop. intro H.
  pose proof (effectiveRetryCount_positive o) as Hpos.
  destruct (effectiveRetryCount o) as [n|f t] eqn:Hn.
  - exfalso. cbn [iterations] in Hpos, H.
    destruct (retryLoop_whole Owner aborted abort (o_url o)
                (effectiveTimeout o) (Whole n)
                (orDefault (o_responseType o) json)
                (orDefault (o_retryOnStatusCode o) false)
                (orDefault (o_keepalive o) false) sc n (Z.to_nat n) eq_refl
                0 (requestInitOf o) {| owner := st; effects := [] |})
      as [_ Hf]; [lia | lia |].
    exact (Hf u cause H).
  - destruct (retryLoop_fallthrough Owner aborted abort (o_url o)
                (effectiveTimeout o) (Fractional f t)
                (orDefault (o_responseType o) json)
                (orDefault (o_retryOnStatusCode o) false)
                (orDefault (o_keepalive o) false) sc _ _ _ _ _ _ H)
      as (Hu & Hc & Hcalls).
    unfold effectiveRetryCount in Hn.
    destruct (orDefault (o_keepalive o) false); [discriminate|].
    destruct (o_retryCount o) as [x|]; [|discriminate].
    destruct (lessThan x 2) eqn:Hlt; [discriminate|]. subst x.
    cbn [lessThan] in Hlt. apply Z.ltb_ge in Hlt.
    exists f, t. repeat split; try assumption.
Qed.

(** X3.  A configured retry count below 2 (1, 0, a negative number, a
    fraction such as 1.5) is not honoured: the run is, effect for effect,
    the run with a retry count of 3. *)
Theorem retry_budget_floor (o : FetchRequestOptions) (x : JsNumber)
  (sc : Scenario) (st : Owner) :
  o_retryCount o = Some x ->
  lessThan x 2 = true ->
  safeFetch Owner aborted abort o sc st
  = safeFetch Owner aborted abort (setRetryCount 3 o) sc st.
Proof.
  intros Hn Hlt. unfold safeFetch, setRetryCount. cbn [o_url o_methodSend
    o_data o_headers o_timeout o_retryCount o_responseType
    o_retryOnStatusCode o_keepalive o_signal].
  rewrite Hn. cbn [orDefault lessThan]. rewrite Hlt.
  destruct (o_keepalive o) as [[|]|]; reflexivity.
Qed.

(** X4.  Keep-alive mode is a single shot: whatever retry count and timeout
    are configured and whatever happens, the primitive is called exactly
    once, with the keep-alive flag, no deadline timer is set and no
    back-off sleep is taken. *)
Theorem keepalive_single_attempt (o : FetchRequestOptions) (sc : Scenario)
  (st : Owner) :
  o_keepalive o = Some true ->
  countFetchCalls (effects (fst (safeFetch Owner aborted abort o sc st)))
  = 1%nat
  /\ countTimers (effects (fst (safeFetch Owner aborted abort o sc st)))
     = 0%nat
  /\ countSleeps (effects (fst (safeFetch Owner aborted abort o sc st)))
     = 0%nat
  /\ Forall callKeepsAlive
       (effects (fst (safeFetch Owner aborted abort o sc st))).
Proof.
  intro Hk.
  destruct (safeFetch_counts o sc st) as (H1 & H2 & _ & H4 & _).
  assert (Hrc : effectiveRetryCount o = Whole 1)
    by (unfold effectiveRetryCount; now rewrite Hk).
  assert (Harm : timerArmed o = false)
    by (unfold timerArmed; now rewrite Hk).
  rewrite Hrc in H1, H2. rewrite Harm in H4.
  change (iterations (Whole 1)) with 1%nat in H1. cbn [isWhole] in H2.
  repeat split; try lia.
  eapply Forall_impl; [|apply (safeFetch_calls Owner aborted abort o sc st)].
  intros [| |attempt url init| |]; simpl; try exact (fun _ => I).
  intros (_ & _ & _ & _ & Hka & _).
  rewrite Hka. unfold requestInitOf. simpl. now rewrite Hk.
Qed.

(** X5.  Every call of a run, whichever attempt makes it, is given the url of
    the options and the method, headers, body and keep-alive flag worked
    out from them before the loop; as signal it is given the one of the
    attempt's own controller when a deadline is armed, and the signal of
    the options (if any) when none is. *)
Theorem calls_as_configured (o : FetchRequestOptions) (sc : Scenario)
  (st : Owner) :
  Forall (callAsConfigured o)
    (effects (fst (safeFetch Owner aborted abort o sc st))).
Proof. exact (safeFetch_calls Owner aborted abort o sc st). Qed.

(** X6.  When the data is a [FormData], no call carries a header under the
    key "Content-Type" (the runtime sets it, with the boundary, itself);
    every other key reaches the primitive with the value it has among
    the own properties the spread [{ ...headers }] copies from the
    headers of the options, or of the defaults: the entries of a plain
    object, nothing of an instance of [Headers], and the indices of an
    array of pairs.  So when the options carry an instance of [Headers]
    no call is given any header at all. *)
Theorem form_data_drops_content_type (o : FetchRequestOptions) (sc : Scenario)
  (st : Owner) (k : string) :
  isFormData (o_data o) = true ->
  Forall (callHeaderIs k
            (if String.eqb k "Content-Type" then None
             else lookupKey k
                    (ownProperties
                       (orDefault (o_headers o)
                          (PlainObject defaultHeaders)))))
    (effects (fst (safeFetch Owner aborted abort o sc st)))
  /\ (forall entries : list (string * string),
        o_headers o = Some (HeadersInstance entries) ->
        Forall (callHeaderIs k None)
          (effects (fst (safeFetch Owner aborted abort o sc st)))).
Proof.
  intro Hf.
  assert (H : Forall (callHeaderIs k
                        (if String.eqb k "Content-Type" then None
                         else lookupKey k
                                (ownProperties
                                   (orDefault (o_headers o)
                                      (PlainObject defaultHeaders)))))
                (effects (fst (safeFetch Owner aborted abort o sc st)))).
  { eapply Forall_impl;
      [|apply (safeFetch_calls Owner aborted abort o sc st)].
    intros [| |attempt url init| |]; simpl; try exact (fun _ => I).
    intros (_ & _ & Hh & _). rewrite Hh. rewrite Hf.
    destruct (String.eqb k "Content-Type") eqn:E.
    - apply String.eqb_eq in E. subst k. apply lookupKey_deleteKey.
    - now apply lookupKey_deleteKey_other. }
  split; [exact H|].
  intros entries He. rewrite He in H. cbn [orDefault ownProperties] in H.
  destruct (String.eqb k "Content-Type"); exact H.
Qed.

(** X7.  The data of the options becomes a body only under POST, PUT or
    PATCH: under any other method (also DELETE) the engine attaches no
    body to any call. *)
Theorem body_only_with_post_put_patch (o : FetchRequestOptions)
  (sc : Scenario) (st : Owner) :
  existsb (String.eqb (orDefault (o_methodSend o) "GET"))
    ["POST"; "PUT"; "PATCH"] = false ->
  Forall (callBodyIs None)
    (effects (fst (safeFetch Owner aborted abort o sc st))).
Proof.
  intro Hm.
  eapply Forall_impl; [|apply (safeFetch_calls Owner aborted abort o sc st)].
  intros [| |attempt url init| |]; cbn [callAsConfigured callBodyIs];
    try exact (fun _ => I).
  intros (_ & _ & _ & Hb & _). rewrite Hb.
  unfold requestInitOf. cbn [p_body].
  destruct (o_data o); [rewrite Hm|]; reflexivity.
Qed.

(** X8.  Under a whole effective retry count [n], a server that never answers
    within the deadline uses up the budget without any back-off: each of
    the [n] attempts sets its timer, goes on the wire and is aborted by
    it, the next one starts at once, and the run ends in the structured
    timeout error caused by the abort. *)
Theorem timeout_exhausts_budget_without_delay (o : FetchRequestOptions)
  (sc : Scenario) (st : Owner) (n : Z) :
  effectiveRetryCount o = Whole n ->
  timerArmed o = true ->
  alwaysSilent sc ->
  exists s,
    safeFetch Owner aborted abort o sc st
    = (s, Rejected (HttpFetchError timedOutMessage (o_url o)
                      (Some (Native abortError))))
    /\ countFetchCalls (effects s) = Z.to_nat n
    /\ countExchanges (effects s) = Z.to_nat n
    /\ countTimers (effects s) = Z.to_nat n
    /\ sleepsOf (effects s) = [].
Proof.
  intros Hwhole Harm Hsilent. rewrite safeFetch_is_retryLoop.
  pose proof (effectiveRetryCount_positive o) as Hpos.
  rewrite Hwhole in Hpos |- *. cbn [iterations] in Hpos |- *.
  destruct (Z.to_nat n) as [|k] eqn:Hk; [lia|].
  destruct (loop_timeouts Owner aborted abort (o_url o) (effectiveTimeout o)
              (Whole n) (orDefault (o_responseType o) json)
              (orDefault (o_retryOnStatusCode o) false)
              (orDefault (o_keepalive o) false) sc n eq_refl Harm Hsilent k 0
              (requestInitOf o) {| owner := st; effects := [] |})
    as (s' & Hl & Hc & Hx & Ht & Hs); [lia|].
  exists s'. repeat split; assumption.
Qed.

(** X9.  Under a whole effective retry count [n], a transport that fails
    every call with the same exception, no abort, uses up the budget with
    a linear back-off: [n] calls, with 1000 ms times the attempt number
    after a network failure (a message with "NetworkError" or "Failed to
    fetch"), 500 ms times the attempt number after any other exception,
    no sleep after the last attempt; the run ends in the structured error
    that names the budget and the message and keeps the exception as its
    cause. *)
Theorem failure_backoff_is_linear (o : FetchRequestOptions) (sc : Scenario)
  (st : Owner) (e : JsError) (n : Z) :
  effectiveRetryCount o = Whole n ->
  String.eqb (err_name e) "AbortError" = false ->
  aborted st = false ->
  undisturbed sc ->
  alwaysThrows sc e ->
  exists s,
    safeFetch Owner aborted abort o sc st
    = (s, Rejected (HttpFetchError
                      (failureMessage (effectiveRetryCount o) (err_message e))
                      (o_url o) (Some (Native e))))
    /\ countFetchCalls (effects s) = Z.to_nat n
    /\ sleepsOf (effects s)
       = linearBackoff (failureDelay (err_message e)) 0
           (Z.to_nat n - 1).
Proof.
  intros Hwhole Hname Hab Hquiet Hthrows. rewrite safeFetch_is_retryLoop.
  pose proof (effectiveRetryCount_positive o) as Hpos.
  rewrite Hwhole in Hpos |- *. cbn [iterations] in Hpos |- *.
  destruct (Z.to_nat n) as [|k] eqn:Hk; [lia|].
  destruct (loop_failures Owner aborted abort (o_url o) (effectiveTimeout o)
              (Whole n) (orDefault (o_responseType o) json)
              (orDefault (o_retryOnStatusCode o) false)
              (orDefault (o_keepalive o) false) sc e n eq_refl Hname Hquiet
              Hthrows
              k 0 (requestInitOf o) {| owner := st; effects := [] |})
    as (s' & Hl & Hc & Hs); [lia | exact Hab |].
  exists s'. replace (S k - 1)%nat with k by lia.
  repeat split; assumption.
Qed.

(** X10.  Under a whole effective retry count [n] and with the retry flag on,
    an endpoint that answers every call with the same server-error status
    is called [n] times, with 500 ms times the attempt number of back-off
    after each attempt but the last, and the last answer is returned as a
    wrapper, not thrown. *)
Theorem server_error_backoff_is_linear (o : FetchRequestOptions)
  (sc : Scenario) (st : Owner) (code n : Z) :
  effectiveRetryCount o = Whole n ->
  o_retryOnStatusCode o = Some true ->
  isServerError code = true ->
  aborted st = false ->
  undisturbed sc ->
  endpointAnswers sc (fun r => status r = code /\ errorBodyParses r) ->
  exists s w,
    safeFetch Owner aborted abort o sc st = (s, Fulfilled w)
    /\ statusCode w = code
    /\ countFetchCalls (effects s) = Z.to_nat n
    /\ sleepsOf (effects s)
       = linearBackoff 500 0 (Z.to_nat n - 1).
Proof.
  intros Hwhole Hflag Hcode Hab Hquiet Hend. rewrite safeFetch_is_retryLoop.
  pose proof (effectiveRetryCount_positive o) as Hpos.
  rewrite Hwhole in Hpos |- *. cbn [iterations] in Hpos |- *.
  destruct (Z.to_nat n) as [|k] eqn:Hk; [lia|].
  assert (Hret : retriedStatus (orDefault (o_retryOnStatusCode o) false) code
                 = true).
  { rewrite Hflag. unfold retriedStatus.
    destruct (server_error_is_error _ Hcode) as [He Hc].
    rewrite He, Hc, Hcode. reflexivity. }
  destruct (loop_retried_status Owner aborted abort (o_url o)
              (effectiveTimeout o) (Whole n)
              (orDefault (o_responseType o) json)
              (orDefault (o_retryOnStatusCode o) false)
              (orDefault (o_keepalive o) false) sc code n eq_refl Hret Hquiet
              Hend
              k 0 (requestInitOf o) {| owner := st; effects := [] |})
    as (s' & w & Hl & Hst & _ & Hc & Hs); [lia | exact Hab |].
  exists s', w. replace (S k - 1)%nat with k by lia.
  repeat split; assumption.
Qed.

(** X11.  A status outside every band (below 100, or 600 and above) is retried
    whether or not the caller opted in: under a whole effective retry
    count [n], an endpoint that keeps answering with it is called [n]
    times, with the 500 ms back-off, before its last answer is
    returned. *)
Theorem unknown_status_retried_without_opt_in (o : FetchRequestOptions)
  (sc : Scenario) (st : Owner) (code n : Z) :
  effectiveRetryCount o = Whole n ->
  code < 100 \/ 600 <= code ->
  aborted st = false ->
  undisturbed sc ->
  endpointAnswers sc (fun r => status r = code /\ errorBodyParses r) ->
  exists s w,
    safeFetch Owner aborted abort o sc st = (s, Fulfilled w)
    /\ statusCode w = code
    /\ countFetchCalls (effects s) = Z.to_nat n
    /\ sleepsOf (effects s)
       = linearBackoff 500 0 (Z.to_nat n - 1).
Proof.
  intros Hwhole Hcode Hab Hquiet Hend. rewrite safeFetch_is_retryLoop.
  pose proof (effectiveRetryCount_positive o) as Hpos.
  rewrite Hwhole in Hpos |- *. cbn [iterations] in Hpos |- *.
  destruct (Z.to_nat n) as [|k] eqn:Hk; [lia|].
  assert (Hret : retriedStatus (orDefault (o_retryOnStatusCode o) false) code
                 = true).
  { unfold retriedStatus. revert Hcode. band_cases code; intros; try lia;
      reflexivity. }
  destruct (loop_retried_status Owner aborted abort (o_url o)
              (effectiveTimeout o) (Whole n)
              (orDefault (o_responseType o) json)
              (orDefault (o_retryOnStatusCode o) false)
              (orDefault (o_keepalive o) false) sc code n eq_refl Hret Hquiet
              Hend
              k 0 (requestInitOf o) {| owner := st; effects := [] |})
    as (s' & w & Hl & Hst & _ & Hc & Hs); [lia | exact Hab |].
  exists s', w. replace (S k - 1)%nat with k by lia.
  repeat split; assumption.
Qed.

(** X12.  Without the retry flag a server-error answer ends the run at once:
    one call, no back-off, and the answer comes back as a wrapper. *)
Theorem server_error_returned_without_opt_in (o : FetchRequestOptions)
  (sc : Scenario) (st : Owner) (r : Response) (w : HttpResponse) :
  orDefault (o_retryOnStatusCode o) false = false ->
  aborted st = false ->
  cancelWhileInFlight (sc 0) = false ->
  network (sc 0) = ServerReplies r ->
  isServerError (status r) = true ->
  parseHttpErrorResponse r = inr w ->
  exists s,
    safeFetch Owner aborted abort o sc st = (s, Fulfilled w)
    /\ countFetchCalls (effects s) = 1%nat
    /\ sleepsOf (effects s) = [].
Proof.
  intros Hflag Hab Hfly Hnet Hse Hp. rewrite safeFetch_is_retryLoop.
  pose proof (effectiveRetryCount_positive o) as Hpos.
  destruct (iterations (effectiveRetryCount o)) as [|k] eqn:Hk; [lia|].
  rewrite retryLoop_next.
  rewrite (attemptBody_answered Owner aborted abort (o_url o)
             (effectiveTimeout o) (effectiveRetryCount o)
             (orDefault (o_responseType o) json)
             (orDefault (o_retryOnStatusCode o) false)
             (orDefault (o_keepalive o) false) sc 0 (requestInitOf o)
             {| owner := st; effects := [] |} r Hnet Hfly Hab).
  match goal with
  | |- context [afterAnswer ?a ?u ?t ?n ?p ?s0] =>
      pose proof (afterAnswer_trace Owner u t a n p s0) as Ht;
      cbv zeta in Ht; destruct (afterAnswer a u t n p s0) as [s1 p1]
  end.
  cbn [fst effects] in Ht. destruct Ht as (_ & Hc & Hs).
  destruct (server_error_is_error _ Hse) as [He Hcl].
  rewrite He, Hcl, Hse, Hflag, Hp. cbn [orb andb negb returnAwait].
  exists s1. repeat split; assumption.
Qed.

(** X13.  An answer with a status from 100 up to 399 (info, success, redirect)
    ends the run at once, whatever the budget: one call, no back-off, and
    the body is read by the reader of the configured response type. *)
Theorem non_error_answer_returned (o : FetchRequestOptions) (sc : Scenario)
  (st : Owner) (r : Response) (w : HttpResponse) :
  100 <= status r < 400 ->
  aborted st = false ->
  cancelWhileInFlight (sc 0) = false ->
  network (sc 0) = ServerReplies r ->
  responseTypeHandle (orDefault (o_responseType o) json) r = inr w ->
  exists s,
    safeFetch Owner aborted abort o sc st = (s, Fulfilled w)
    /\ countFetchCalls (effects s) = 1%nat
    /\ sleepsOf (effects s) = []
    /\ originalResponse w = r.
Proof.
  intros Hst Hab Hfly Hnet Hp. rewrite safeFetch_is_retryLoop.
  pose proof (effectiveRetryCount_positive o) as Hpos.
  destruct (iterations (effectiveRetryCount o)) as [|k] eqn:Hk; [lia|].
  rewrite retryLoop_next.
  rewrite (attemptBody_answered Owner aborted abort (o_url o)
             (effectiveTimeout o) (effectiveRetryCount o)
             (orDefault (o_responseType o) json)
             (orDefault (o_retryOnStatusCode o) false)
             (orDefault (o_keepalive o) false) sc 0 (requestInitOf o)
             {| owner := st; effects := [] |} r Hnet Hfly Hab).
  match goal with
  | |- context [afterAnswer ?a ?u ?t ?n ?p ?s0] =>
      pose proof (afterAnswer_trace Owner u t a n p s0) as Ht;
      cbv zeta in Ht; destruct (afterAnswer a u t n p s0) as [s1 p1]
  end.
  cbn [fst effects] in Ht. destruct Ht as (_ & Hc & Hs).
  assert (He : MappedHttpStatus_eqb (mapStatusToResponseType (status r)) error
               = false).
  { revert Hst. generalize (status r) as c. intro c.
    band_cases c; intros; try lia; reflexivity. }
  rewrite He, Hp. cbn [returnAwait].
  exists s1. repeat split; try assumption.
  exact (responseTypeHandle_original _ _ _ Hp).
Qed.

End EngineTheorems.

Lemma alwaysFails_undisturbed : undisturbed alwaysFails.
Proof. intro i. split; reflexivity. Qed.

Lemma alwaysFails_throws :
  alwaysThrows alwaysFails (mkJsError "TypeError" "Failed to fetch").
Proof. intro i. reflexivity. Qed.

Lemma neverAnswers_silent : alwaysSilent neverAnswers.
Proof. intro i. reflexivity. Qed.

Lemma fallthrough_only_under_fractional_budget_witness :
  snd (standalone fractionalBudget alwaysFails false)
  = Rejected (HttpFetchError fallthroughMessage
                "https://api.example.com/test" None)
  /\ exists (floor : Z) (text : string),
       o_retryCount fractionalBudget = Some (Fractional floor text)
       /\ 2 <= floor
       /\ orDefault (o_keepalive fractionalBudget) false = false
       /\ "https://api.example.com/test" = o_url fractionalBudget
       /\ @None Thrown = None
       /\ countFetchCalls
            (effects (fst (standalone fractionalBudget alwaysFails false)))
          = Z.to_nat (floor + 1).
Proof.
  split; [vm_compute; reflexivity|].
  apply (fallthrough_only_under_fractional_budget bool (fun b => b)
           (fun _ => true) fractionalBudget alwaysFails false
           "https://api.example.com/test" None).
  vm_compute. reflexivity.
Defined.

Lemma retry_budget_floor_witness :
  standalone (withRetry 1 true false None None)
    (alwaysAnswers (wire 503 false readable)) false
  = standalone (setRetryCount 3 (withRetry 1 true false None None))
      (alwaysAnswers (wire 503 false readable)) false.
Proof.
  apply (retry_budget_floor bool (fun b => b) (fun _ => true)
           (withRetry 1 true false None None) (Whole 1)
           (alwaysAnswers (wire 503 false readable)) false);
    reflexivity.
Defined.

Lemma keepalive_single_attempt_witness :
  countFetchCalls
    (effects (fst (standalone (withRetry 5 true true (Some 1000) None)
                     alwaysFails false))) = 1%nat
  /\ countTimers
       (effects (fst (standalone (withRetry 5 true true (Some 1000) None)
                        alwaysFails false))) = 0%nat
  /\ countSleeps
       (effects (fst (standalone (withRetry 5 true true (Some 1000) None)
                        alwaysFails false))) = 0%nat
  /\ Forall callKeepsAlive
       (effects (fst (standalone (withRetry 5 true true (Some 1000) None)
                        alwaysFails false))).
Proof.
  apply (keepalive_single_attempt bool (fun b => b) (fun _ => true)
           (withRetry 5 true true (Some 1000) None) alwaysFails false).
  reflexivity.
Defined.

Lemma form_data_drops_content_type_witness :
  (Forall (callHeaderIs "Content-Type" None)
     (effects (fst (standalone uploadWithPlainHeaders alwaysFails false)))
   /\ Forall (callHeaderIs "Authorization" (Some "Bearer test-token"))
        (effects (fst (standalone uploadWithPlainHeaders alwaysFails false))))
  /\ Forall (callHeaderIs "Authorization" None)
       (effects (fst (standalone uploadWithHeadersInstance alwaysFails
                        false))).
Proof.
  split; [split|].
  - apply (form_data_drops_content_type bool (fun b => b) (fun _ => true)
             uploadWithPlainHeaders alwaysFails false "Content-Type").
    reflexivity.
  - apply (form_data_drops_content_type bool (fun b => b) (fun _ => true)
             uploadWithPlainHeaders alwaysFails false "Authorization").
    reflexivity.
  - apply (proj2 (form_data_drops_content_type bool (fun b => b)
                    (fun _ => true) uploadWithHeadersInstance alwaysFails
                    false "Authorization" eq_refl)
             [("Authorization", "Bearer test-token");
              ("Content-Type", "text/plain")]).
    reflexivity.
Defined.

Lemma body_only_with_post_put_patch_witness :
  Forall (callBodyIs None)
    (effects (fst (standalone deleteOptions alwaysFails false))).
Proof.
  apply (body_only_with_post_put_patch bool (fun b => b) (fun _ => true)
           deleteOptions alwaysFails false).
  reflexivity.
Defined.

Lemma timeout_exhausts_budget_without_delay_witness :
  exists s,
    standalone plainOptions neverAnswers false
    = (s, Rejected (HttpFetchError timedOutMessage
                      "https://api.example.com/test"
                      (Some (Native abortError))))
    /\ countFetchCalls (effects s) = 3%nat
    /\ countExchanges (effects s) = 3%nat
    /\ countTimers (effects s) = 3%nat
    /\ sleepsOf (effects s) = [].
Proof.
  apply (timeout_exhausts_budget_without_delay bool (fun b => b)
           (fun _ => true) plainOptions neverAnswers false 3).
  - reflexivity.
  - reflexivity.
  - apply neverAnswers_silent.
Defined.

Lemma failure_backoff_is_linear_witness :
  exists s,
    standalone plainOptions alwaysFails false
    = (s, Rejected (HttpFetchError
                      "Network error after 3 attempts: Failed to fetch"
                      "https://api.example.com/test"
                      (Some (Native (mkJsError "TypeError"
                                       "Failed to fetch")))))
    /\ countFetchCalls (effects s) = 3%nat
    /\ sleepsOf (effects s) = [1000; 2000].
Proof.
  apply (failure_backoff_is_linear bool (fun b => b) (fun _ => true)
           plainOptions alwaysFails false
           (mkJsError "TypeError" "Failed to fetch") 3).
  - reflexivity.
  - reflexivity.
  - reflexivity.
  - apply alwaysFails_undisturbed.
  - apply alwaysFails_throws.
Defined.

Lemma server_error_backoff_is_linear_witness :
  exists s w,
    standalone (withRetry 4 true false None None)
      (alwaysAnswers (wire 503 false readable)) false
    = (s, Fulfilled w)
    /\ statusCode w = 503
    /\ countFetchCalls (effects s) = 4%nat
    /\ sleepsOf (effects s) = [500; 1000; 1500].
Proof.
  apply (server_error_backoff_is_linear bool (fun b => b) (fun _ => true)
           (withRetry 4 true false None None)
           (alwaysAnswers (wire 503 false readable)) false 503 4);
    try reflexivity.
  - apply alwaysAnswers_undisturbed.
  - apply alwaysAnswers_endpoint. split; [reflexivity|].
    eexists. reflexivity.
Defined.

Lemma unknown_status_retried_without_opt_in_witness :
  exists s w,
    standalone plainOptions (alwaysAnswers (wire 999 false readable)) false
    = (s, Fulfilled w)
    /\ statusCode w = 999
    /\ countFetchCalls (effects s) = 3%nat
    /\ sleepsOf (effects s) = [500; 1000].
Proof.
  apply (unknown_status_retried_without_opt_in bool (fun b => b)
           (fun _ => true) plainOptions
           (alwaysAnswers (wire 999 false readable)) false 999 3);
    try reflexivity.
  - right. lia.
  - apply alwaysAnswers_undisturbed.
  - apply alwaysAnswers_endpoint. split; [reflexivity|].
    eexists. reflexivity.
Defined.

Lemma server_error_returned_without_opt_in_witness :
  exists s,
    standalone plainOptions (alwaysAnswers (wire 500 false readable)) false
    = (s, Fulfilled {| originalResponse := wire 500 false readable;
                       data := JsonData "{}" |})
    /\ countFetchCalls (effects s) = 1%nat
    /\ sleepsOf (effects s) = [].
Proof.
  apply (server_error_returned_without_opt_in bool (fun b => b)
           (fun _ => true) plainOptions
           (alwaysAnswers (wire 500 false readable)) false
           (wire 500 false readable)); reflexivity.
Defined.

Lemma non_error_answer_returned_witness :
  exists s,
    standalone plainOptions (alwaysAnswers (wire 304 false readable)) false
    = (s, Fulfilled {| originalResponse := wire 304 false readable;
                       data := JsonData "{}" |})
    /\ countFetchCalls (effects s) = 1%nat
    /\ sleepsOf (effects s) = []
    /\ originalResponse {| originalResponse := wire 304 false readable;
                           data := JsonData "{}" |}
       = wire 304 false readable.
Proof.
  apply (non_error_answer_returned bool (fun b => b) (fun _ => true)
           plainOptions (alwaysAnswers (wire 304 false readable)) false
           (wire 304 false readable)); try reflexivity.
  simpl. lia.
Defined.

(* ================================================================== *)
(** ** Merged options and the headers that reach the network *)





Section MergedOptions.

Variable Owner : Type.
Variable aborted : Owner -> bool.
Variable abort : Owner -> Owner.


End MergedOptions.

(** The request of the tests, configured without headers, after a
    listener has merged an [Authorization] header in: the header is
    sent, the three default headers are not.  Merged in as an instance
    of [Headers], the [Authorization] header is not sent either. *)
Lemma merged_headers_example :
  Forall (callHeaderIs "Authorization" (Some "Bearer test-token"))
    (effects (fst (standalone (mergeFetchOptions plainOptions addAuthorization)
                     (alwaysAnswers (wire 200 false readable)) false)))
  /\ Forall (callHeaderIs "Accept" None)
       (effects (fst (standalone
                        (mergeFetchOptions plainOptions addAuthorization)
                        (alwaysAnswers (wire 200 false readable)) false)))
  /\ Forall (callHeaderIs "Accept" (Some "application/json"))
       (effects (fst (standalone plainOptions
                        (alwaysAnswers (wire 200 false readable)) false)))
  /\ countFetchCalls
       (effects (fst (standalone
                        (mergeFetchOptions plainOptions addAuthorization)
                        (alwaysAnswers (wire 200 false readable)) false)))
     = 1%nat
  /\ Forall (callHeaderIs "Authorization" None)
       (effects (fst (standalone
                        (mergeFetchOptions plainOptions
                           addAuthorizationInstance)
                        (alwaysAnswers (wire 200 false readable)) false))).
Proof.
  repeat split; vm_compute; repeat constructor.
Qed.

(* ================================================================== *)
(** ** Reading the body of an error response *)

Lemma prefix_includes (p s : string) :
  String.prefix p s = true -> includes s p = true.
Proof. intro H. destruct s; cbn [includes]; rewrite H; reflexivity. Qed.

Lemma includes_cons (c : ascii) (s p : string) :
  includes s p = true -> includes (String c s) p = true.
Proof. intro H. cbn [includes]. rewrite H. apply orb_true_r. Qed.

Lemma prefix_app_includes (a b : string) :
  forall s, String.prefix (a ++ b) s = true -> includes s b = true.
Proof.
  induction a as [|c a IH]; intros s H.
  - apply prefix_includes. exact H.
  - destruct s as [|c' s]; cbn in H; [discriminate|].
    destruct (ascii_dec c c'); [|discriminate].
    apply includes_cons. apply IH. exact H.
Qed.

Lemma includes_app (a b : string) :
  forall s, includes s (a ++ b) = true -> includes s b = true.
Proof.
  induction s as [|c s IH]; intro H; cbn [includes] in H;
    apply orb_true_iff in H; destruct H as [H|H]; try discriminate.
  - apply (prefix_app_includes a b). exact H.
  - apply (prefix_app_includes a b). exact H.
  - apply includes_cons. apply IH. exact H.
Qed.

Lemma prefix_empty (s : string) : String.prefix "" s = true.
Proof. destruct s; reflexivity. Qed.

Lemma prefix_refl (s : string) : String.prefix s s = true.
Proof.
  induction s as [|c s IH]; [reflexivity|].
  cbn. destruct (ascii_dec c c); [exact IH | contradiction].
Qed.

Lemma endsWith_includes (suffix : string) :
  forall s, endsWith s suffix = true -> includes s suffix = true.
Proof.
  induction s as [|c s IH]; intro H; cbn [endsWith] in H;
    apply orb_true_iff in H; destruct H as [H|H]; try discriminate.
  - apply String.eqb_eq in H. subst suffix. reflexivity.
  - apply String.eqb_eq in H. subst suffix.
    apply prefix_includes, prefix_refl.
  - apply includes_cons. apply IH. exact H.
Qed.

(** The tests of [parseHttpErrorResponse] for JSON and for XML come down
    to the one [includes] among them. *)
Lemma json_test_is_includes (ct : string) :
  existsb (fun type => startsWith ct type) jsonContentTypes
  || includes ct "json" || endsWith ct "+json"
  = includes ct "json".
Proof.
  destruct (includes ct "json") eqn:Hi.
  - rewrite orb_true_r. reflexivity.
  - rewrite orb_false_r.
    assert (Hp : forall a, String.prefix (a ++ "json") ct = false).
    { intro a. destruct (String.prefix (a ++ "json") ct) eqn:Hp;
        [|reflexivity].
      apply prefix_app_includes in Hp. congruence. }
    pose proof (Hp "application/") as H1.
    pose proof (Hp "application/ld+") as H2.
    pose proof (Hp "application/problem+") as H3.
    pose proof (Hp "application/vnd.api+") as H4.
    cbn [append] in H1, H2, H3, H4.
    unfold jsonContentTypes, startsWith. cbn [existsb].
    rewrite H1, H2, H3, H4. cbn [orb].
    destruct (endsWith ct "+json") eqn:He; [|reflexivity].
    apply endsWith_includes in He. apply (includes_app "+" "json") in He.
    congruence.
Qed.

Lemma xml_test_is_includes (ct : string) :
  startsWith ct "application/xml" || startsWith ct "text/xml"
  || includes ct "xml"
  = includes ct "xml".
Proof.
  destruct (includes ct "xml") eqn:Hi.
  - rewrite orb_true_r. reflexivity.
  - rewrite orb_false_r. unfold startsWith.
    destruct (String.prefix "application/xml" ct) eqn:H1.
    { apply (prefix_app_includes "application/" "xml") in H1. congruence. }
    destruct (String.prefix "text/xml" ct) eqn:H2; [|reflexivity].
    apply (prefix_app_includes "text/" "xml") in H2. congruence.
Qed.

(** X15.  How [parseHttpErrorResponse] picks the reader.  A 204, or a
    [Content-Length] of zero, gives the empty text without the body being
    read.  Otherwise the body is read as JSON exactly when the content
    type (trimmed, lower case) contains "json" anywhere: the four listed
    media types and the "+json" suffix add nothing to that test; it is
    read as text when the type is an HTML one or contains "xml"; and the
    status text stands in for the body in every other case. *)
Theorem error_body_reader_choice (r : Response) :
  parseHttpErrorResponse r
  = if bodyDeclaredEmpty r then inr (mkHttpResponse r (TextData ""))
    else if includes (errorContentType r) "json"
    then responseTypeHandle json r
    else if isHTMLResponse (errorContentType r)
            || includes (errorContentType r) "xml"
    then responseTypeHandle text r
    else inr (mkHttpResponse r (TextData (statusText r))).
Proof.
  unfold parseHttpErrorResponse, bodyDeclaredEmpty.
  fold (errorContentType r).
  destruct ((status r =? 204)
            || match headersGet (headers r) "content-length" with
               | Some v => String.eqb v "0"
               | None => false
               end); [reflexivity|].
  cbv zeta. fold (errorContentType r).
  rewrite json_test_is_includes, xml_test_is_includes.
  destruct (includes (errorContentType r) "json"); [reflexivity|].
  destruct (isHTMLResponse (errorContentType r)); reflexivity.
Qed.

(** X16.  [parseHttpErrorResponse] rejects only with the exception of a body
    reader: the response then is no 204 and declares no empty body, its
    content type names JSON, HTML or XML, and the exception is the one
    [response.json()] (for a JSON type) or [response.text()] rejected
    with. *)
Theorem error_body_failure_is_reader_failure (r : Response) (t : Thrown) :
  parseHttpErrorResponse r = inl t ->
  bodyDeclaredEmpty r = false
  /\ exists e,
       t = Native e
       /\ ((includes (errorContentType r) "json" = true
            /\ readBody r ReadJson = inl e)
           \/ (includes (errorContentType r) "json" = false
               /\ (isHTMLResponse (errorContentType r)
                   || includes (errorContentType r) "xml") = true
               /\ readBody r ReadText = inl e)).
Proof.
  unfold parseHttpErrorResponse, bodyDeclaredEmpty.
  fold (errorContentType r).
  destruct ((status r =? 204)
            || match headersGet (headers r) "content-length" with
               | Some v => String.eqb v "0"
               | None => false
               end); [discriminate|].
  cbv zeta. fold (errorContentType r).
  rewrite json_test_is_includes, xml_test_is_includes.
  unfold responseTypeHandle, readInto.
  destruct (includes (errorContentType r) "json").
  - destruct (readBody r ReadJson) as [e|v]; intro H; inversion H; subst.
    split; [reflexivity|]. exists e. split; [reflexivity|]. left. now split.
  - destruct (isHTMLResponse (errorContentType r)) eqn:Hh;
      [| destruct (includes (errorContentType r) "xml") eqn:Hx;
         [| discriminate]];
      (destruct (readBody r ReadText) as [e|v]; intro H; inversion H; subst;
       split; [reflexivity|]; exists e; split; [reflexivity|]; right;
       repeat split; reflexivity).
Qed.

(** X17.  The media types [isHTMLResponse] is written for are recognised with
    or without parameters: "text/html" and "application/xhtml+xml"
    followed by nothing, or by anything that starts with a character
    that is no word character (";", a space, ","). *)
Theorem html_media_types (rest : string) :
  boundaryAfterWord rest = true ->
  isHTMLResponse ("text/html" ++ rest) = true
  /\ isHTMLResponse ("application/xhtml+xml" ++ rest) = true.
Proof.
  intro Hb. unfold isHTMLResponse, matchesHtmlMediaType, literalThenBoundary.
  cbn. rewrite prefix_empty, Hb. split; reflexivity.
Qed.

Lemma error_body_failure_is_reader_failure_witness :
  bodyDeclaredEmpty (wire 404 false unreadable) = false
  /\ exists e,
       Native (mkJsError "SyntaxError" "Unexpected end of JSON input")
       = Native e
       /\ ((includes (errorContentType (wire 404 false unreadable)) "json"
            = true
            /\ readBody (wire 404 false unreadable) ReadJson = inl e)
           \/ (includes (errorContentType (wire 404 false unreadable)) "json"
               = false
               /\ (isHTMLResponse
                     (errorContentType (wire 404 false unreadable))
                   || includes
                        (errorContentType (wire 404 false unreadable)) "xml")
                  = true
               /\ readBody (wire 404 false unreadable) ReadText = inl e)).
Proof.
  apply (error_body_failure_is_reader_failure (wire 404 false unreadable)
           (Native (mkJsError "SyntaxError" "Unexpected end of JSON input"))).
  vm_compute. reflexivity.
Defined.

Lemma html_media_types_witness :
  isHTMLResponse "text/html; charset=utf-8" = true
  /\ isHTMLResponse "application/xhtml+xml; charset=utf-8" = true.
Proof.
  apply (html_media_types "; charset=utf-8"). vm_compute. reflexivity.
Defined.

(* ================================================================== *)
(** ** The orchestrator: what listeners and the engine leave untouched *)

Section OwnerInvariant.

Variable Owner : Type.
Variable aborted : Owner -> bool.
Variable abort : Owner -> Owner.
Variable Inv : Owner -> Prop.
Hypothesis Inv_abort : forall o, Inv o -> Inv (abort o).

Lemma fetchPrimitive_owner (sig : option Signal) (a : AttemptScript)
  (st : Owner) :
  Inv st -> Inv (fst (fst (fetchPrimitive Owner aborted abort sig a st))).
Proof.
  intro Hi. unfold fetchPrimitive, duringFlight.
  destruct sig as [[|n]|]; split_conditions; cbn [fst]; auto.
Qed.

Lemma attemptBody_owner (url : string) (timeout : Z) (retryCount : JsNumber)
  (responseType : HttpResponseType) (retryOnStatusCode keepalive : bool)
  (sc : Scenario) (attempt : Z) (fetchParams : RequestInit)
  (s : EngineState Owner) :
  Inv (owner s) ->
  Inv (owner (fst (fst (attemptBody Owner aborted abort url timeout
                          retryCount responseType retryOnStatusCode
                          keepalive sc attempt fetchParams s)))).
Proof.
  intro Hi. unfold attemptBody.
  match goal with
  | |- context [fetchPrimitive ?O ?a ?b ?sg ?x ?st] =>
      assert (Ho : Inv (fst (fst (fetchPrimitive O a b sg x st))));
      [| destruct (fetchPrimitive O a b sg x st) as [[o sent] outcome]]
  end.
  { apply fetchPrimitive_owner.
    destruct (negb keepalive && (0 <? timeout)); exact Hi. }
  cbn [fst] in Ho.
  unfold returnAwait, catchBlock, clearTimer, sleep, emit.
  destruct (negb keepalive && (0 <? timeout)), sent,
    outcome as [response|err|];
    split_conditions; cbn [fst snd owner]; auto.
Qed.

Lemma retryLoop_owner (url : string) (timeout : Z) (retryCount : JsNumber)
  (responseType : HttpResponseType) (retryOnStatusCode keepalive : bool)
  (sc : Scenario) (k : nat) :
  forall (attempt : Z) (fetchParams : RequestInit) (s : EngineState Owner),
    Inv (owner s) ->
    Inv (owner (fst (retryLoop Owner aborted abort url timeout retryCount
                       responseType retryOnStatusCode keepalive sc k
                       attempt fetchParams s))).
Proof.
  induction k as [|k IH]; intros attempt fetchParams s Hi; [exact Hi|].
  rewrite retryLoop_next.
  pose proof (attemptBody_owner url timeout retryCount responseType
                retryOnStatusCode keepalive sc attempt fetchParams s Hi)
    as Hb.
  destruct (attemptBody Owner aborted abort url timeout retryCount
              responseType retryOnStatusCode keepalive sc attempt
              fetchParams s) as [[s1 p1] [c|]]; cbn [fst] in Hb |- *.
  - exact Hb.
  - apply IH. exact Hb.
Qed.

(** What the owner of the token is when the engine returns was reached
    from what it was by aborting only. *)
Lemma safeFetch_owner (o : FetchRequestOptions) (sc : Scenario) (st : Owner) :
  Inv st -> Inv (owner (fst (safeFetch Owner aborted abort o sc st))).
Proof.
  intro Hi. rewrite safeFetch_is_retryLoop. apply retryLoop_owner. exact Hi.
Qed.

End OwnerInvariant.

Section ListenerInvariant.

Context {P M : Type} `{EventClass P M}.
Variable J : Event P -> FetchRequest -> Prop.
Hypothesis J_prevent : forall e r, J e r -> J (markDefaultPrevented e) r.
Hypothesis J_stop : forall e r, J e r -> J (markPropagationStopped e) r.
Hypothesis J_cancel : forall e r, J e r -> J e (cancel r).
Hypothesis J_invoke :
  forall m e r, J e r -> J (fst (invoke m e r)) (snd (invoke m e r)).

Lemma runActions_invariant (acts : list (Action M)) :
  forall (e : Event P) (r : FetchRequest),
    J e r ->
    J (fst (fst (runActions acts e r))) (snd (fst (runActions acts e r))).
Proof.
  induction acts as [|a acts IH]; intros e r Hj; [exact Hj|].
  destruct a; cbn [runActions]; auto.
  specialize (J_invoke m e r Hj).
  destruct (invoke m e r) as [e' r']. apply IH. exact J_invoke.
Qed.

Lemma runListeners_invariant (ls : list (Listener P M)) :
  forall (e : Event P) (r : FetchRequest),
    J e r ->
    J (fst (fst (runListeners ls e r))) (snd (fst (runListeners ls e r))).
Proof.
  induction ls as [|l ls IH]; intros e r Hj; [exact Hj|].
  cbn [runListeners].
  pose proof (runActions_invariant (l e r) e r Hj) as Ha.
  destruct (runActions (l e r) e r) as [[e' r'] [t|]]; cbn [fst snd] in Ha;
    [exact Ha|].
  destruct (ev_propagationStopped e'); [exact Ha|].
  apply IH. exact Ha.
Qed.

End ListenerInvariant.

(** Listeners of the list [ls2] are not called once those of [ls1] have
    stopped the event or thrown. *)
Lemma runListeners_app {P M : Type} `{EventClass P M}
  (ls1 ls2 : list (Listener P M)) :
  forall (e : Event P) (r : FetchRequest),
    runListeners (ls1 ++ ls2) e r
    = match runListeners ls1 e r with
      | (e', r', Some t) => (e', r', Some t)
      | (e', r', None) =>
          match ls1 with
          | [] => runListeners ls2 e' r'
          | _ :: _ =>
              if ev_propagationStopped e' then (e', r', None)
              else runListeners ls2 e' r'
          end
      end.
Proof.
  induction ls1 as [|l ls1 IH]; intros e r; [reflexivity|].
  cbn [app runListeners].
  destruct (runActions (l e r) e r) as [[e1 r1] [t|]]; [reflexivity|].
  destruct (ev_propagationStopped e1) eqn:Hs; [now rewrite Hs|].
  rewrite IH.
  destruct (runListeners ls1 e1 r1) as [[e2 r2] [t|]] eqn:Hr; [reflexivity|].
  destruct ls1 as [|l' ls1']; [|reflexivity].
  cbn in Hr. inversion Hr; subst. now rewrite Hs.
Qed.

Section RequestInvariant.

(** A property of the request that [cancel()] and the two settle handles
    preserve is preserved by the listeners of every event class, by the
    engine, and by every phase that assigns neither the options nor
    anything else but [_input] and the settle handles. *)
Variable Inv : FetchRequest -> Prop.
Hypothesis Inv_cancel : forall r, Inv r -> Inv (cancel r).
Hypothesis Inv_settle : forall p r, Inv r -> Inv (settlePromise p r).
Hypothesis Inv_setInput : forall u r, Inv r -> Inv (setInput u r).
Hypothesis Inv_newPromise : forall r, Inv r -> Inv (newRequestPromise r).

Lemma dispatch_request {P M : Type} `{EventClass P M}
  (ls : list (Listener P M)) (name : string) (e : Event P) (w w' : World)
  (res : Thrown + Event P) :
  (forall m e0 r, Inv r -> Inv (snd (invoke m e0 r))) ->
  dispatch ls name e w = (w', res) ->
  Inv (request w) -> Inv (request w').
Proof.
  intros Hinv Hd Hi. unfold dispatch in Hd. cbn [request] in Hd.
  pose proof (runListeners_invariant (fun _ r => Inv r)
                (fun _ _ h => h) (fun _ _ h => h)
                (fun _ r h => Inv_cancel r h)
                (fun m e0 r h => Hinv m e0 r h) ls e (request w) Hi) as Hr.
  destruct (runListeners ls e (request w)) as [[e' r'] [t|]];
    cbn [fst snd] in Hr; inversion Hd; subst; exact Hr.
Qed.

Lemma invokeRequestMethod_request (m : RequestMethod) (e : FetchRequestEvent)
  (r : FetchRequest) :
  Inv r -> Inv (snd (invoke m e r)).
Proof.
  intro Hi. destruct m; cbn; auto;
    unfold _resolveRequestPromise, _rejectRequestPromise; auto.
Qed.

Lemma invokeErrorMethod_request (m : ErrorMethod)
  (e : FetchRequestErrorEvent) (r : FetchRequest) :
  Inv r -> Inv (snd (invoke m e r)).
Proof. intro Hi. destruct m; cbn; auto. Qed.

Lemma invokeResponseMethod_request (m : ResponseMethod)
  (e : FetchResponseEvent) (r : FetchRequest) :
  Inv r -> Inv (snd (invoke m e r)).
Proof. intro Hi. destruct m; cbn; auto. Qed.

Lemma invokeTerminateMethod_request (m : TerminateMethod)
  (e : TerminateEvent) (r : FetchRequest) :
  Inv r -> Inv (snd (invoke m e r)).
Proof. destruct m. Qed.

Lemma awaitSafeFetch_request (env : Environment) (w w' : World)
  (c : Completion HttpResponse) :
  awaitSafeFetch env w = (w', c) -> Inv (request w) -> Inv (request w').
Proof.
  unfold awaitSafeFetch. intros Hs Hi.
  pose proof (safeFetch_owner FetchRequest tokenTripped cancel Inv Inv_cancel
                (_fetchRequestOptions (request w)) (scenario env)
                (request w) Hi) as Ho.
  destruct (safeFetch FetchRequest tokenTripped cancel
              (_fetchRequestOptions (request w)) (scenario env) (request w))
    as [s c0].
  inversion Hs; subst. exact Ho.
Qed.

Lemma awaitInterception_request (env : Environment) (w w' : World)
  (c : Completion unit) :
  awaitInterception env w = (w', c) -> Inv (request w) -> Inv (request w').
Proof.
  unfold awaitInterception, _resolveRequestPromise, _rejectRequestPromise.
  intros Ha Hi.
  destruct (_requestPromise (request w)) as [[| |reason]|];
    try (inversion Ha; subst; exact Hi);
    destruct (interception env);
    try (inversion Ha; subst; cbn; auto; fail);
    cbn in Ha;
    destruct (_requestPromise (cancel (request w))) as [[| |reason']|];
    inversion Ha; subst; cbn; auto.
Qed.

Lemma dispatchRequestEvent_request (env : Environment) (w w' : World)
  (c : Completion FetchRequestEvent) :
  dispatchRequestEvent env w = (w', c) -> Inv (request w) -> Inv (request w').
Proof.
  unfold dispatchRequestEvent, newEvent. cbn [request withRequest].
  intros Hd Hi.
  match type of Hd with
  | context [dispatch ?ls ?n ?e ?w0] =>
      destruct (dispatch ls n e w0) as [w1 [t|event]] eqn:Hb;
      apply (dispatch_request ls n e w0 _ _ invokeRequestMethod_request) in Hb;
      [| cbn; auto | | cbn; auto]
  end.
  - inversion Hd; subst. exact Hb.
  - destruct (isDefaultPrevented event).
    + match type of Hd with
      | context [awaitInterception ?e0 ?w0] =>
          destruct (awaitInterception e0 w0) as [w2 [u|t|]] eqn:Ha;
          apply awaitInterception_request in Ha; [| cbn; auto | | cbn; auto
                                                  | | cbn; auto]
      end; inversion Hd; subst; exact Ha.
    + inversion Hd; subst. cbn. auto.
Qed.

Lemma dispatchResponseEvent_request (env : Environment)
  (fetchResponse : HttpResponse) (w w' : World)
  (res : Thrown + HttpResponse) :
  dispatchResponseEvent env fetchResponse w = (w', res) ->
  Inv (request w) -> Inv (request w').
Proof.
  unfold dispatchResponseEvent, newEvent. intros Hd Hi.
  match type of Hd with
  | context [dispatch ?ls ?n ?e ?w0] =>
      destruct (dispatch ls n e w0) as [w1 [t|event]] eqn:Hb;
      apply (dispatch_request ls n e w0 _ _ invokeResponseMethod_request)
        in Hb; [| exact Hi | | exact Hi]
  end.
  - inversion Hd; subst. exact Hb.
  - destruct (isDefaultPrevented event);
      [| destruct (succeeded fetchResponse || serverInfo fetchResponse)];
      inversion Hd; subst; exact Hb.
Qed.

Lemma dispatchErrorEvent_request (env : Environment) (err : Thrown)
  (w w' : World) (res : Thrown + FetchRequestErrorEvent) :
  dispatchErrorEvent env err w = (w', res) ->
  Inv (request w) -> Inv (request w').
Proof.
  unfold dispatchErrorEvent, newEvent. intros Hd Hi.
  apply (dispatch_request _ _ _ _ _ _ invokeErrorMethod_request) in Hd;
    [exact Hd | exact Hi].
Qed.

Lemma willDelegateErrorHandling_request (env : Environment) (err : Thrown)
  (w w' : World) (res : Thrown + bool) :
  willDelegateErrorHandling env err w = (w', res) ->
  Inv (request w) -> Inv (request w').
Proof.
  unfold willDelegateErrorHandling, newEvent. intros Hd Hi.
  match type of Hd with
  | context [dispatch ?ls ?n ?e ?w0] =>
      destruct (dispatch ls n e w0) as [w1 [t|event]] eqn:Hb;
      apply (dispatch_request ls n e w0 _ _ invokeErrorMethod_request)
        in Hb; [| exact Hi | | exact Hi]
  end; inversion Hd; subst; exact Hb.
Qed.

Lemma finallyBlock_request (env : Environment)
  (fetchResponse : option HttpResponse) (err : option Thrown)
  (pending : Completion HttpResponse) (w w' : World)
  (c : Completion HttpResponse) :
  finallyBlock env fetchResponse err pending w = (w', c) ->
  Inv (request w) -> Inv (request w').
Proof.
  unfold finallyBlock, dispatchTerminateEvent, newEvent. intros Hd Hi.
  match type of Hd with
  | context [dispatch ?ls ?n ?e ?w0] =>
      destruct (dispatch ls n e w0) as [w1 [t|event]] eqn:Hb;
      apply (dispatch_request ls n e w0 _ _ invokeTerminateMethod_request)
        in Hb; [| exact Hi | | exact Hi]
  end; inversion Hd; subst; exact Hb.
Qed.

Lemma catchBlockOfHandle_request (env : Environment)
  (fetchResponse : option HttpResponse) (err : Thrown) (w w' : World)
  (c : Completion HttpResponse) :
  catchBlockOfHandle env fetchResponse err w = (w', c) ->
  Inv (request w) -> Inv (request w').
Proof.
  unfold catchBlockOfHandle. intros Hc Hi.
  destruct (dispatchErrorEvent env err w) as [w1 [t|errorEvent]] eqn:Hd;
    apply dispatchErrorEvent_request in Hd; try exact Hi.
  - exact (finallyBlock_request _ _ _ _ _ _ _ Hc Hd).
  - destruct (recoveryOf errorEvent) as [response|].
    + exact (finallyBlock_request _ _ _ _ _ _ _ Hc Hd).
    + destruct (willDelegateErrorHandling env err w1)
        as [w2 [t|delegated]] eqn:Hw;
        apply willDelegateErrorHandling_request in Hw; try exact Hd.
      * exact (finallyBlock_request _ _ _ _ _ _ _ Hc Hw).
      * apply (finallyBlock_request _ _ _ _ _ _ _ Hc).
        destruct delegated; exact Hw.
Qed.

Section WithOptions.

Hypothesis Inv_setOptions : forall o r, Inv r -> Inv (setOptions o r).

Lemma dispatchBeforeSendEvent_request (env : Environment) (w w' : World)
  (res : Thrown + FetchRequestEvent) :
  dispatchBeforeSendEvent env w = (w', res) ->
  Inv (request w) -> Inv (request w').
Proof.
  unfold dispatchBeforeSendEvent, newEvent. intros Hd Hi.
  match type of Hd with
  | context [dispatch ?ls ?n ?e ?w0] =>
      destruct (dispatch ls n e w0) as [w1 [t|event]] eqn:Hb;
      apply (dispatch_request ls n e w0 _ _ invokeRequestMethod_request)
        in Hb; [| exact Hi | | exact Hi]
  end; inversion Hd; subst; cbn; auto.
Qed.

Lemma tryBlock_request (env : Environment) (requestEvent : FetchRequestEvent)
  (w w' : World) (fetchResponse : option HttpResponse)
  (c : Completion HttpResponse) :
  tryBlock env requestEvent w = (w', fetchResponse, c) ->
  Inv (request w) -> Inv (request w').
Proof.
  unfold tryBlock. intros Ht Hi.
  assert (Hfin : forall w0 (o : Completion HttpResponse),
             Inv (request w0) ->
             match o with
             | NeverSettles => (w0, None, NeverSettles)
             | Rejected t => (w0, None, Rejected t)
             | Fulfilled fr =>
                 match dispatchResponseEvent env fr w0 with
                 | (w1, inl t) => (w1, Some fr, Rejected t)
                 | (w1, inr fr') => (w1, Some fr', Fulfilled fr')
                 end
             end = (w', fetchResponse, c) ->
             Inv (request w')).
  { intros w0 [fr|t|] H0 Heq; try (inversion Heq; subst; exact H0).
    destruct (dispatchResponseEvent env fr w0) as [w1 [t|fr']] eqn:Hd;
      apply dispatchResponseEvent_request in Hd; try exact H0;
      inversion Heq; subst; exact Hd. }
  destruct (rq_response (ev_payload requestEvent)) as [response|].
  - exact (Hfin (notify requestStarted w) (Fulfilled response) Hi Ht).
  - destruct (dispatchBeforeSendEvent env (notify requestStarted w))
      as [w1 [t|beforeSendEvent]] eqn:Hb;
      apply dispatchBeforeSendEvent_request in Hb; try exact Hi.
    + exact (Hfin w1 (Rejected t) Hb Ht).
    + destruct (rq_response (ev_payload beforeSendEvent)) as [response|].
      * exact (Hfin w1 (Fulfilled response) Hb Ht).
      * match type of Ht with
        | context [awaitSafeFetch env ?w0] =>
            destruct (awaitSafeFetch env w0) as [w2 o] eqn:Hs;
            apply awaitSafeFetch_request in Hs
        end.
        -- exact (Hfin w2 o Hs Ht).
        -- destruct (_abortController (request w1)); cbn; auto.
Qed.

(** [handle()] as a whole preserves such a property. *)
Lemma handle_request (env : Environment) (w : World) :
  Inv (request w) -> Inv (request (fst (handle env w))).
Proof.
  intro Hi. unfold handle.
  destruct (_isCancelled (request w)); [exact Hi|].
  destruct (dispatchRequestEvent env (notify prepareRequest w))
    as [w1 [requestEvent|t|]] eqn:Hr;
    apply dispatchRequestEvent_request in Hr; try exact Hi; try exact Hr.
  destruct (tryBlock env requestEvent w1) as [[w2 fr] [response|err|]] eqn:Ht;
    apply tryBlock_request in Ht; try exact Hr.
  - destruct (finallyBlock env fr None (Fulfilled response) w2)
      as [w3 c] eqn:Hf.
    exact (finallyBlock_request _ _ _ _ _ _ _ Hf Ht).
  - destruct (catchBlockOfHandle env fr err w2) as [w3 c] eqn:Hc.
    exact (catchBlockOfHandle_request _ _ _ _ _ _ Hc Ht).
  - exact Ht.
Qed.

End WithOptions.

End RequestInvariant.

(* ------------------------------------------------------------------ *)
(** *** What the delegate is told *)

Lemma dispatch_delegate {P M : Type} `{EventClass P M}
  (ls : list (Listener P M)) (name : string) (e : Event P) (w w' : World)
  (res : Thrown + Event P) :
  dispatch ls name e w = (w', res) -> delegateCalls w' = delegateCalls w.
Proof.
  unfold dispatch. cbn [request].
  destruct (runListeners ls e (request w)) as [[e' r'] [t|]];
    intro Hd; inversion Hd; subst; reflexivity.
Qed.

Lemma awaitInterception_delegate (env : Environment) (w w' : World)
  (c : Completion unit) :
  awaitInterception env w = (w', c) -> delegateCalls w' = delegateCalls w.
Proof.
  unfold awaitInterception. intro Ha.
  destruct (_requestPromise (request w)) as [[| |reason]|];
    try (inversion Ha; subst; reflexivity);
    destruct (interception env);
    try (inversion Ha; subst; reflexivity);
    cbn in Ha;
    destruct (_requestPromise (cancel (request w))) as [[| |reason']|];
    inversion Ha; subst; reflexivity.
Qed.

Lemma dispatchRequestEvent_delegate (env : Environment) (w w' : World)
  (c : Completion FetchRequestEvent) :
  dispatchRequestEvent env w = (w', c) -> delegateCalls w' = delegateCalls w.
Proof.
  unfold dispatchRequestEvent, newEvent. cbn [request withRequest].
  intro Hd.
  match type of Hd with
  | context [dispatch ?ls ?n ?e ?w0] =>
      destruct (dispatch ls n e w0) as [w1 [t|event]] eqn:Hb;
      apply dispatch_delegate in Hb; cbn in Hb
  end.
  - inversion Hd; subst. exact Hb.
  - destruct (isDefaultPrevented event).
    + match type of Hd with
      | context [awaitInterception ?e0 ?w0] =>
          destruct (awaitInterception e0 w0) as [w2 [u|t|]] eqn:Ha;
          apply awaitInterception_delegate in Ha; cbn in Ha
      end; inversion Hd; subst; congruence.
    + inversion Hd; subst. exact Hb.
Qed.

Lemma dispatchBeforeSendEvent_delegate (env : Environment) (w w' : World)
  (res : Thrown + FetchRequestEvent) :
  dispatchBeforeSendEvent env w = (w', res) ->
  delegateCalls w' = delegateCalls w.
Proof.
  unfold dispatchBeforeSendEvent, newEvent. intro Hd.
  match type of Hd with
  | context [dispatch ?ls ?n ?e ?w0] =>
      destruct (dispatch ls n e w0) as [w1 [t|event]] eqn:Hb;
      apply dispatch_delegate in Hb; cbn in Hb
  end; inversion Hd; subst; exact Hb.
Qed.

Lemma awaitSafeFetch_delegate (env : Environment) (w w' : World)
  (c : Completion HttpResponse) :
  awaitSafeFetch env w = (w', c) -> delegateCalls w' = delegateCalls w.
Proof.
  unfold awaitSafeFetch.
  destruct (safeFetch FetchRequest tokenTripped cancel
              (_fetchRequestOptions (request w)) (scenario env) (request w))
    as [s c0].
  intro Hs; inversion Hs; subst. reflexivity.
Qed.

(** The RESPONSE phase tells the delegate once, about the response it
    hands back, unless a listener throws. *)
Lemma dispatchResponseEvent_delegate (env : Environment)
  (fetchResponse : HttpResponse) (w w' : World)
  (res : Thrown + HttpResponse) :
  dispatchResponseEvent env fetchResponse w = (w', res) ->
  match res with
  | inl _ => delegateCalls w' = delegateCalls w
  | inr r =>
      exists d, delegateCalls w' = (delegateCalls w ++ [d])%list
                /\ reportsResponse r d
  end.
Proof.
  unfold dispatchResponseEvent, newEvent. intro Hd.
  match type of Hd with
  | context [dispatch ?ls ?n ?e ?w0] =>
      destruct (dispatch ls n e w0) as [w1 [t|event]] eqn:Hb;
      apply dispatch_delegate in Hb; cbn in Hb
  end.
  - inversion Hd; subst. exact Hb.
  - unfold reportsResponse.
    destruct (isDefaultPrevented event);
      [| destruct (succeeded fetchResponse || serverInfo fetchResponse)];
      inversion Hd; subst; cbn; rewrite Hb; eauto.
Qed.

Lemma tryBlock_delegate (env : Environment) (requestEvent : FetchRequestEvent)
  (w w' : World) (fetchResponse : option HttpResponse)
  (c : Completion HttpResponse) :
  tryBlock env requestEvent w = (w', fetchResponse, c) ->
  match c with
  | Fulfilled r =>
      fetchResponse = Some r
      /\ exists d,
           delegateCalls w' = (delegateCalls w ++ [requestStarted; d])%list
           /\ reportsResponse r d
  | _ => delegateCalls w' = (delegateCalls w ++ [requestStarted])%list
  end.
Proof.
  unfold tryBlock. intro Ht.
  assert (Hfin : forall w0 (o : Completion HttpResponse),
             delegateCalls w0 = (delegateCalls w ++ [requestStarted])%list ->
             match o with
             | NeverSettles => (w0, None, NeverSettles)
             | Rejected t => (w0, None, Rejected t)
             | Fulfilled fr =>
                 match dispatchResponseEvent env fr w0 with
                 | (w1, inl t) => (w1, Some fr, Rejected t)
                 | (w1, inr fr') => (w1, Some fr', Fulfilled fr')
                 end
             end = (w', fetchResponse, c) ->
             match c with
             | Fulfilled r =>
                 fetchResponse = Some r
                 /\ exists d,
                      delegateCalls w'
                      = (delegateCalls w ++ [requestStarted; d])%list
                      /\ reportsResponse r d
             | _ => delegateCalls w'
                    = (delegateCalls w ++ [requestStarted])%list
             end).
  { intros w0 [fr|t|] H0 Heq; try (inversion Heq; subst; exact H0).
    destruct (dispatchResponseEvent env fr w0) as [w1 [t|fr']] eqn:Hd;
      apply dispatchResponseEvent_delegate in Hd;
      inversion Heq; subst.
    - congruence.
    - destruct Hd as (d & Hd & Hr). split; [reflexivity|].
      exists d. split; [|exact Hr].
      rewrite Hd, H0, <- app_assoc. reflexivity. }
  destruct (rq_response (ev_payload requestEvent)) as [response|].
  - exact (Hfin (notify requestStarted w) (Fulfilled response) eq_refl Ht).
  - destruct (dispatchBeforeSendEvent env (notify requestStarted w))
      as [w1 [t|beforeSendEvent]] eqn:Hb;
      apply dispatchBeforeSendEvent_delegate in Hb; cbn in Hb.
    + exact (Hfin w1 (Rejected t) Hb Ht).
    + destruct (rq_response (ev_payload beforeSendEvent)) as [response|].
      * exact (Hfin w1 (Fulfilled response) Hb Ht).
      * match type of Ht with
        | context [awaitSafeFetch env ?w0] =>
            destruct (awaitSafeFetch env w0) as [w2 o] eqn:Hs;
            apply awaitSafeFetch_delegate in Hs
        end.
        apply (Hfin w2 o); [|exact Ht].
        rewrite Hs, <- Hb.
        destruct (_abortController (request w1)); reflexivity.
Qed.

(** The [finally] block tells the delegate that the request is finished
    and lets the pending completion through, unless a TERMINATE listener
    throws. *)
Lemma finallyBlock_delegate (env : Environment)
  (fetchResponse : option HttpResponse) (err : option Thrown)
  (pending : Completion HttpResponse) (w w' : World)
  (c : Completion HttpResponse) :
  finallyBlock env fetchResponse err pending w = (w', c) ->
  (delegateCalls w' = (delegateCalls w ++ [requestFinished])%list
   /\ c = pending)
  \/ (delegateCalls w' = delegateCalls w
      /\ exists t, c = Rejected t
                   /\ snd (dispatchTerminateEvent env fetchResponse err w)
                      = Some t).
Proof.
  unfold finallyBlock. intro Hf.
  destruct (dispatchTerminateEvent env fetchResponse err w)
    as [w1 [t|]] eqn:Hd;
    unfold dispatchTerminateEvent, newEvent in Hd;
    match type of Hd with
    | context [dispatch ?ls ?n ?e ?w0] =>
        destruct (dispatch ls n e w0) as [w2 [t'|event]] eqn:Hb;
        apply dispatch_delegate in Hb; cbn in Hb
    end; inversion Hd; subst; inversion Hf; subst; cbn.
  - right. split; [exact Hb | eauto].
  - left. rewrite Hb. split; reflexivity.
Qed.

Lemma dispatchErrorEvent_delegate (env : Environment) (err : Thrown)
  (w w' : World) (res : Thrown + FetchRequestErrorEvent) :
  dispatchErrorEvent env err w = (w', res) ->
  delegateCalls w' = delegateCalls w.
Proof.
  unfold dispatchErrorEvent, newEvent. intro Hd.
  apply dispatch_delegate in Hd. exact Hd.
Qed.

Lemma willDelegateErrorHandling_delegate (env : Environment) (err : Thrown)
  (w w' : World) (res : Thrown + bool) :
  willDelegateErrorHandling env err w = (w', res) ->
  delegateCalls w' = delegateCalls w.
Proof.
  unfold willDelegateErrorHandling, newEvent. intro Hd.
  match type of Hd with
  | context [dispatch ?ls ?n ?e ?w0] =>
      destruct (dispatch ls n e w0) as [w1 [t|event]] eqn:Hb;
      apply dispatch_delegate in Hb; cbn in Hb
  end; inversion Hd; subst; exact Hb.
Qed.

(** The [catch] block: the delegate is told of the error at most once,
    and only when [handle()] goes on to throw; a recovered error is not
    reported to it at all. *)
Lemma catchBlockOfHandle_delegate (env : Environment)
  (fetchResponse : option HttpResponse) (err : Thrown) (w w' : World)
  (c : Completion HttpResponse) :
  catchBlockOfHandle env fetchResponse err w = (w', c) ->
  exists outcome fin,
    delegateCalls w' = (delegateCalls w ++ outcome ++ fin)%list
    /\ (outcome = [] \/ outcome = [requestErrored err])
    /\ (fin = [requestFinished] \/ fin = [])
    /\ (forall r, c = Fulfilled r ->
                  outcome = [] /\ fin = [requestFinished]).
Proof.
  unfold catchBlockOfHandle. intro Hc.
  assert (Hfin : forall w0 fr e0 pending outcome,
             delegateCalls w0 = (delegateCalls w ++ outcome)%list ->
             (outcome = [] \/ outcome = [requestErrored err]) ->
             (forall r, pending = Fulfilled r -> outcome = []) ->
             finallyBlock env fr e0 pending w0 = (w', c) ->
             exists outcome fin,
               delegateCalls w' = (delegateCalls w ++ outcome ++ fin)%list
               /\ (outcome = [] \/ outcome = [requestErrored err])
               /\ (fin = [requestFinished] \/ fin = [])
               /\ (forall r, c = Fulfilled r ->
                             outcome = [] /\ fin = [requestFinished])).
  { intros w0 fr e0 pending outcome H0 Ho Hp Hf.
    apply finallyBlock_delegate in Hf.
    destruct Hf as [[Hd Heq] | [Hd (t & Heq & _)]]; subst c.
    - exists outcome, [requestFinished]. rewrite Hd, H0, <- app_assoc.
      repeat split; auto. exact (Hp r H).
    - exists outcome, []. rewrite Hd, H0, app_nil_r.
      repeat split; auto; discriminate. }
  destruct (dispatchErrorEvent env err w) as [w1 [t|errorEvent]] eqn:Hd;
    apply dispatchErrorEvent_delegate in Hd.
  - refine (Hfin w1 _ _ _ [] _ _ _ Hc);
      [rewrite app_nil_r; congruence | now left | intros; discriminate].
  - destruct (recoveryOf errorEvent) as [response|].
    + refine (Hfin w1 _ _ _ [] _ _ _ Hc);
        [rewrite app_nil_r; congruence | now left | reflexivity].
    + destruct (willDelegateErrorHandling env err w1)
        as [w2 [t|delegated]] eqn:Hw;
        apply willDelegateErrorHandling_delegate in Hw.
      * refine (Hfin w2 _ _ _ [] _ _ _ Hc);
          [rewrite app_nil_r; congruence | now left | intros; discriminate].
      * destruct delegated.
        -- refine (Hfin _ _ _ _ [requestErrored err] _ _ _ Hc);
             [cbn; congruence | now right | intros; discriminate].
        -- refine (Hfin w2 _ _ _ [] _ _ _ Hc);
             [rewrite app_nil_r; congruence | now left
             | intros; discriminate].
Qed.

(* ------------------------------------------------------------------ *)
(** *** What the engine is run with *)

Lemma options_cancel (r : FetchRequest) :
  _fetchRequestOptions (cancel r) = _fetchRequestOptions r.
Proof.
  unfold cancel. destruct (_isCancelled r), (_abortController r); reflexivity.
Qed.

Ltac options_kept :=
  intros; cbn in *; rewrite ?options_cancel; assumption.

Lemma spreadOptions_same (o : FetchRequestOptions) : spreadOptions o o = o.
Proof.
  destruct o as [u m d h t n ty f k s]. unfold spreadOptions. cbn.
  destruct m, d, h, t, n, ty, f, k, s; reflexivity.
Qed.

(** The engine run by [handle()]: what it adds to the trace is configured
    by the options the request holds at that point, and it leaves them
    as they are. *)
Lemma awaitSafeFetch_effects (env : Environment) (w w' : World)
  (c : Completion HttpResponse) :
  awaitSafeFetch env w = (w', c) ->
  _fetchRequestOptions (request w') = _fetchRequestOptions (request w)
  /\ exists added,
       engineEffects w' = (engineEffects w ++ added)%list
       /\ Forall (callAsConfigured (_fetchRequestOptions (request w))) added.
Proof.
  intro Hs. split.
  - apply (awaitSafeFetch_request
             (fun r => _fetchRequestOptions r
                       = _fetchRequestOptions (request w))) in Hs;
      [exact Hs | options_kept .. | reflexivity].
  - unfold awaitSafeFetch in Hs.
    pose proof (safeFetch_calls FetchRequest tokenTripped cancel
                  (_fetchRequestOptions (request w)) (scenario env)
                  (request w)) as Hc.
    destruct (safeFetch FetchRequest tokenTripped cancel
                (_fetchRequestOptions (request w)) (scenario env)
                (request w)) as [s c0].
    inversion Hs; subst. exists (effects s). split; [reflexivity | exact Hc].
Qed.

(** What [dispatch] hands back is what its listeners left. *)
Lemma dispatch_result {P M : Type} `{EventClass P M}
  (ls : list (Listener P M)) (name : string) (e : Event P) (w w' : World)
  (res : Thrown + Event P) :
  dispatch ls name e w = (w', res) ->
  request w' = snd (fst (runListeners ls e (request w)))
  /\ match res with
     | inr e' => e' = fst (fst (runListeners ls e (request w)))
                 /\ snd (runListeners ls e (request w)) = None
     | inl t => snd (runListeners ls e (request w)) = Some t
     end.
Proof.
  unfold dispatch. cbn [request].
  destruct (runListeners ls e (request w)) as [[e' r'] [t|]];
    intro Hd; inversion Hd; subst; cbn; auto.
Qed.

Lemma dispatchBeforeSendEvent_options (env : Environment) (w w' : World)
  (res : Thrown + FetchRequestEvent) :
  dispatchBeforeSendEvent env w = (w', res) ->
  neverCall (onBeforeSend env) ->
  _fetchRequestOptions (request w') = _fetchRequestOptions (request w).
Proof.
  unfold dispatchBeforeSendEvent, newEvent. intros Hd Hq.
  match type of Hd with
  | context [dispatch ?ls ?n ?e ?w0] =>
      destruct (dispatch ls n e w0) as [w1 r1] eqn:Hb;
      pose proof (dispatch_result ls n e w0 w1 r1 Hb) as [_ Hres];
      pose proof (runListeners_payload ls Hq e (request w0)) as Hp;
      apply (dispatch_request
               (fun r => _fetchRequestOptions r
                         = _fetchRequestOptions (request w))) in Hb;
      [| options_kept
       | apply invokeRequestMethod_request; options_kept
       | reflexivity]
  end.
  destruct r1 as [t|event]; inversion Hd; subst; [exact Hb|].
  destruct Hres as [-> _]. cbn [request withRequest setOptions
                                 _fetchRequestOptions].
  cbn [request] in Hp. rewrite Hp.
  cbn [ev_payload rq_fetchOptions request]. rewrite Hb.
  apply spreadOptions_same.
Qed.

Lemma tryBlock_effects (env : Environment) (requestEvent : FetchRequestEvent)
  (w w' : World) (fetchResponse : option HttpResponse)
  (c : Completion HttpResponse) :
  tryBlock env requestEvent w = (w', fetchResponse, c) ->
  (exists added,
     engineEffects w' = (engineEffects w ++ added)%list
     /\ Forall (callAsConfigured (_fetchRequestOptions (request w'))) added)
  /\ (neverCall (onBeforeSend env) ->
      o_url (_fetchRequestOptions (request w'))
      = o_url (_fetchRequestOptions (request w))).
Proof.
  unfold tryBlock. intro Ht.
  assert (Hfin : forall w0 (o : Completion HttpResponse),
             (exists added,
                engineEffects w0 = (engineEffects w ++ added)%list
                /\ Forall (callAsConfigured
                             (_fetchRequestOptions (request w0))) added) ->
             (neverCall (onBeforeSend env) ->
              o_url (_fetchRequestOptions (request w0))
              = o_url (_fetchRequestOptions (request w))) ->
             match o with
             | NeverSettles => (w0, None, NeverSettles)
             | Rejected t => (w0, None, Rejected t)
             | Fulfilled fr =>
                 match dispatchResponseEvent env fr w0 with
                 | (w1, inl t) => (w1, Some fr, Rejected t)
                 | (w1, inr fr') => (w1, Some fr', Fulfilled fr')
                 end
             end = (w', fetchResponse, c) ->
             (exists added,
                engineEffects w' = (engineEffects w ++ added)%list
                /\ Forall (callAsConfigured
                             (_fetchRequestOptions (request w'))) added)
             /\ (neverCall (onBeforeSend env) ->
                 o_url (_fetchRequestOptions (request w'))
                 = o_url (_fetchRequestOptions (request w)))).
  { intros w0 [fr|t|] H0 H1 Heq; try (inversion Heq; subst; now split).
    destruct (dispatchResponseEvent env fr w0) as [w1 res] eqn:Hd.
    pose proof Hd as He. apply dispatchResponseEvent_evolves in He.
    destruct He as [_ He].
    apply (dispatchResponseEvent_request
             (fun r => _fetchRequestOptions r
                       = _fetchRequestOptions (request w0))) in Hd;
      [| options_kept .. | reflexivity].
    assert (w' = w1) by (destruct res; inversion Heq; reflexivity). subst w1.
    rewrite Hd, He. now split. }
  assert (Hnone : exists added,
             engineEffects w = (engineEffects w ++ added)%list
             /\ Forall (callAsConfigured
                          (_fetchRequestOptions (request w))) added)
    by (exists []; split; [now rewrite app_nil_r | constructor]).
  destruct (rq_response (ev_payload requestEvent)) as [response|].
  - exact (Hfin (notify requestStarted w) (Fulfilled response) Hnone
             (fun _ => eq_refl) Ht).
  - destruct (dispatchBeforeSendEvent env (notify requestStarted w))
      as [w1 res] eqn:Hb.
    pose proof Hb as He. apply dispatchBeforeSendEvent_evolves in He.
    destruct He as (e & _ & He). cbn in He.
    pose proof (dispatchBeforeSendEvent_options _ _ _ _ Hb) as Ho.
    cbn in Ho.
    assert (Hsame : exists added,
               engineEffects w1 = (engineEffects w ++ added)%list
               /\ Forall (callAsConfigured
                            (_fetchRequestOptions (request w1))) added)
      by (exists []; split; [now rewrite app_nil_r | constructor]).
    assert (Hurl : neverCall (onBeforeSend env) ->
                   o_url (_fetchRequestOptions (request w1))
                   = o_url (_fetchRequestOptions (request w)))
      by (intro Hq; now rewrite (Ho Hq)).
    destruct res as [t|beforeSendEvent].
    + exact (Hfin w1 (Rejected t) Hsame Hurl Ht).
    + destruct (rq_response (ev_payload beforeSendEvent)) as [response|].
      * exact (Hfin w1 (Fulfilled response) Hsame Hurl Ht).
      * match type of Ht with
        | context [awaitSafeFetch env ?w0] =>
            destruct (awaitSafeFetch env w0) as [w2 o] eqn:Hs;
            apply awaitSafeFetch_effects in Hs;
            destruct Hs as (Hopt & added & Hadd & Hcalls)
        end.
        apply (Hfin w2 o); [| | exact Ht].
        -- exists added. rewrite Hopt. split; [|exact Hcalls].
           rewrite Hadd.
           destruct (_abortController (request w1)); cbn; now rewrite He.
        -- intro Hq. rewrite Hopt, <- (Hurl Hq).
           destruct (_abortController (request w1)); reflexivity.
Qed.

(** [handle()] as a whole. *)
Lemma handle_effects (env : Environment) (w : World) :
  (exists added,
     engineEffects (fst (handle env w)) = (engineEffects w ++ added)%list
     /\ Forall (callAsConfigured
                  (_fetchRequestOptions (request (fst (handle env w)))))
          added)
  /\ (neverCall (onBeforeSend env) ->
      o_url (_fetchRequestOptions (request (fst (handle env w))))
      = o_url (_fetchRequestOptions (request w))).
Proof.
  assert (Hnone : forall w0 : World, exists added,
             engineEffects w0 = (engineEffects w0 ++ added)%list
             /\ Forall (callAsConfigured
                          (_fetchRequestOptions (request w0))) added)
    by (intro w0; exists []; split; [now rewrite app_nil_r | constructor]).
  unfold handle.
  destruct (_isCancelled (request w)); [split; [apply Hnone | reflexivity]|].
  destruct (dispatchRequestEvent env (notify prepareRequest w))
    as [w1 c1] eqn:Hr.
  pose proof Hr as He1. apply dispatchRequestEvent_evolves in He1.
  destruct He1 as [_ He1]. cbn in He1.
  apply (dispatchRequestEvent_request
           (fun r => _fetchRequestOptions r
                     = _fetchRequestOptions (request w))) in Hr;
    [| options_kept .. | reflexivity].
  destruct c1 as [requestEvent|t|]; cbn [fst];
    try (rewrite Hr, He1; split; [|reflexivity];
         rewrite <- He1, <- Hr; apply Hnone).
  destruct (tryBlock env requestEvent w1) as [[w2 fr] o] eqn:Ht.
  apply tryBlock_effects in Ht.
  destruct Ht as [(added & Hadd & Hcalls) Hurl].
  rewrite He1 in Hadd. rewrite Hr in Hurl.
  assert (Hlast : forall w3 : World,
             _fetchRequestOptions (request w3)
             = _fetchRequestOptions (request w2) ->
             engineEffects w3 = engineEffects w2 ->
             (exists added0,
                engineEffects w3 = (engineEffects w ++ added0)%list
                /\ Forall (callAsConfigured
                             (_fetchRequestOptions (request w3))) added0)
             /\ (neverCall (onBeforeSend env) ->
                 o_url (_fetchRequestOptions (request w3))
                 = o_url (_fetchRequestOptions (request w)))).
  { intros w3 Ho He. rewrite Ho, He. split; [|exact Hurl].
    exists added. now split. }
  destruct o as [response|err|].
  - destruct (finallyBlock env fr None (Fulfilled response) w2)
      as [w3 c] eqn:Hf. cbn [fst].
    pose proof Hf as He. apply finallyBlock_evolves in He.
    destruct He as (_ & He & _).
    apply (finallyBlock_request
             (fun r => _fetchRequestOptions r
                       = _fetchRequestOptions (request w2))) in Hf;
      [| options_kept .. | reflexivity].
    exact (Hlast w3 Hf He).
  - destruct (catchBlockOfHandle env fr err w2) as [w3 c] eqn:Hc. cbn [fst].
    pose proof Hc as He. apply catchBlockOfHandle_evolves in He.
    destruct He as (l & e & n & _ & _ & He & _).
    apply (catchBlockOfHandle_request
             (fun r => _fetchRequestOptions r
                       = _fetchRequestOptions (request w2))) in Hc;
      [| options_kept .. | reflexivity].
    exact (Hlast w3 Hc He).
  - cbn [fst]. exact (Hlast w2 eq_refl eq_refl).
Qed.

(* ------------------------------------------------------------------ *)
(** *** Events that carry a response *)

Lemma requestEvent_stopped_if_supplied
  (ls : list (Listener RequestFields RequestMethod)) (e : FetchRequestEvent)
  (r : FetchRequest) :
  requestStoppedIfSupplied e ->
  requestStoppedIfSupplied (fst (fst (runListeners ls e r))).
Proof.
  apply (runListeners_invariant (fun e0 _ => requestStoppedIfSupplied e0));
    unfold requestStoppedIfSupplied, hasResponse; cbn; auto.
  intros m e0 r0 H0. destruct m as [[resp|]|u|o| |reason]; cbn; auto.
  discriminate.
Qed.

Lemma errorEvent_recovered_if_supplied
  (ls : list (Listener ErrorFields ErrorMethod)) (e : FetchRequestErrorEvent)
  (r : FetchRequest) :
  errorRecoveredIfSupplied e ->
  errorRecoveredIfSupplied (fst (fst (runListeners ls e r))).
Proof.
  apply (runListeners_invariant (fun e0 _ => errorRecoveredIfSupplied e0));
    unfold errorRecoveredIfSupplied, errorHasResponse, isRecovered; cbn;
    auto.
  - intros e0 _ H0 Hs. split; [reflexivity | apply (H0 Hs)].
  - intros m e0 r0 H0. destruct m as [[resp|]|err]; cbn; auto.
    discriminate.
Qed.

(** After the ERROR listeners have run on the event [dispatchErrorEvent]
    creates, the event is recovered whenever it carries a response: the
    test [isRecovered() && hasResponse()] of [handle()] comes down to
    [hasResponse()]. *)
Lemma dispatchErrorEvent_recovery (env : Environment) (err : Thrown)
  (w w' : World) (errorEvent : FetchRequestErrorEvent) :
  dispatchErrorEvent env err w = (w', inr errorEvent) ->
  recoveryOf errorEvent = er_response (ev_payload errorEvent).
Proof.
  unfold dispatchErrorEvent, newEvent. intro Hd.
  apply dispatch_result in Hd. destruct Hd as [_ [-> _]].
  match goal with
  | |- context [runListeners ?ls ?e ?r] =>
      pose proof (errorEvent_recovered_if_supplied ls e r) as Hi;
      destruct (fst (fst (runListeners ls e r))) as [id [resp er rec] dp sp]
  end.
  unfold errorRecoveredIfSupplied, recoveryOf, errorHasResponse,
    isRecovered in *. cbn in *.
  destruct resp as [resp|]; [|now rewrite andb_false_r].
  destruct Hi as [_ ->]; [discriminate | reflexivity | reflexivity].
Qed.

(** The [finally] block lets nothing but the pending completion or the
    exception of a TERMINATE listener through. *)
Lemma finallyBlock_outcome (env : Environment)
  (fetchResponse : option HttpResponse) (err : option Thrown)
  (pending : Completion HttpResponse) (w w' : World)
  (c : Completion HttpResponse) :
  finallyBlock env fetchResponse err pending w = (w', c) ->
  (forall r, c = Fulfilled r -> pending = Fulfilled r)
  /\ (neverRaise (onTerminate env) ->
      c = pending
      /\ delegateCalls w' = (delegateCalls w ++ [requestFinished])%list).
Proof.
  intro Hf. pose proof (dispatchTerminateEvent_quiet env fetchResponse err w)
    as Hq.
  apply finallyBlock_delegate in Hf.
  destruct Hf as [[Hd ->] | [Hd (t & -> & Ht)]].
  - split; auto.
  - split; [discriminate|]. intro Hn. rewrite (Hq Hn) in Ht. discriminate.
Qed.

(** A [catch] block that ends in a fulfilled promise has recovered: the
    ERROR event was dispatched once, and the TERMINATE event that follows
    it carries the response and no error. *)
Lemma catchBlockOfHandle_fulfilled (env : Environment)
  (fetchResponse : option HttpResponse) (err : Thrown) (w w' : World)
  (r : HttpResponse) :
  catchBlockOfHandle env fetchResponse err w = (w', Fulfilled r) ->
  dispatchedEvents w'
  = (dispatchedEvents w
     ++ [(ERROR, freshErrorEvent (nextEventId w) err);
         (TERMINATE,
          OfTerminate (mkEvent (S (nextEventId w))
                         (mkTerminateFields (Some r) None) false false))])%list.
Proof.
  unfold catchBlockOfHandle. intro Hc.
  destruct (dispatchErrorEvent env err w) as [w1 [t|errorEvent]] eqn:Hd.
  - apply finallyBlock_outcome in Hc. destruct Hc as [Hc _].
    specialize (Hc r eq_refl). discriminate.
  - apply dispatchErrorEvent_evolves in Hd. destruct Hd as [[Hl Hn] _].
    destruct (recoveryOf errorEvent) as [response|].
    + pose proof Hc as Ho. apply finallyBlock_outcome in Ho.
      destruct Ho as [Ho _]. specialize (Ho r eq_refl).
      inversion Ho; subst response.
      apply finallyBlock_evolves in Hc. destruct Hc as ([Hl' _] & _).
      rewrite Hl', Hl, Hn, <- app_assoc.
      replace (nextEventId w + 1)%nat with (S (nextEventId w)) by lia.
      reflexivity.
    + destruct (willDelegateErrorHandling env err w1)
        as [w2 [t|delegated]];
        apply finallyBlock_outcome in Hc; destruct Hc as [Hc _];
        specialize (Hc r eq_refl); discriminate.
Qed.

(** A recovered error, stage by stage. *)
Lemma catchBlockOfHandle_recovered (env : Environment)
  (fetchResponse : option HttpResponse) (err : Thrown) (w w1 : World)
  (errorEvent : FetchRequestErrorEvent) (r : HttpResponse) :
  dispatchErrorEvent env err w = (w1, inr errorEvent) ->
  er_response (ev_payload errorEvent) = Some r ->
  catchBlockOfHandle env fetchResponse err w
  = finallyBlock env (Some r) None (Fulfilled r) w1.
Proof.
  intros Hd Hr. unfold catchBlockOfHandle. rewrite Hd.
  rewrite (dispatchErrorEvent_recovery _ _ _ _ _ Hd), Hr. reflexivity.
Qed.

(* ------------------------------------------------------------------ *)
(** *** The engine under two owners of the token *)

Section OwnerSimulation.

Variable Owner1 Owner2 : Type.
Variable aborted1 : Owner1 -> bool.
Variable abort1 : Owner1 -> Owner1.
Variable aborted2 : Owner2 -> bool.
Variable abort2 : Owner2 -> Owner2.
Variable R : Owner1 -> Owner2 -> Prop.
Hypothesis R_aborted : forall a b, R a b -> aborted1 a = aborted2 b.
Hypothesis R_abort : forall a b, R a b -> R (abort1 a) (abort2 b).

Lemma fetchPrimitive_sim (sig : option Signal) (a : AttemptScript)
  (st1 : Owner1) (st2 : Owner2) :
  R st1 st2 ->
  R (fst (fst (fetchPrimitive Owner1 aborted1 abort1 sig a st1)))
    (fst (fst (fetchPrimitive Owner2 aborted2 abort2 sig a st2)))
  /\ snd (fst (fetchPrimitive Owner1 aborted1 abort1 sig a st1))
     = snd (fst (fetchPrimitive Owner2 aborted2 abort2 sig a st2))
  /\ snd (fetchPrimitive Owner1 aborted1 abort1 sig a st1)
     = snd (fetchPrimitive Owner2 aborted2 abort2 sig a st2).
Proof.
  intro Hr. unfold fetchPrimitive, duringFlight.
  rewrite (R_aborted _ _ Hr).
  destruct sig as [[|n]|]; split_conditions; cbn [fst snd]; auto.
Qed.

Lemma attemptBody_sim (url : string) (timeout : Z) (retryCount : JsNumber)
  (responseType : HttpResponseType) (retryOnStatusCode keepalive : bool)
  (sc : Scenario) (attempt : Z) (fetchParams : RequestInit)
  (s1 : EngineState Owner1) (s2 : EngineState Owner2) :
  sameRun R s1 s2 ->
  sameRun R
    (fst (fst (attemptBody Owner1 aborted1 abort1 url timeout retryCount
                 responseType retryOnStatusCode keepalive sc attempt
                 fetchParams s1)))
    (fst (fst (attemptBody Owner2 aborted2 abort2 url timeout retryCount
                 responseType retryOnStatusCode keepalive sc attempt
                 fetchParams s2)))
  /\ snd (fst (attemptBody Owner1 aborted1 abort1 url timeout retryCount
                 responseType retryOnStatusCode keepalive sc attempt
                 fetchParams s1))
     = snd (fst (attemptBody Owner2 aborted2 abort2 url timeout retryCount
                   responseType retryOnStatusCode keepalive sc attempt
                   fetchParams s2))
  /\ snd (attemptBody Owner1 aborted1 abort1 url timeout retryCount
            responseType retryOnStatusCode keepalive sc attempt
            fetchParams s1)
     = snd (attemptBody Owner2 aborted2 abort2 url timeout retryCount
              responseType retryOnStatusCode keepalive sc attempt
              fetchParams s2).
Proof.
  intros [Hr He]. unfold attemptBody.
  set (armed := negb keepalive && (0 <? timeout)).
  set (params := if armed
                 then withSignal (AttemptController attempt) fetchParams
                 else fetchParams).
  assert (Ho : owner (emit (FetchCalled attempt url params)
                        (if armed then emit (TimerSet attempt timeout) s1
                         else s1)) = owner s1)
    by (destruct armed; reflexivity).
  assert (Ho2 : owner (emit (FetchCalled attempt url params)
                         (if armed then emit (TimerSet attempt timeout) s2
                          else s2)) = owner s2)
    by (destruct armed; reflexivity).
  assert (Hf : effects (emit (FetchCalled attempt url params)
                          (if armed then emit (TimerSet attempt timeout) s1
                           else s1))
               = effects (emit (FetchCalled attempt url params)
                            (if armed then emit (TimerSet attempt timeout) s2
                             else s2)))
    by (destruct armed; cbn; now rewrite He).
  rewrite Ho, Ho2, Hf.
  pose proof (fetchPrimitive_sim (p_signal params) (sc attempt)
                (owner s1) (owner s2) Hr) as (Hr' & Hsent & Hout).
  destruct (fetchPrimitive Owner1 aborted1 abort1 (p_signal params)
              (sc attempt) (owner s1)) as [[o1 sent1] out1].
  destruct (fetchPrimitive Owner2 aborted2 abort2 (p_signal params)
              (sc attempt) (owner s2)) as [[o2 sent2] out2].
  cbn [fst snd] in Hr', Hsent, Hout. subst sent2 out2.
  unfold sameRun, returnAwait, catchBlock, clearTimer, sleep, emit.
  destruct armed, sent1, out1 as [response|err|];
    split_conditions; cbn [fst snd owner effects]; auto.
Qed.

Lemma retryLoop_sim (url : string) (timeout : Z) (retryCount : JsNumber)
  (responseType : HttpResponseType) (retryOnStatusCode keepalive : bool)
  (sc : Scenario) (k : nat) :
  forall (attempt : Z) (fetchParams : RequestInit)
         (s1 : EngineState Owner1) (s2 : EngineState Owner2),
    sameRun R s1 s2 ->
    sameRun R
      (fst (retryLoop Owner1 aborted1 abort1 url timeout retryCount
              responseType retryOnStatusCode keepalive sc k attempt
              fetchParams s1))
      (fst (retryLoop Owner2 aborted2 abort2 url timeout retryCount
              responseType retryOnStatusCode keepalive sc k attempt
              fetchParams s2))
    /\ snd (retryLoop Owner1 aborted1 abort1 url timeout retryCount
              responseType retryOnStatusCode keepalive sc k attempt
              fetchParams s1)
       = snd (retryLoop Owner2 aborted2 abort2 url timeout retryCount
                responseType retryOnStatusCode keepalive sc k attempt
                fetchParams s2).
Proof.
  induction k as [|k IH]; intros attempt fetchParams s1 s2 Hs;
    [split; [exact Hs | reflexivity]|].
  rewrite !retryLoop_next.
  pose proof (attemptBody_sim url timeout retryCount responseType
                retryOnStatusCode keepalive sc attempt fetchParams s1 s2 Hs)
    as (Hs' & Hp & Hstep).
  destruct (attemptBody Owner1 aborted1 abort1 url timeout retryCount
              responseType retryOnStatusCode keepalive sc attempt
              fetchParams s1) as [[t1 p1] step1].
  destruct (attemptBody Owner2 aborted2 abort2 url timeout retryCount
              responseType retryOnStatusCode keepalive sc attempt
              fetchParams s2) as [[t2 p2] step2].
  cbn [fst snd] in Hs', Hp, Hstep. subst p2 step2.
  destruct step1 as [c|]; [split; [exact Hs' | reflexivity]|].
  apply IH. exact Hs'.
Qed.

(** The engine does not depend on who owns the token, only on what
    [signal.aborted] answers and on the token staying tripped. *)
Lemma safeFetch_sim (o : FetchRequestOptions) (sc : Scenario)
  (st1 : Owner1) (st2 : Owner2) :
  R st1 st2 ->
  sameRun R (fst (safeFetch Owner1 aborted1 abort1 o sc st1))
    (fst (safeFetch Owner2 aborted2 abort2 o sc st2))
  /\ snd (safeFetch Owner1 aborted1 abort1 o sc st1)
     = snd (safeFetch Owner2 aborted2 abort2 o sc st2).
Proof.
  intro Hr. rewrite !safeFetch_is_retryLoop. apply retryLoop_sim.
  split; [exact Hr | reflexivity].
Qed.

End OwnerSimulation.

(* ------------------------------------------------------------------ *)
(** *** [handle()] without listeners *)

Lemma tokenOf_aborted (r : FetchRequest) (b : bool) :
  tokenOf r b -> tokenTripped r = b.
Proof.
  unfold tokenOf, flagTracksToken, tokenTripped. intros [-> <-]. reflexivity.
Qed.

Lemma tokenOf_abort (r : FetchRequest) (b : bool) :
  tokenOf r b -> tokenOf (cancel r) true.
Proof.
  unfold tokenOf, flagTracksToken, cancel. intros [Hc _].
  destruct (_isCancelled r) eqn:Hi; rewrite Hc; cbn; rewrite ?Hi, ?Hc; auto.
Qed.

(** X18.  With no listener registered, [handle()] is the engine run under the
    request's own token: it settles as the engine does, with the same
    response or the same error, the network sees what the engine alone
    would have made it see, and [isCancelled()] ends as the token does. *)
Theorem handle_without_listeners_is_engine (sc : Scenario) (w : World) :
  flagTracksToken (request w) ->
  _isCancelled (request w) = false ->
  snd (handle (noListeners sc) w)
  = snd (standalone (setSignal SharedToken (_fetchRequestOptions (request w)))
           sc false)
  /\ engineEffects (fst (handle (noListeners sc) w))
     = (engineEffects w
        ++ effects (fst (standalone
                           (setSignal SharedToken
                              (_fetchRequestOptions (request w)))
                           sc false)))%list
  /\ isCancelled (request (fst (handle (noListeners sc) w)))
     = owner (fst (standalone
                     (setSignal SharedToken
                        (_fetchRequestOptions (request w)))
                     sc false)).
Proof.
  intros Hflag Hguard. unfold standalone.
  unfold handle. rewrite Hguard.
  unfold dispatchRequestEvent, tryBlock, dispatchBeforeSendEvent, newEvent,
    dispatch, noListeners.
  cbn [onRequest onBeforeSend runListeners request withRequest notify
       isDefaultPrevented ev_defaultPrevented ev_payload rq_response
       rq_url rq_fetchOptions setInput newRequestPromise setOptions
       _abortController _fetchRequestOptions _input _isCancelled
       _requestPromise dispatchedEvents delegateCalls engineEffects
       nextEventId fst snd].
  rewrite spreadOptions_same.
  unfold flagTracksToken in Hflag. rewrite Hflag.
  cbn [request withRequest setOptions _fetchRequestOptions].
  unfold awaitSafeFetch.
  cbn [request withRequest setOptions _fetchRequestOptions scenario
       engineEffects dispatchedEvents delegateCalls nextEventId].
  match goal with
  | |- context [safeFetch FetchRequest tokenTripped cancel ?o ?s ?r0] =>
      pose proof (safeFetch_sim FetchRequest bool tokenTripped cancel
                    (fun b => b) (fun _ => true) tokenOf tokenOf_aborted
                    (fun a b h => tokenOf_abort a b h) o s r0 false) as Hsim;
      destruct (safeFetch FetchRequest tokenTripped cancel o s r0)
        as [s1 c1]
  end.
  destruct Hsim as [[[Hft Hown] Heff] Hc].
  { split; [exact Hflag | exact Hguard]. }
  cbn [fst snd] in Hft, Hown, Heff, Hc. rewrite <- Hc, <- Heff, <- Hown.
  unfold isCancelled.
  destruct c1 as [r|err|]; cbn.
  - unfold dispatchResponseEvent, finallyBlock, dispatchTerminateEvent,
      newEvent, dispatch. cbn.
    destruct (succeeded r || serverInfo r); cbn; auto.
  - unfold catchBlockOfHandle, dispatchErrorEvent, willDelegateErrorHandling,
      finallyBlock, dispatchTerminateEvent, newEvent, dispatch. cbn. auto.
  - auto.
Qed.

Lemma handle_without_listeners_is_engine_witness :
  snd (handle (noListeners alwaysFails) freshWorld)
  = snd (standalone (setSignal SharedToken plainOptions) alwaysFails false)
  /\ engineEffects (fst (handle (noListeners alwaysFails) freshWorld))
     = (engineEffects freshWorld
        ++ effects (fst (standalone (setSignal SharedToken plainOptions)
                           alwaysFails false)))%list
  /\ isCancelled (request (fst (handle (noListeners alwaysFails) freshWorld)))
     = owner (fst (standalone (setSignal SharedToken plainOptions)
                     alwaysFails false)).
Proof.
  apply (handle_without_listeners_is_engine alwaysFails freshWorld);
    vm_compute; reflexivity.
Defined.

(* ------------------------------------------------------------------ *)
(** *** Listeners that leave the default action alone *)

Lemma runActions_unprevented {P M : Type} `{EventClass P M}
  (acts : list (Action M)) :
  (forall m e r, ev_defaultPrevented (fst (invoke m e r))
                 = ev_defaultPrevented e) ->
  existsb prevents acts = false ->
  forall (e : Event P) (r : FetchRequest),
    ev_defaultPrevented (fst (fst (runActions acts e r)))
    = ev_defaultPrevented e.
Proof.
  intro Hm. induction acts as [|a acts IH]; intros Hq e r; [reflexivity|].
  cbn [existsb] in Hq. apply orb_false_iff in Hq. destruct Hq as [Ha Hq].
  destruct a; cbn [runActions prevents] in *; try discriminate;
    try reflexivity; try (rewrite (IH Hq); reflexivity).
  specialize (Hm m e r). destruct (invoke m e r) as [e' r'].
  rewrite (IH Hq). exact Hm.
Qed.

Lemma runListeners_unprevented {P M : Type} `{EventClass P M}
  (ls : list (Listener P M)) :
  (forall m e r, ev_defaultPrevented (fst (invoke m e r))
                 = ev_defaultPrevented e) ->
  neverPrevent ls ->
  forall (e : Event P) (r : FetchRequest),
    ev_defaultPrevented (fst (fst (runListeners ls e r)))
    = ev_defaultPrevented e.
Proof.
  intro Hm. induction ls as [|l ls IH]; intros Hq e r; [reflexivity|].
  cbn [runListeners].
  pose proof (runActions_unprevented (l e r) Hm
                (Hq l e r (or_introl eq_refl)) e r) as Ha.
  destruct (runActions (l e r) e r) as [[e' r'] [t|]]; cbn [fst snd] in Ha;
    [exact Ha|].
  destruct (ev_propagationStopped e'); [exact Ha|].
  rewrite IH; [exact Ha|]. intros l0 e0 r0 Hin. apply Hq. now right.
Qed.

Lemma invokeResponseMethod_flag (m : ResponseMethod) (e : FetchResponseEvent)
  (r : FetchRequest) :
  ev_defaultPrevented (fst (invoke m e r))
  = ev_defaultPrevented e.
Proof. destruct m; reflexivity. Qed.

Lemma invokeErrorMethod_flag (m : ErrorMethod) (e : FetchRequestErrorEvent)
  (r : FetchRequest) :
  ev_defaultPrevented (fst (invoke m e r))
  = ev_defaultPrevented e.
Proof. destruct m as [[response|]|err]; reflexivity. Qed.

Lemma neverPrevent_nil {P M : Type} : neverPrevent (@nil (Listener P M)).
Proof. intros l e r []. Qed.

(** ERROR listeners that neither throw, nor prevent the default action,
    nor call a method of the event leave the error unrecovered and its
    handling to the delegate. *)
Lemma dispatchErrorEvent_quiet (env : Environment) (err : Thrown)
  (w w' : World) (res : Thrown + FetchRequestErrorEvent) :
  neverRaise (onError env) -> neverPrevent (onError env) ->
  neverCall (onError env) ->
  dispatchErrorEvent env err w = (w', res) ->
  exists errorEvent,
    res = inr errorEvent
    /\ recoveryOf errorEvent = None
    /\ isDefaultPrevented errorEvent = false.
Proof.
  intros Hr Hp Hc. unfold dispatchErrorEvent, newEvent. intro Hd.
  apply dispatch_result in Hd. destruct Hd as [_ Hd].
  match type of Hd with
  | context [runListeners ?ls ?e ?r] =>
      pose proof (runListeners_quiet ls Hr e r) as Hq;
      pose proof (runListeners_payload ls Hc e r) as Hpay;
      pose proof (runListeners_unprevented ls invokeErrorMethod_flag Hp e r)
        as Hflag
  end.
  destruct res as [t|errorEvent]; [congruence|].
  destruct Hd as [-> _]. eexists. split; [reflexivity|].
  unfold recoveryOf, isRecovered, isDefaultPrevented.
  rewrite Hpay, Hflag. split; reflexivity.
Qed.

Lemma willDelegateErrorHandling_quiet (env : Environment) (err : Thrown)
  (w w' : World) (res : Thrown + bool) :
  neverRaise (onError env) -> neverPrevent (onError env) ->
  willDelegateErrorHandling env err w = (w', res) ->
  res = inr true.
Proof.
  intros Hr Hp. unfold willDelegateErrorHandling, newEvent. intro Hd.
  match type of Hd with
  | context [dispatch ?ls ?n ?e ?w0] =>
      destruct (dispatch ls n e w0) as [w1 [t|event]] eqn:Hb;
      apply dispatch_result in Hb; destruct Hb as [_ Hb]
  end.
  - match type of Hb with
    | context [runListeners ?ls ?e ?r] =>
        rewrite (runListeners_quiet ls Hr e r) in Hb
    end. discriminate.
  - destruct Hb as [-> _]. inversion Hd; subst.
    unfold isDefaultPrevented.
    rewrite (runListeners_unprevented _ invokeErrorMethod_flag Hp).
    reflexivity.
Qed.

(** The [catch] block and the delegate: the error is reported at most
    once, exactly when the second ERROR dispatch returns with the
    default action in place; a recovered error is not reported at all;
    [requestFinished] follows unless a TERMINATE listener throws. *)
Lemma catchBlockOfHandle_protocol (env : Environment)
  (fetchResponse : option HttpResponse) (err : Thrown) (w w' : World)
  (c : Completion HttpResponse) :
  catchBlockOfHandle env fetchResponse err w = (w', c) ->
  exists outcome fin,
    delegateCalls w' = (delegateCalls w ++ outcome ++ fin)%list
    /\ (outcome = [] \/ outcome = [requestErrored err])
    /\ (fin = [requestFinished] \/ fin = [])
    /\ (outcome = [requestErrored err] -> fin = [requestFinished] ->
        c = Rejected err)
    /\ (forall r, c = Fulfilled r ->
                  outcome = [] /\ fin = [requestFinished]
                  /\ exists w1 errorEvent,
                       dispatchErrorEvent env err w = (w1, inr errorEvent)
                       /\ recoveryOf errorEvent = Some r)
    /\ (neverRaise (onError env) -> neverPrevent (onError env) ->
        neverCall (onError env) -> outcome = [requestErrored err])
    /\ (neverRaise (onTerminate env) -> fin = [requestFinished])
    /\ (fin = [] -> exists t, c = Rejected t).
Proof.
  unfold catchBlockOfHandle. intro Hc.
  assert (Hfin : forall w0 fr e0 pending outcome,
             delegateCalls w0 = (delegateCalls w ++ outcome)%list ->
             finallyBlock env fr e0 pending w0 = (w', c) ->
             exists fin,
               delegateCalls w' = (delegateCalls w ++ outcome ++ fin)%list
               /\ (fin = [requestFinished] \/ fin = [])
               /\ (fin = [requestFinished] -> c = pending)
               /\ (forall r, c = Fulfilled r ->
                             fin = [requestFinished] /\ pending = Fulfilled r)
               /\ (neverRaise (onTerminate env) -> fin = [requestFinished])
               /\ (fin = [] -> exists t, c = Rejected t)).
  { intros w0 fr e0 pending outcome H0 Hf.
    pose proof (dispatchTerminateEvent_quiet env fr e0 w0) as Hq.
    apply finallyBlock_delegate in Hf.
    destruct Hf as [[Hd Heq] | [Hd (t & Heq & Ht)]]; subst c.
    - exists [requestFinished]. rewrite Hd, H0, <- app_assoc.
      split; [reflexivity|]. split; [now left|].
      split; [reflexivity|]. split; [auto|].
      split; [reflexivity | intro Hx; discriminate Hx].
    - exists []. rewrite Hd, H0, app_nil_r.
      split; [reflexivity|]. split; [now right|].
      split; [intro Hx; discriminate Hx|].
      split; [intros r Hx; discriminate Hx|].
      split; [|intros _; eauto].
      intro Hn. rewrite (Hq Hn) in Ht. discriminate Ht. }
  destruct (dispatchErrorEvent env err w) as [w1 [t|errorEvent]] eqn:Hd.
  - pose proof (dispatchErrorEvent_delegate _ _ _ _ _ Hd) as Hcalls.
    destruct (Hfin w1 _ _ _ [] ltac:(rewrite app_nil_r; exact Hcalls) Hc)
      as (fin & H1 & H2 & H3 & H4 & H5 & H6).
    exists [], fin.
    split; [exact H1|]. split; [now left|]. split; [exact H2|].
    split; [intro Hx; discriminate Hx|].
    split.
    { intros r Hr. destruct (H4 r Hr) as [_ Hx]. discriminate Hx. }
    split; [|split; [exact H5 | exact H6]].
    intros Hr Hp Hcall.
    destruct (dispatchErrorEvent_quiet _ _ _ _ _ Hr Hp Hcall Hd)
      as (e & He & _). discriminate He.
  - pose proof (dispatchErrorEvent_delegate _ _ _ _ _ Hd) as Hcalls.
    destruct (recoveryOf errorEvent) as [response|] eqn:Hrec.
    + destruct (Hfin w1 _ _ _ [] ltac:(rewrite app_nil_r; exact Hcalls) Hc)
        as (fin & H1 & H2 & H3 & H4 & H5 & H6).
      exists [], fin.
      split; [exact H1|]. split; [now left|]. split; [exact H2|].
      split; [intro Hx; discriminate Hx|].
      split.
      { intros r Hr. destruct (H4 r Hr) as [Hf Hx]. injection Hx as Hx.
        rewrite Hx in Hrec.
        split; [reflexivity|]. split; [exact Hf|]. eauto. }
      split; [|split; [exact H5 | exact H6]].
      intros Hr Hp Hcall.
      destruct (dispatchErrorEvent_quiet _ _ _ _ _ Hr Hp Hcall Hd)
        as (e & He & Hnone & _). inversion He; subst. congruence.
    + destruct (willDelegateErrorHandling env err w1)
        as [w2 [t|delegated]] eqn:Hw;
        pose proof (willDelegateErrorHandling_delegate _ _ _ _ _ Hw)
          as Hcalls2.
      * destruct (Hfin w2 _ _ _ []
                    ltac:(rewrite app_nil_r; congruence) Hc)
          as (fin & H1 & H2 & H3 & H4 & H5 & H6).
        exists [], fin.
        split; [exact H1|]. split; [now left|]. split; [exact H2|].
        split; [intro Hx; discriminate Hx|].
        split.
        { intros r Hr. destruct (H4 r Hr) as [_ Hx]. discriminate Hx. }
        split; [|split; [exact H5 | exact H6]].
        intros Hr Hp _.
        pose proof (willDelegateErrorHandling_quiet _ _ _ _ _ Hr Hp Hw)
          as Hx.
        discriminate Hx.
      * destruct delegated.
        -- assert (Hcalls3 : delegateCalls (notify (requestErrored err) w2)
                             = (delegateCalls w ++ [requestErrored err])%list)
             by (cbn; congruence).
           destruct (Hfin _ _ _ _ _ Hcalls3 Hc)
             as (fin & H1 & H2 & H3 & H4 & H5 & H6).
           exists [requestErrored err], fin.
           split; [exact H1|]. split; [now right|]. split; [exact H2|].
           split; [intros _ Hf; exact (H3 Hf)|].
           split.
           { intros r Hr. destruct (H4 r Hr) as [_ Hx]. discriminate Hx. }
           split; [|split; [exact H5 | exact H6]].
           reflexivity.
        -- destruct (Hfin w2 _ _ _ []
                       ltac:(rewrite app_nil_r; congruence) Hc)
             as (fin & H1 & H2 & H3 & H4 & H5 & H6).
           exists [], fin.
           split; [exact H1|]. split; [now left|]. split; [exact H2|].
           split; [intro Hx; discriminate Hx|].
           split.
           { intros r Hr. destruct (H4 r Hr) as [_ Hx]. discriminate Hx. }
           split; [|split; [exact H5 | exact H6]].
           intros Hr Hp _.
           pose proof (willDelegateErrorHandling_quiet _ _ _ _ _ Hr Hp Hw)
             as Hx.
           discriminate Hx.
Qed.

(* ------------------------------------------------------------------ *)
(** *** Properties of [handle()] *)

(** X19.  The flag and the token never part: on a request whose [_isCancelled]
    says what its controller's signal says (as on every request the
    constructor builds), no [handle()] call, whatever its listeners, the
    network and the user do, leaves the two in disagreement, or the
    request without its controller. *)
Theorem cancelled_flag_tracks_token (env : Environment) (w : World) :
  flagTracksToken (request w) ->
  flagTracksToken (request (fst (handle env w)))
  /\ isCancelled (request (fst (handle env w)))
     = tokenTripped (request (fst (handle env w))).
Proof.
  intro Hi.
  assert (Hf : flagTracksToken (request (fst (handle env w)))).
  { apply (handle_request flagTracksToken); try exact Hi;
      unfold flagTracksToken; cbn; auto.
    intros r Hr. unfold cancel.
    destruct (_isCancelled r) eqn:Hc, (_abortController r) eqn:Ha;
      cbn; congruence. }
  split; [exact Hf|].
  unfold isCancelled, tokenTripped. unfold flagTracksToken in Hf.
  now rewrite Hf.
Qed.

(** X20.  The delegate protocol of one [handle()] call whose REQUEST phase
    completes: [prepareRequest], then [requestStarted], then what the
    [try] block decides.  If it ends with a response [r], exactly one
    notification, which reports [r].  If it raises [err], the
    notification [requestErrored err] at most once, and exactly once
    when the ERROR listeners neither throw, nor prevent the default
    action, nor call a method of their event; a call that resolves
    after such an error was told of no outcome, the first ERROR dispatch
    having recovered the error with the response the call resolves
    with.  If it never settles, nothing more.  [requestFinished] comes
    last, unless the call never settles or a TERMINATE listener throws:
    with TERMINATE listeners that do not throw it is always sent, and a
    call that resolves has sent it.  A call that sent it ends the way
    the [try] block or the error handling decided. *)
Theorem delegate_protocol (env : Environment) (w w1 w2 w' : World)
  (requestEvent : FetchRequestEvent) (fetchResponse : option HttpResponse)
  (tried c : Completion HttpResponse) :
  _isCancelled (request w) = false ->
  dispatchRequestEvent env (notify prepareRequest w)
  = (w1, Fulfilled requestEvent) ->
  tryBlock env requestEvent w1 = (w2, fetchResponse, tried) ->
  handle env w = (w', c) ->
  exists outcome fin,
    delegateCalls w'
    = (delegateCalls w
       ++ [prepareRequest; requestStarted] ++ outcome ++ fin)%list
    /\ match tried with
       | NeverSettles => outcome = [] /\ fin = [] /\ c = NeverSettles
       | Fulfilled r =>
           (exists d, outcome = [d] /\ reportsResponse r d)
           /\ (fin = [requestFinished] -> c = Fulfilled r)
       | Rejected err =>
           (outcome = [] \/ outcome = [requestErrored err])
           /\ (outcome = [requestErrored err] -> fin = [requestFinished] ->
               c = Rejected err)
           /\ (forall r,
                 c = Fulfilled r ->
                 outcome = []
                 /\ exists w3 errorEvent,
                      dispatchErrorEvent env err w2 = (w3, inr errorEvent)
                      /\ recoveryOf errorEvent = Some r)
           /\ (neverRaise (onError env) -> neverPrevent (onError env) ->
               neverCall (onError env) -> outcome = [requestErrored err])
       end
    /\ (fin = [requestFinished] \/ fin = [])
    /\ (neverRaise (onTerminate env) -> tried <> NeverSettles ->
        fin = [requestFinished])
    /\ (fin = [] -> forall r, c <> Fulfilled r).
Proof.
  intros Hguard Hreq Htry Hh. unfold handle in Hh.
  rewrite Hguard, Hreq, Htry in Hh.
  apply dispatchRequestEvent_delegate in Hreq. cbn in Hreq.
  apply tryBlock_delegate in Htry.
  destruct tried as [r|err|].
  - destruct Htry as (-> & d & Hd & Hrep).
    pose proof (dispatchTerminateEvent_quiet env (Some r) None w2) as Hq.
    apply finallyBlock_delegate in Hh.
    destruct Hh as [[Hf ->] | [Hf (t & -> & Ht)]].
    + exists [d], [requestFinished].
      split; [rewrite Hf, Hd, Hreq, <- !app_assoc; reflexivity|].
      split; [split; [eauto | reflexivity]|].
      split; [now left|]. split; [reflexivity|].
      intro Hx; discriminate Hx.
    + exists [d], [].
      split; [rewrite Hf, Hd, Hreq, <- !app_assoc; reflexivity|].
      split; [split; [eauto | intro Hx; discriminate Hx]|].
      split; [now right|].
      split; [|intros _ r0 Hx; discriminate Hx].
      intros Hn _. rewrite (Hq Hn) in Ht. discriminate Ht.
  - apply catchBlockOfHandle_protocol in Hh.
    destruct Hh as (outcome & fin & Hc & Hout & Hfin & Herr & Hful & Hquiet
                    & Hterm & Hthrown).
    exists outcome, fin.
    split; [rewrite Hc, Htry, Hreq, <- !app_assoc; reflexivity|].
    split.
    { split; [exact Hout|]. split; [exact Herr|]. split; [|exact Hquiet].
      intros r Hr. destruct (Hful r Hr) as (Ho & _ & Hrec).
      split; [exact Ho | exact Hrec]. }
    split; [exact Hfin|].
    split; [intros Hn _; exact (Hterm Hn)|].
    intros Hf r Hr. destruct (Hthrown Hf) as [t Ht]. congruence.
  - inversion Hh; subst. exists [], [].
    split; [rewrite Htry, Hreq, <- !app_assoc; reflexivity|].
    split; [repeat split|].
    split; [now right|].
    split; [intros _ Hx; now contradiction Hx|].
    intros _ r Hx; discriminate Hx.
Qed.

(** X21.  Whatever the listeners, the network and the user do, every call of
    the primitive made during [handle()] is configured by the options the
    request holds when [handle()] ends: it targets their url, and
    carries the method, headers, body and keep-alive flag worked out
    from them.  (Listeners act through their event and through
    [cancel()]; none assigns the options of the request directly.) *)
Theorem handle_calls_follow_final_options (env : Environment) (w : World) :
  exists added,
    engineEffects (fst (handle env w)) = (engineEffects w ++ added)%list
    /\ Forall (callAsConfigured
                 (_fetchRequestOptions (request (fst (handle env w)))))
         added.
Proof. exact (proj1 (handle_effects env w)). Qed.

(** X22.  The url a listener sets on the REQUEST event with [setUrl] is stored
    in [_input] and goes no further: when no BEFORE_SEND listener calls
    a method of its event, every call of the primitive targets the url
    of the options the request had when [handle()] was called. *)
Theorem fetch_url_ignores_request_event_url (env : Environment) (w : World) :
  neverCall (onBeforeSend env) ->
  exists added,
    engineEffects (fst (handle env w)) = (engineEffects w ++ added)%list
    /\ Forall (callTargets (o_url (_fetchRequestOptions (request w)))) added.
Proof.
  intro Hq. destruct (handle_effects env w) as [(added & Ha & Hc) Hu].
  exists added. split; [exact Ha|].
  eapply Forall_impl; [|exact Hc].
  intros [| |attempt url init| |]; cbn; try exact (fun _ => I).
  intros [-> _]. exact (Hu Hq).
Qed.

(** X23.  When [handle()] resolves with [r], the last event handed to the bus is
    the TERMINATE event, and it carries [r] and no error. *)
Theorem terminate_reports_success (env : Environment) (w w' : World)
  (r : HttpResponse) :
  handle env w = (w', Fulfilled r) ->
  exists before id,
    dispatchedEvents w'
    = (dispatchedEvents w ++ before
       ++ [(TERMINATE,
            OfTerminate (mkEvent id (mkTerminateFields (Some r) None)
                           false false))])%list.
Proof.
  intro Hh. unfold handle in Hh.
  destruct (_isCancelled (request w)); [discriminate|].
  destruct (dispatchRequestEvent env (notify prepareRequest w))
    as [w1 c1] eqn:Hr.
  apply dispatchRequestEvent_evolves in Hr. destruct Hr as [[Hl1 _] _].
  cbn in Hl1.
  destruct c1 as [requestEvent|t|]; try discriminate.
  destruct (tryBlock env requestEvent w1) as [[w2 fr] o] eqn:Ht.
  pose proof Ht as Hd. apply tryBlock_delegate in Hd.
  apply tryBlock_evolves in Ht. destruct Ht as (l2 & n2 & [Hl2 _] & _).
  destruct o as [response|err|]; try discriminate.
  - destruct Hd as (-> & _).
    pose proof Hh as Ho. apply finallyBlock_outcome in Ho.
    destruct Ho as [Ho _]. specialize (Ho r eq_refl).
    inversion Ho; subst response.
    apply finallyBlock_evolves in Hh. destruct Hh as ([Hl3 _] & _).
    exists ([(REQUEST,
              OfRequest (mkEvent (nextEventId w)
                           (mkRequestFields None (_input (request w))
                              (_fetchRequestOptions (request w)))
                           false false))] ++ l2)%list, (nextEventId w2).
    rewrite Hl3, Hl2, Hl1, <- !app_assoc. reflexivity.
  - apply catchBlockOfHandle_fulfilled in Hh.
    exists ([(REQUEST,
              OfRequest (mkEvent (nextEventId w)
                           (mkRequestFields None (_input (request w))
                              (_fetchRequestOptions (request w)))
                           false false))] ++ l2
            ++ [(ERROR, freshErrorEvent (nextEventId w2) err)])%list,
      (S (nextEventId w2)).
    rewrite Hh, Hl2, Hl1, <- !app_assoc. reflexivity.
Qed.

(** X24.  An error of the [try] block that an ERROR listener answers with a
    response is recovered: the ERROR event is dispatched once (not
    twice), the TERMINATE event carries the response and no error, and
    unless a TERMINATE listener throws [handle()] resolves with that
    response, the delegate being told neither of an error nor of a
    response. *)
Theorem recovered_error_resolves (env : Environment)
  (w w1 w2 w3 w' : World) (requestEvent : FetchRequestEvent)
  (fetchResponse : option HttpResponse) (err : Thrown)
  (errorEvent : FetchRequestErrorEvent) (r : HttpResponse)
  (c : Completion HttpResponse) :
  _isCancelled (request w) = false ->
  dispatchRequestEvent env (notify prepareRequest w)
  = (w1, Fulfilled requestEvent) ->
  tryBlock env requestEvent w1 = (w2, fetchResponse, Rejected err) ->
  dispatchErrorEvent env err w2 = (w3, inr errorEvent) ->
  er_response (ev_payload errorEvent) = Some r ->
  handle env w = (w', c) ->
  dispatchedEvents w'
  = (dispatchedEvents w2
     ++ [(ERROR, freshErrorEvent (nextEventId w2) err);
         (TERMINATE,
          OfTerminate (mkEvent (S (nextEventId w2))
                         (mkTerminateFields (Some r) None) false false))])%list
  /\ countDispatched ERROR (dispatchedEvents w')
     = S (countDispatched ERROR (dispatchedEvents w))
  /\ (neverRaise (onTerminate env) ->
      c = Fulfilled r
      /\ delegateCalls w'
         = (delegateCalls w
            ++ [prepareRequest; requestStarted; requestFinished])%list).
Proof.
  intros Hguard Hreq Htry Hd Hresp Hh.
  unfold handle in Hh. rewrite Hguard, Hreq, Htry in Hh.
  rewrite (catchBlockOfHandle_recovered _ _ _ _ _ _ _ Hd Hresp) in Hh.
  pose proof Hreq as Hq1. apply dispatchRequestEvent_delegate in Hq1.
  pose proof Htry as Hq2. apply tryBlock_delegate in Hq2.
  pose proof Hd as Hq3. apply dispatchErrorEvent_delegate in Hq3.
  apply dispatchRequestEvent_evolves in Hreq.
  destruct Hreq as [[Hl1 _] _]. cbn in Hl1.
  apply tryBlock_evolves in Htry. destruct Htry as (l2 & n2 & [Hl2 _] & Hn2).
  apply dispatchErrorEvent_evolves in Hd. destruct Hd as [[Hl3 Hn3] _].
  pose proof Hh as Ho. apply finallyBlock_outcome in Ho.
  destruct Ho as [_ Ho].
  apply finallyBlock_evolves in Hh. destruct Hh as ([Hl4 _] & _).
  assert (Hlog : dispatchedEvents w'
                 = (dispatchedEvents w2
                    ++ [(ERROR, freshErrorEvent (nextEventId w2) err);
                        (TERMINATE,
                         OfTerminate (mkEvent (S (nextEventId w2))
                                        (mkTerminateFields (Some r) None)
                                        false false))])%list).
  { rewrite Hl4, Hl3, Hn3, <- app_assoc.
    replace (nextEventId w2 + 1)%nat with (S (nextEventId w2)) by lia.
    reflexivity. }
  split; [exact Hlog | split].
  - rewrite Hlog, Hl2, Hl1. rewrite !countDispatched_app.
    rewrite (countDispatched_none _ _ _ Hn2 not_error_before).
    unfold countDispatched. cbn. lia.
  - intro Hn. destruct (Ho Hn) as [-> Hf]. split; [reflexivity|].
    rewrite Hf, Hq3, Hq2, Hq1. cbn. rewrite <- !app_assoc. reflexivity.
Qed.

(** X25.  A REQUEST phase that does not complete (a listener throws, the
    interception is rejected, the request is cancelled while [handle()]
    waits for it, or nobody ever settles it) ends [handle()] the same way
    outside the lifecycle: the bus has seen the REQUEST event and nothing
    else (no ERROR, no TERMINATE), the engine was not run, and the
    delegate was told [prepareRequest] and never [requestFinished]. *)
Theorem request_phase_failure_bypasses_lifecycle (env : Environment)
  (w w1 : World) (c1 : Completion FetchRequestEvent) :
  _isCancelled (request w) = false ->
  dispatchRequestEvent env (notify prepareRequest w) = (w1, c1) ->
  (forall requestEvent, c1 <> Fulfilled requestEvent) ->
  handle env w
  = (w1, match c1 with
         | Rejected t => Rejected t
         | _ => NeverSettles
         end)
  /\ dispatchedEvents w1
     = (dispatchedEvents w
        ++ [(REQUEST,
             OfRequest (mkEvent (nextEventId w)
                          (mkRequestFields None (_input (request w))
                             (_fetchRequestOptions (request w)))
                          false false))])%list
  /\ engineEffects w1 = engineEffects w
  /\ delegateCalls w1 = (delegateCalls w ++ [prepareRequest])%list.
Proof.
  intros Hguard Hreq Hnot. split.
  - unfold handle. rewrite Hguard, Hreq.
    destruct c1 as [requestEvent|t|]; try reflexivity.
    exfalso. exact (Hnot requestEvent eq_refl).
  - pose proof Hreq as Hd. apply dispatchRequestEvent_delegate in Hd.
    apply dispatchRequestEvent_evolves in Hreq.
    destruct Hreq as [[Hl _] He]. cbn in Hl, He, Hd. auto.
Qed.

(** X26.  A response supplied by a BEFORE_SEND listener short-circuits the
    network as one supplied by a REQUEST listener does: the engine is not
    run, the next event on the bus is the RESPONSE event carrying that
    response, and when no RESPONSE listener replaces it or throws and no
    TERMINATE listener throws, [handle()] resolves with it. *)
Theorem before_send_short_circuit (env : Environment) (w w1 w2 w' : World)
  (requestEvent beforeSendEvent : FetchRequestEvent)
  (response : HttpResponse) (c : Completion HttpResponse) :
  _isCancelled (request w) = false ->
  dispatchRequestEvent env (notify prepareRequest w)
  = (w1, Fulfilled requestEvent) ->
  rq_response (ev_payload requestEvent) = None ->
  dispatchBeforeSendEvent env (notify requestStarted w1)
  = (w2, inr beforeSendEvent) ->
  rq_response (ev_payload beforeSendEvent) = Some response ->
  handle env w = (w', c) ->
  engineEffects w' = engineEffects w
  /\ (exists later,
        dispatchedEvents w'
        = (dispatchedEvents w2
           ++ (RESPONSE,
               OfResponse (mkEvent (nextEventId w2) response false false))
              :: later)%list)
  /\ (neverRaise (onResponse env) -> neverCall (onResponse env) ->
      neverRaise (onTerminate env) -> c = Fulfilled response).
Proof.
  intros Hguard Hreq Hnone Hbs Hsup Hh.
  unfold handle in Hh. rewrite Hguard, Hreq in Hh.
  apply dispatchRequestEvent_evolves in Hreq.
  destruct Hreq as [_ He1]. cbn in He1.
  unfold tryBlock in Hh. rewrite Hnone, Hbs, Hsup in Hh.
  apply dispatchBeforeSendEvent_evolves in Hbs.
  destruct Hbs as (e & _ & He2). cbn in He2.
  pose proof (dispatchResponseEvent_untouched env response w2) as Hquiet.
  destruct (dispatchResponseEvent env response w2) as [w3 res] eqn:Hd.
  apply dispatchResponseEvent_evolves in Hd.
  destruct Hd as [[Hl3 _] He3]. cbn in Hl3, He3, Hquiet.
  destruct res as [t|fr'].
  - apply catchBlockOfHandle_evolves in Hh.
    destruct Hh as (l4 & e4 & n4 & [Hl4 _] & _ & He4 & _).
    split; [congruence | split].
    + eexists. rewrite Hl4, Hl3, <- app_assoc. reflexivity.
    + intros Hq1 Hq2 _. specialize (Hquiet Hq1 Hq2). discriminate.
  - pose proof Hh as Ho. apply finallyBlock_outcome in Ho.
    destruct Ho as [_ Ho].
    apply finallyBlock_evolves in Hh. destruct Hh as ([Hl4 _] & He4 & _).
    split; [congruence | split].
    + eexists. rewrite Hl4, Hl3, <- app_assoc. reflexivity.
    + intros Hq1 Hq2 Hq3. specialize (Hquiet Hq1 Hq2).
      inversion Hquiet; subst fr'. apply (Ho Hq3).
Qed.

(** X27.  Supplying a response pre-empts the listeners that come after: once
    the listeners [ls1] have run on a REQUEST or BEFORE_SEND event that
    carried no response and have left it with one, appending listeners of
    lower priority changes nothing, as they are not called. *)
Theorem supplied_response_preempts_listeners
  (ls1 ls2 : list (Listener RequestFields RequestMethod))
  (e : FetchRequestEvent) (r : FetchRequest) :
  hasResponse e = false ->
  snd (runListeners ls1 e r) = None ->
  hasResponse (fst (fst (runListeners ls1 e r))) = true ->
  runListeners (ls1 ++ ls2) e r = runListeners ls1 e r.
Proof.
  intros Hfresh Hquiet Hsup.
  pose proof (requestEvent_stopped_if_supplied ls1 e r) as Hi.
  rewrite runListeners_app.
  destruct (runListeners ls1 e r) as [[e' r'] [t|]] eqn:Hr;
    [reflexivity|].
  cbn [fst snd] in *.
  destruct ls1 as [|l ls1].
  - cbn in Hr. inversion Hr; subst. congruence.
  - rewrite Hi; [reflexivity | | exact Hsup].
    unfold requestStoppedIfSupplied. congruence.
Qed.

(** X28.  A response set on an ERROR event marks it as recovered and pre-empts
    the listeners that come after: once the listeners [ls1] have run on
    an ERROR event that carried no response and have left it with one,
    [isRecovered()] holds, and appending listeners of lower priority
    changes nothing, as they are not called. *)
Theorem recovering_response_preempts_listeners
  (ls1 ls2 : list (Listener ErrorFields ErrorMethod))
  (e : FetchRequestErrorEvent) (r : FetchRequest) :
  errorHasResponse e = false ->
  snd (runListeners ls1 e r) = None ->
  errorHasResponse (fst (fst (runListeners ls1 e r))) = true ->
  runListeners (ls1 ++ ls2) e r = runListeners ls1 e r
  /\ isRecovered (fst (fst (runListeners ls1 e r))) = true.
Proof.
  intros Hfresh Hquiet Hsup.
  pose proof (errorEvent_recovered_if_supplied ls1 e r) as Hi.
  rewrite runListeners_app.
  destruct (runListeners ls1 e r) as [[e' r'] [t|]] eqn:Hr;
    cbn [fst snd] in *; [discriminate|].
  destruct Hi as [Hs Hrec]; [| exact Hsup |].
  { unfold errorRecoveredIfSupplied. congruence. }
  split; [|exact Hrec].
  destruct ls1 as [|l ls1].
  - cbn in Hr. inversion Hr; subst. congruence.
  - now rewrite Hs.
Qed.

Lemma cancelled_flag_tracks_token_witness :
  flagTracksToken
    (request (fst (handle (noListeners (cancelledInFlight
                                          (wire 200 false readable)))
                     unboundedWorld)))
  /\ isCancelled
       (request (fst (handle (noListeners (cancelledInFlight
                                             (wire 200 false readable)))
                        unboundedWorld)))
     = tokenTripped
         (request (fst (handle (noListeners (cancelledInFlight
                                               (wire 200 false readable)))
                          unboundedWorld))).
Proof.
  apply (cancelled_flag_tracks_token
           (noListeners (cancelledInFlight (wire 200 false readable)))
           unboundedWorld).
  vm_compute. reflexivity.
Defined.

Lemma delegate_protocol_witness :
  delegateCalls (fst (handle (noListeners alwaysFails) freshWorld))
  = [prepareRequest; requestStarted; requestErrored exhaustedBudget;
     requestFinished]
  /\ snd (handle (noListeners alwaysFails) freshWorld)
     = Rejected exhaustedBudget.
Proof.
  destruct (delegate_protocol (noListeners alwaysFails) freshWorld
              (fst (dispatchRequestEvent (noListeners alwaysFails)
                      (notify prepareRequest freshWorld)))
              (fst (fst (tryBlock (noListeners alwaysFails) firstRequestEvent
                           (fst (dispatchRequestEvent
                                   (noListeners alwaysFails)
                                   (notify prepareRequest freshWorld))))))
              (fst (handle (noListeners alwaysFails) freshWorld))
              firstRequestEvent None (Rejected exhaustedBudget)
              (snd (handle (noListeners alwaysFails) freshWorld)))
    as (outcome & fin & Hcalls & (_ & Hc & _ & Hout) & _ & Hfin & _);
    try (vm_compute; reflexivity).
  specialize (Hout neverRaise_nil neverPrevent_nil neverCall_nil).
  assert (Hf : fin = [requestFinished])
    by (apply Hfin; [apply neverRaise_nil | discriminate]).
  split; [rewrite Hcalls, Hout, Hf; reflexivity | exact (Hc Hout Hf)].
Defined.

Lemma fetch_url_ignores_request_event_url_witness :
  _input (request (fst (handle (requestListeners [retarget]) freshWorld)))
  = "https://api.example.com/modified"
  /\ countFetchCalls
       (engineEffects (fst (handle (requestListeners [retarget]) freshWorld)))
     = 1%nat
  /\ exists added,
       engineEffects (fst (handle (requestListeners [retarget]) freshWorld))
       = (engineEffects freshWorld ++ added)%list
       /\ Forall (callTargets "https://api.example.com/test") added.
Proof.
  split; [vm_compute; reflexivity | split; [vm_compute; reflexivity|]].
  apply (fetch_url_ignores_request_event_url (requestListeners [retarget])
           freshWorld).
  apply neverCall_nil.
Defined.

Lemma terminate_reports_success_witness :
  exists before id,
    dispatchedEvents
      (fst (handle (noListeners (alwaysAnswers (wire 200 false readable)))
              freshWorld))
    = (dispatchedEvents freshWorld ++ before
       ++ [(TERMINATE,
            OfTerminate
              (mkEvent id
                 (mkTerminateFields
                    (Some {| originalResponse := wire 200 false readable;
                             data := JsonData "{}" |}) None)
                 false false))])%list.
Proof.
  apply (terminate_reports_success
           (noListeners (alwaysAnswers (wire 200 false readable)))
           freshWorld
           (fst (handle (noListeners (alwaysAnswers
                                        (wire 200 false readable)))
                   freshWorld))).
  vm_compute. reflexivity.
Defined.

Lemma recovered_error_resolves_witness :
  countDispatched ERROR
    (dispatchedEvents (fst (handle recoverWithCache freshWorld)))
  = S (countDispatched ERROR (dispatchedEvents freshWorld))
  /\ snd (handle recoverWithCache freshWorld) = Fulfilled cachedResponse
  /\ delegateCalls (fst (handle recoverWithCache freshWorld))
     = (delegateCalls freshWorld
        ++ [prepareRequest; requestStarted; requestFinished])%list.
Proof.
  destruct (recovered_error_resolves recoverWithCache freshWorld
              (fst (dispatchRequestEvent recoverWithCache
                      (notify prepareRequest freshWorld)))
              (fst (fst (tryBlock recoverWithCache firstRequestEvent
                           (fst (dispatchRequestEvent recoverWithCache
                                   (notify prepareRequest freshWorld))))))
              (fst (dispatchErrorEvent recoverWithCache exhaustedBudget
                      (fst (fst (tryBlock recoverWithCache firstRequestEvent
                                   (fst (dispatchRequestEvent
                                           recoverWithCache
                                           (notify prepareRequest
                                              freshWorld))))))))
              (fst (handle recoverWithCache freshWorld))
              firstRequestEvent None exhaustedBudget
              (errorSetResponse (Some cachedResponse) firstErrorEvent)
              cachedResponse
              (snd (handle recoverWithCache freshWorld)))
    as (_ & Hc & Hf); try (vm_compute; reflexivity).
  destruct (Hf neverRaise_nil) as [Hr Hd].
  split; [exact Hc | split; [exact Hr | exact Hd]].
Defined.

Lemma request_phase_failure_bypasses_lifecycle_witness :
  snd (handle cancelledWhileIntercepted freshWorld)
  = Rejected (HttpFetchError "Request was cancelled by user"
                "https://api.example.com/test" None)
  /\ countDispatched TERMINATE
       (dispatchedEvents (fst (handle cancelledWhileIntercepted freshWorld)))
     = 0%nat
  /\ engineEffects (fst (handle cancelledWhileIntercepted freshWorld))
     = engineEffects freshWorld
  /\ delegateCalls (fst (handle cancelledWhileIntercepted freshWorld))
     = (delegateCalls freshWorld ++ [prepareRequest])%list.
Proof.
  destruct (request_phase_failure_bypasses_lifecycle
              cancelledWhileIntercepted freshWorld
              (fst (dispatchRequestEvent cancelledWhileIntercepted
                      (notify prepareRequest freshWorld)))
              (Rejected (HttpFetchError "Request was cancelled by user"
                           "https://api.example.com/test" None)))
    as (Hh & Hl & He & Hd);
    try (vm_compute; reflexivity); try (intros e H; discriminate H).
  rewrite Hh. cbn [fst snd]. rewrite Hl.
  split; [reflexivity | split; [vm_compute; reflexivity|]].
  split; [exact He | exact Hd].
Defined.

Lemma before_send_short_circuit_witness :
  engineEffects (fst (handle supplyBeforeSend freshWorld))
  = engineEffects freshWorld
  /\ snd (handle supplyBeforeSend freshWorld) = Fulfilled cachedResponse.
Proof.
  destruct (before_send_short_circuit supplyBeforeSend freshWorld
              (fst (dispatchRequestEvent supplyBeforeSend
                      (notify prepareRequest freshWorld)))
              (fst (dispatchBeforeSendEvent supplyBeforeSend
                      (notify requestStarted
                         (fst (dispatchRequestEvent supplyBeforeSend
                                 (notify prepareRequest freshWorld))))))
              (fst (handle supplyBeforeSend freshWorld))
              firstRequestEvent
              (requestSetResponse (Some cachedResponse)
                 (mkEvent 1%nat
                    (mkRequestFields None (o_url plainOptions) plainOptions)
                    false false))
              cachedResponse
              (snd (handle supplyBeforeSend freshWorld)))
    as (He & _ & Hc); try (vm_compute; reflexivity).
  split; [exact He|].
  apply Hc; [apply neverRaise_nil | apply neverCall_nil | apply neverRaise_nil].
Defined.

Lemma supplied_response_preempts_listeners_witness :
  runListeners ([supplyResponse] ++ [fun _ _ => [throw listenerFailure]])
    firstRequestEvent (newFetchRequest plainOptions)
  = runListeners [supplyResponse] firstRequestEvent
      (newFetchRequest plainOptions).
Proof.
  apply (supplied_response_preempts_listeners [supplyResponse]
           [fun _ _ => [throw listenerFailure]] firstRequestEvent
           (newFetchRequest plainOptions));
    vm_compute; reflexivity.
Defined.

Lemma recovering_response_preempts_listeners_witness :
  runListeners
    ([fun _ _ => [call (Error_setResponse (Some cachedResponse))]]
     ++ [fun _ _ => [throw listenerFailure]])
    firstErrorEvent (newFetchRequest plainOptions)
  = runListeners
      [fun _ _ => [call (Error_setResponse (Some cachedResponse))]]
      firstErrorEvent (newFetchRequest plainOptions)
  /\ isRecovered
       (fst (fst (runListeners
                    [fun _ _ =>
                       [call (Error_setResponse (Some cachedResponse))]]
                    firstErrorEvent (newFetchRequest plainOptions))))
     = true.
Proof.
  apply (recovering_response_preempts_listeners
           [fun _ _ => [call (Error_setResponse (Some cachedResponse))]]
           [fun _ _ => [throw listenerFailure]] firstErrorEvent
           (newFetchRequest plainOptions));
    vm_compute; reflexivity.
Defined.

(** X29.  How the RESPONSE phase reports to the delegate.  The phase returns
    the response the listeners left on the event, which they may have
    replaced, and tells the delegate exactly once, about that response:
    that handling was prevented if the listeners left the event with its
    default action prevented; otherwise the response that entered the
    phase decides between success and failure, by its status alone:
    below 300 it is a success, from 300 on (a redirect status included)
    a failure.  Listeners that never call [preventDefault()] leave the
    default action in place. *)
Theorem response_phase_classification (env : Environment)
  (fetchResponse r : HttpResponse) (w w' : World) :
  dispatchResponseEvent env fetchResponse w = (w', inr r) ->
  let event :=
    fst (fst (runListeners (onResponse env)
                (mkEvent (nextEventId w) fetchResponse false false)
                (request w))) in
  r = ev_payload event
  /\ delegateCalls w'
     = (delegateCalls w
        ++ [if isDefaultPrevented event
            then requestPreventedHandlingResponse r
            else if statusCode fetchResponse <? 300
                 then requestSucceededWithResponse r
                 else requestFailedWithResponse r])%list
  /\ (neverPrevent (onResponse env) -> isDefaultPrevented event = false).
Proof.
  unfold dispatchResponseEvent, newEvent, dispatch. cbv zeta.
  cbn [request dispatchedEvents delegateCalls engineEffects nextEventId].
  intro Hd. split; [|split].
  - destruct (runListeners (onResponse env) _ (request w))
      as [[event r'] [t|]]; [discriminate|].
    inversion Hd. reflexivity.
  - assert (Hs : succeeded fetchResponse || serverInfo fetchResponse
                 = (statusCode fetchResponse <? 300)).
    { unfold succeeded, serverInfo.
      destruct (Z.ltb_spec (statusCode fetchResponse) 300),
        (Z.ltb_spec (statusCode fetchResponse) 200),
        (Z.leb_spec 200 (statusCode fetchResponse)),
        (Z.leb_spec (statusCode fetchResponse) 299); try reflexivity; lia. }
    destruct (runListeners (onResponse env) _ (request w))
      as [[event r'] [t|]]; [discriminate|].
    rewrite Hs in Hd. cbn [fst].
    destruct (isDefaultPrevented event);
      [|destruct (statusCode fetchResponse <? 300)];
      inversion Hd; subst; reflexivity.
  - intro Hq. unfold isDefaultPrevented.
    rewrite (runListeners_unprevented (onResponse env)
               invokeResponseMethod_flag Hq).
    reflexivity.
Qed.

Lemma response_phase_classification_witness :
  delegateCalls
    (fst (dispatchResponseEvent replaceByCache
            (wrap (wire 404 false readable)) freshWorld))
  = (delegateCalls freshWorld
     ++ [requestFailedWithResponse cachedResponse])%list
  /\ delegateCalls
       (fst (dispatchResponseEvent
               (noListeners (alwaysAnswers (wire 200 false readable)))
               (wrap (wire 200 false readable)) freshWorld))
     = (delegateCalls freshWorld
        ++ [requestSucceededWithResponse
              (wrap (wire 200 false readable))])%list.
Proof.
  split.
  - destruct (response_phase_classification replaceByCache
                (wrap (wire 404 false readable)) cachedResponse freshWorld
                (fst (dispatchResponseEvent replaceByCache
                        (wrap (wire 404 false readable)) freshWorld)))
      as (_ & Hd & _); [vm_compute; reflexivity|].
    rewrite Hd. vm_compute. reflexivity.
  - destruct (response_phase_classification
                (noListeners (alwaysAnswers (wire 200 false readable)))
                (wrap (wire 200 false readable))
                (wrap (wire 200 false readable)) freshWorld
                (fst (dispatchResponseEvent
                        (noListeners
                           (alwaysAnswers (wire 200 false readable)))
                        (wrap (wire 200 false readable)) freshWorld)))
      as (_ & Hd & Hp); [vm_compute; reflexivity|].
    rewrite Hd, (Hp neverPrevent_nil). vm_compute. reflexivity.
Defined.
